(** * GamePlay material parameters: value cell, binding and animation blending

    A shallow embedding of [gameplay/src/MaterialParameter.cpp].  The C++
    object is a record; the memory it points into (borrowed arrays, arrays
    obtained from [new[]], reference-counted samplers and method bindings)
    is an explicit heap; every member function is a computation in a small
    state-and-failure monad over that heap.  C++ [float] is IEEE-754
    binary32, taken from the standard library's executable specification
    of floating-point arithmetic. *)

From Stdlib Require Import ZArith QArith Floats.SpecFloat Lia.
From stdpp Require Import gmap strings list.

Open Scope Z_scope.

(** ** Single-precision floats *)

Module Float32.

Definition prec : Z := 24.
Definition emax : Z := 128.

Definition float : Type := spec_float.

Definition zero : float := S754_zero false.
Definition one : float := S754_finite false 8388608 (-23).

Definition add : float → float → float := SFadd prec emax.
Definition sub : float → float → float := SFsub prec emax.
Definition mul : float → float → float := SFmul prec emax.
Definition eqb : float → float → bool := SFeqb.
Definition leb : float → float → bool := SFleb.

Definition valid (f : float) : bool := valid_binary prec emax f.

Definition is_finite (f : float) : bool :=
  match f with
  | S754_zero _ | S754_finite _ _ _ => true
  | S754_infinity _ | S754_nan => false
  end.

Definition is_neg_zero (f : float) : bool :=
  match f with
  | S754_zero true => true
  | _ => false
  end.


(** The value of a finite float, counted in units of [2^-149], the
    smallest positive float; every finite float is a whole number of them. *)
Definition units (f : float) : Z :=
  match f with
  | S754_finite s m e => cond_Zopp s (Z.pos m * 2 ^ (e + 149))
  | _ => 0
  end.


(** Implicit conversion [int] to [float]: round to nearest, ties to even. *)
Definition of_int (z : Z) : float := binary_normalize prec emax z 0 false.

(** The integer obtained by discarding the fractional part of a finite
    float.  [Z.shiftl] by a negative amount is a right shift, and on the
    non-negative significand it discards the low bits. *)
Definition trunc (f : float) : option Z :=
  match f with
  | S754_zero _ => Some 0
  | S754_finite s m e => Some (cond_Zopp s (Z.shiftl (Z.pos m) e))
  | S754_infinity _ | S754_nan => None
  end.

Definition INT_MIN : Z := - 2 ^ 31.
Definition INT_MAX : Z := 2 ^ 31 - 1.

(** Conversion [float] to [int]: the value is truncated; the behaviour is
    undefined ([None]) when the truncated value does not fit [int]. *)
Definition to_int (f : float) : option Z :=
  match trunc f with
  | Some z => if (INT_MIN <=? z) && (z <=? INT_MAX) then Some z else None
  | None => None
  end.

(** The rational number a finite float denotes. *)
Definition to_Q (f : float) : option Q :=
  match f with
  | S754_zero _ => Some (0 # 1)%Q
  | S754_finite s m e =>
      Some (match e with
            | Z.neg k => Qmake (cond_Zopp s (Z.pos m)) (2 ^ k)%positive
            | _ => Qmake (cond_Zopp s (Z.pos m) * 2 ^ e) 1
            end)
  | S754_infinity _ | S754_nan => None
  end.

(** Truncation toward zero of a rational, stated on its own: the quotient
    of numerator by denominator, rounded toward zero. *)
Definition Qtrunc (q : Q) : Z := Z.quot (Qnum q) (Z.pos (Qden q)).

End Float32.

Abbreviation float := Float32.float.

#[global] Instance float_eq_dec : EqDecision spec_float.
Proof. solve_decision. Defined.

(** Modelled from the spec: [Curve::lerp] (Curve.cpp is not among the
    sources).  The spec gives [lerp(t, a, b) = a + t*(b-a)]; the operations
    are those of [float]. *)
Module Curve.

Definition lerp (t from to : float) : float :=
  Float32.add from (Float32.mul t (Float32.sub to from)).

End Curve.

(** ** The heap the parameter points into *)

(** Addresses; [NULL] is address 0. *)
Definition addr : Type := N.
Definition NULL : addr := 0%N.

(** Where an array comes from: [new[]] inside this class, or memory the
    caller owns and merely lends. *)
Inductive origin := NewArray | External.

(** The scene-node accessors the binding table knows. *)
Inductive NodeAccessor :=
| getBackVector | getDownVector | getTranslationWorld | getTranslationView
| getForwardVector | getForwardVectorWorld | getForwardVectorView
| getLeftVector | getRightVector | getRightVectorWorld
| getUpVector | getUpVectorWorld
| getActiveCameraTranslationWorld | getActiveCameraTranslationView
| getScaleX | getScaleY | getScaleZ
| getTranslationX | getTranslationY | getTranslationZ.

(** The result type an accessor is bound at: the [ParameterType] argument
    of the binding template. *)
Inductive ParameterType := Float_ | Vector3_.

(** What a reference-counted object is. *)
Inductive RefObject :=
| SamplerObject
| MethodValueBinding (node : addr) (parameterType : ParameterType)
    (valueMethod : NodeAccessor).

Inductive block :=
| FloatArray (o : origin) (data : list float)
| IntArray (o : origin) (data : list Z)
| RefCounted (obj : RefObject) (refCount : positive).

(** A uniform slot of a compiled effect, with the back-reference to the
    effect that owns it. *)
Record Uniform := { uniform_name : string; uniform_effect : addr }.

(** What [Effect::setValue] is asked to upload. *)
Inductive upload :=
| UploadFloat (f : float)
| UploadFloatArray (values : addr) (count : Z)
| UploadInt (i : Z)
| UploadIntArray (values : addr) (count : Z)
| UploadVector2Array (values : addr) (count : Z)
| UploadVector3Array (values : addr) (count : Z)
| UploadVector4Array (values : addr) (count : Z)
| UploadMatrixArray (values : addr) (count : Z)
| UploadSampler (sampler : addr).

(** Everything observable from outside the object: allocation and
    reference-count traffic, diagnostics, and uploads to an effect. *)
Inductive event :=
| EvNewArray (a : addr) (n : nat)
| EvDeleteArray (a : addr)
| EvNewRef (a : addr)
| EvAddRef (a : addr)
| EvRelease (a : addr)
| EvWarn (msg : string)
| EvSetValue (effect : addr) (u : Uniform) (v : upload)
| EvMethodSetValue (method : addr) (effect : addr).

Record World := { heap : gmap addr block; trace : list event }.

Definition with_heap (h : gmap addr block) (w : World) : World :=
  {| heap := h; trace := trace w |}.

Definition with_event (e : event) (w : World) : World :=
  {| heap := heap w; trace := trace w ++ [e] |}.

(** ** Computations: state passing with the three ways of not returning *)

Inductive failure :=
| AssertionFailed          (* GP_ASSERT *)
| FatalError (msg : string) (* GP_ERROR *)
| UndefinedBehaviour.      (* the C++ standard gives the program no meaning *)

Inductive outcome (A : Type) :=
| Done (a : A) (w : World)
| Abort (f : failure) (w : World).
Arguments Done {A} a w.
Arguments Abort {A} f w.

Definition M (A : Type) : Type := World → outcome A.

#[global] Instance M_ret : MRet M := λ A a w, Done a w.
#[global] Instance M_bind : MBind M := λ A B k m w,
  match m w with
  | Done a w' => k a w'
  | Abort f w' => Abort f w'
  end.

Definition abort {A : Type} (f : failure) : M A := λ w, Abort f w.
Definition emit (e : event) : M unit := λ w, Done tt (with_event e w).

(** Modelled from the spec: the diagnostics macros of Base.h, which is not
    among the sources.  A failed precondition fails fast; [GP_ERROR] is the
    fatal diagnostic that ends the operation; [GP_WARN] is the warning-level
    diagnostic after which execution goes on. *)
Definition GP_ASSERT (b : bool) : M unit :=
  if b then mret tt else abort AssertionFailed.
(* The arguments [effect], [binding], [value] and [materialParameter], which
   the code asserts to be non-null and then uses as objects, are passed as
   the objects themselves, so those assertions hold by typing. *)
Definition GP_ERROR {A : Type} (msg : string) : M A := abort (FatalError msg).
Definition GP_WARN (msg : string) : M unit := emit (EvWarn msg).

(** A [const T&] parameter.  The function reads the referenced object
    where its body reads it, which may be after it has changed the heap, so
    a reference is the computation that reads the object.  [temporary] is a
    reference to an object of the caller's that lives outside the heap. *)
Definition reference (A : Type) : Type := M A.
Definition temporary {A : Type} (a : A) : reference A := mret a.

(** ** Heap primitives *)

Definition UINT_MAX : Z := 2 ^ 32 - 1.

(** Arithmetic on [unsigned int] wraps modulo [2^32]. *)
Definition uint (z : Z) : Z := z mod 2 ^ 32.

Definition fresh_addr (h : gmap addr block) : addr := fresh ({[NULL]} ∪ dom h).

(** [new float[n]] followed by the [memcpy] that fills it. *)
Definition new_float_array (data : list float) : M addr := λ w,
  let a := fresh_addr (heap w) in
  Done a {| heap := <[a := FloatArray NewArray data]> (heap w);
            trace := trace w ++ [EvNewArray a (length data)] |}.

(** [delete[]] on a [float*]: defined only on a live array that came from
    [new float[]]; deleting [NULL] does nothing. *)
Definition delete_float_array (a : addr) : M unit := λ w,
  if decide (a = NULL) then Done tt w else
  match heap w !! a with
  | Some (FloatArray NewArray _) =>
      Done tt {| heap := delete a (heap w); trace := trace w ++ [EvDeleteArray a] |}
  | _ => Abort UndefinedBehaviour w
  end.

Definition delete_int_array (a : addr) : M unit := λ w,
  if decide (a = NULL) then Done tt w else
  match heap w !! a with
  | Some (IntArray NewArray _) =>
      Done tt {| heap := delete a (heap w); trace := trace w ++ [EvDeleteArray a] |}
  | _ => Abort UndefinedBehaviour w
  end.

(** Modelled from the spec: the reference-counting base class [Ref]
    (Ref.cpp is not among the sources).  Sampler and method references are
    shared and counted; [addRef] adds one owner, [release] removes one and
    destroys the object with its last owner. *)
Definition addRef (a : addr) : M unit := λ w,
  match heap w !! a with
  | Some (RefCounted obj n) =>
      Done tt {| heap := <[a := RefCounted obj (n + 1)%positive]> (heap w);
                 trace := trace w ++ [EvAddRef a] |}
  | _ => Abort UndefinedBehaviour w
  end.

Definition release (a : addr) : M unit := λ w,
  match heap w !! a with
  | Some (RefCounted obj n) =>
      Done tt {| heap := if decide (n = 1%positive) then delete a (heap w)
                         else <[a := RefCounted obj (Pos.pred n)]> (heap w);
                 trace := trace w ++ [EvRelease a] |}
  | _ => Abort UndefinedBehaviour w
  end.

(** Reading and writing one element through a [float*] or an [int*]. *)
Definition load_float (a : addr) (i : nat) : M float := λ w,
  match heap w !! a with
  | Some (FloatArray _ data) =>
      match data !! i with
      | Some f => Done f w
      | None => Abort UndefinedBehaviour w
      end
  | _ => Abort UndefinedBehaviour w
  end.

Definition store_float (a : addr) (i : nat) (f : float) : M unit := λ w,
  match heap w !! a with
  | Some (FloatArray o data) =>
      if decide (i < length data)%nat
      then Done tt (with_heap (<[a := FloatArray o (<[i := f]> data)]> (heap w)) w)
      else Abort UndefinedBehaviour w
  | _ => Abort UndefinedBehaviour w
  end.

Definition load_int (a : addr) (i : nat) : M Z := λ w,
  match heap w !! a with
  | Some (IntArray _ data) =>
      match data !! i with
      | Some z => Done z w
      | None => Abort UndefinedBehaviour w
      end
  | _ => Abort UndefinedBehaviour w
  end.

Definition store_int (a : addr) (i : nat) (z : Z) : M unit := λ w,
  match heap w !! a with
  | Some (IntArray o data) =>
      if decide (i < length data)%nat
      then Done tt (with_heap (<[a := IntArray o (<[i := z]> data)]> (heap w)) w)
      else Abort UndefinedBehaviour w
  | _ => Abort UndefinedBehaviour w
  end.

(** [memcpy(dst, src, n * sizeof(float))] into a live float array. *)
Definition memcpy_floats (dst : addr) (src : list float) : M unit := λ w,
  match heap w !! dst with
  | Some (FloatArray o data) =>
      if decide (length src ≤ length data)%nat
      then Done tt (with_heap
             (<[dst := FloatArray o (src ++ drop (length src) data)]> (heap w)) w)
      else Abort UndefinedBehaviour w
  | _ => Abort UndefinedBehaviour w
  end.

(** Reading [n] consecutive floats starting at a pointer. *)
Definition load_floats (a : addr) (n : nat) : M (list float) := λ w,
  match heap w !! a with
  | Some (FloatArray _ data) =>
      if decide (n ≤ length data)%nat then Done (take n data) w
      else Abort UndefinedBehaviour w
  | _ => Abort UndefinedBehaviour w
  end.

(** A [for (unsigned int i = 0; i < n; i++)] loop whose body updates the
    local object [s]; [i] is the current index and [n] the number of
    iterations left. *)
Fixpoint for_loop {St : Type} (body : nat → St → M St) (i n : nat) (s : St) : M St :=
  match n with
  | O => mret s
  | S n' => s' ← body i s; for_loop body (S i) n' s'
  end.

(** ** The parameter object *)

Inductive ParamType :=
| NONE | FLOAT | INT | VECTOR2 | VECTOR3 | VECTOR4 | MATRIX | SAMPLER | METHOD.

#[global] Instance ParamType_eq_dec : EqDecision ParamType.
Proof. solve_decision. Defined.

(** The anonymous union [_value].  Its members overlay one another: the
    four pointer members share one representation, and the two scalars are
    kept apart from them.  [AllZero] is the state [memset] leaves, in
    which every member reads as zero or null.  Reading a pointer member
    out of a stored scalar, or a scalar out of a stored pointer or of the
    other scalar, is the reinterpretation the language leaves undefined. *)
Inductive ValueUnion :=
| AllZero
| AsFloat (f : float)
| AsInt (i : Z)
| AsPointer (a : addr).

Definition floatValue (v : ValueUnion) : M float :=
  match v with
  | AllZero => mret Float32.zero
  | AsFloat f => mret f
  | _ => abort UndefinedBehaviour
  end.

Definition intValue (v : ValueUnion) : M Z :=
  match v with
  | AllZero => mret 0
  | AsInt i => mret i
  | _ => abort UndefinedBehaviour
  end.

Definition pointerValue (v : ValueUnion) : M addr :=
  match v with
  | AllZero => mret NULL
  | AsPointer a => mret a
  | _ => abort UndefinedBehaviour
  end.

Definition floatPtrValue := pointerValue.
Definition intPtrValue := pointerValue.
Definition samplerValue := pointerValue.
Definition method := pointerValue.

Record MaterialParameter := {
  _type : ParamType;
  _count : Z;
  _dynamic : bool;
  _name : string;
  _uniform : option Uniform;
  _value : ValueUnion
}.

(** Modelled from the spec: the vector and matrix classes, whose headers
    are not among the sources, are the 2, 3, 4 and 16 consecutive floats the
    code copies out of them. *)
Module Vector2.
Record t := { x : float; y : float }.
Definition floats (v : t) : list float := [x v; y v].
End Vector2.

Module Vector3.
Record t := { x : float; y : float; z : float }.
Definition floats (v : t) : list float := [x v; y v; z v].
End Vector3.

Module Vector4.
Record t := { x : float; y : float; z : float; w : float }.
Definition floats (v : t) : list float := [x v; y v; z v; w v].
End Vector4.

(** Modelled from the spec: the macros [SAFE_DELETE_ARRAY] and
    [SAFE_RELEASE] of Base.h, which is not among the sources.  Clearing
    releases owned storage or reference-counted handles: the array is
    deleted (deleting null does nothing), the handle is released when it is
    not null.  Either macro then nulls the pointer, which the [memset] that
    follows in [clearValue] does anyway. *)
Definition SAFE_DELETE_ARRAY_float (v : ValueUnion) : M unit :=
  a ← floatPtrValue v; delete_float_array a.

Definition SAFE_DELETE_ARRAY_int (v : ValueUnion) : M unit :=
  a ← intPtrValue v; delete_int_array a.

Definition SAFE_RELEASE (v : ValueUnion) : M unit :=
  a ← method v; if decide (a = NULL) then mret tt else release a.

Definition clearValue (p : MaterialParameter) : M MaterialParameter :=
  p ← (if _dynamic p then
         match _type p with
         | FLOAT | VECTOR2 | VECTOR3 | VECTOR4 | MATRIX =>
             SAFE_DELETE_ARRAY_float (_value p)
         | INT => SAFE_DELETE_ARRAY_int (_value p)
         | METHOD => SAFE_RELEASE (_value p)
         | _ => mret tt
         end ;;
         mret {| _type := _type p; _count := 1; _dynamic := false; _name := _name p;
                 _uniform := _uniform p; _value := _value p |}
       else
         match _type p with
         | SAMPLER =>
             a ← samplerValue (_value p);
             if decide (a = NULL) then mret tt else release a
         | _ => mret tt
         end ;;
         mret p);
  mret {| _type := NONE; _count := _count p; _dynamic := _dynamic p; _name := _name p;
          _uniform := _uniform p; _value := AllZero |}.

(** The constructor: [_type(NONE), _count(1), _dynamic(false), _name(name),
    _uniform(NULL)], then [clearValue()]. *)
Definition MaterialParameter_new (name : string) : M MaterialParameter :=
  clearValue {| _type := NONE; _count := 1; _dynamic := false; _name := name;
                _uniform := None; _value := AllZero |}.

Definition with_value (t : ParamType) (n : Z) (d : bool) (v : ValueUnion)
    (p : MaterialParameter) : MaterialParameter :=
  {| _type := t; _count := n; _dynamic := d; _name := _name p;
     _uniform := _uniform p; _value := v |}.

Definition setValue_float (value : float) (p : MaterialParameter) : M MaterialParameter :=
  p ← clearValue p;
  mret (with_value FLOAT (_count p) (_dynamic p) (AsFloat value) p).

Definition setValue_int (value : Z) (p : MaterialParameter) : M MaterialParameter :=
  p ← clearValue p;
  mret (with_value INT (_count p) (_dynamic p) (AsInt value) p).

Definition setValue_floatArray (values : addr) (count : Z) (p : MaterialParameter)
    : M MaterialParameter :=
  p ← clearValue p;
  mret (with_value FLOAT count (_dynamic p) (AsPointer values) p).

Definition setValue_intArray (values : addr) (count : Z) (p : MaterialParameter)
    : M MaterialParameter :=
  p ← clearValue p;
  mret (with_value INT count (_dynamic p) (AsPointer values) p).

Definition setValue_Vector2 (value : reference Vector2.t) (p : MaterialParameter)
    : M MaterialParameter :=
  p ← clearValue p;
  (* Copy data by-value into a dynamic array. *)
  v ← value;
  array ← new_float_array (Vector2.floats v);
  mret (with_value VECTOR2 1 true (AsPointer array) p).

Definition setValue_Vector2Array (values : addr) (count : Z) (p : MaterialParameter)
    : M MaterialParameter :=
  GP_ASSERT (bool_decide (values ≠ NULL)) ;;
  p ← clearValue p;
  mret (with_value VECTOR2 count (_dynamic p) (AsPointer values) p).

Definition setValue_Vector3 (value : reference Vector3.t) (p : MaterialParameter)
    : M MaterialParameter :=
  p ← clearValue p;
  (* Copy data by-value into a dynamic array. *)
  v ← value;
  array ← new_float_array (Vector3.floats v);
  mret (with_value VECTOR3 1 true (AsPointer array) p).

Definition setValue_Vector3Array (values : addr) (count : Z) (p : MaterialParameter)
    : M MaterialParameter :=
  GP_ASSERT (bool_decide (values ≠ NULL)) ;;
  p ← clearValue p;
  mret (with_value VECTOR3 count (_dynamic p) (AsPointer values) p).

Definition setValue_Vector4 (value : reference Vector4.t) (p : MaterialParameter)
    : M MaterialParameter :=
  p ← clearValue p;
  (* Copy data by-value into a dynamic array. *)
  v ← value;
  array ← new_float_array (Vector4.floats v);
  mret (with_value VECTOR4 1 true (AsPointer array) p).

Definition setValue_Vector4Array (values : addr) (count : Z) (p : MaterialParameter)
    : M MaterialParameter :=
  GP_ASSERT (bool_decide (values ≠ NULL)) ;;
  p ← clearValue p;
  mret (with_value VECTOR4 count (_dynamic p) (AsPointer values) p).

Module Matrix.
Record t := { m : list float }.
End Matrix.

(** The floats a [memcpy] of [n] floats reads out of an object. *)
Definition read_floats (src : list float) (n : nat) : M (list float) :=
  if decide (n ≤ length src)%nat then mret (take n src) else abort UndefinedBehaviour.

Definition setValue_Matrix (value : reference Matrix.t) (p : MaterialParameter)
    : M MaterialParameter :=
  (* If this parameter is already storing a single dynamic matrix, no need to clear it. *)
  reuse ← (if _dynamic p && (_count p =? 1) && bool_decide (_type p = MATRIX)
           then a ← floatPtrValue (_value p); mret (bool_decide (a ≠ NULL))
           else mret false);
  p ← (if reuse : bool then mret p
       else
         p ← clearValue p;
         (* Allocate a new dynamic matrix. *)
         array ← new_float_array (replicate 16 Float32.zero);
         mret (with_value (_type p) (_count p) (_dynamic p) (AsPointer array) p));
  a ← floatPtrValue (_value p);
  v ← value;
  src ← read_floats (Matrix.m v) 16;
  memcpy_floats a src ;;
  mret (with_value MATRIX 1 true (_value p) p).

Definition setValue_MatrixArray (values : addr) (count : Z) (p : MaterialParameter)
    : M MaterialParameter :=
  GP_ASSERT (bool_decide (values ≠ NULL)) ;;
  p ← clearValue p;
  mret (with_value MATRIX count (_dynamic p) (AsPointer values) p).

Definition setValue_Sampler (sampler : addr) (p : MaterialParameter)
    : M MaterialParameter :=
  p ← clearValue p;
  if decide (sampler ≠ NULL) then
    addRef sampler ;;
    mret (with_value SAMPLER (_count p) (_dynamic p) (AsPointer sampler) p)
  else mret p.

(** [setValue(const char* texturePath, bool generateMipmaps)].  The texture
    loader [Texture::Sampler::create] is an external collaborator, passed in
    as [create]; it yields [NULL] or a sampler the caller now owns. *)
Definition setValue_texturePath (create : string → bool → M addr)
    (texturePath : option string) (generateMipmaps : bool) (p : MaterialParameter)
    : M (addr * MaterialParameter) :=
  match texturePath with
  | Some path =>
      p ← clearValue p;
      sampler ← create path generateMipmaps;
      if decide (sampler ≠ NULL)
      then mret (sampler, with_value SAMPLER (_count p) (_dynamic p) (AsPointer sampler) p)
      else mret (sampler, p)
  | None => mret (NULL, p)
  end.

(** ** Binding to an effect *)

(** Modelled from the spec: the shader-effect collaborator (Effect.cpp is
    not among the sources): [getUniform] is the lookup of a uniform by name
    that may find nothing, and each typed [setValue] is an upload, recorded
    in the trace. *)
Record Effect := {
  effect_addr : addr;
  effect_id : string;
  effect_uniforms : gmap string Uniform
}.

Definition getUniform (effect : Effect) (name : string) : option Uniform :=
  effect_uniforms effect !! name.

Definition Effect_setValue (effect : Effect) (u : Uniform) (v : upload) : M unit :=
  emit (EvSetValue (effect_addr effect) u v).

Definition with_uniform (u : option Uniform) (p : MaterialParameter) : MaterialParameter :=
  {| _type := _type p; _count := _count p; _dynamic := _dynamic p; _name := _name p;
     _uniform := u; _value := _value p |}.

(** The [switch (_type)] of [bind], reached with a resolved uniform. *)
Definition bind_upload (effect : Effect) (u : Uniform) (p : MaterialParameter) : M unit :=
  match _type p with
  | FLOAT =>
      if _count p =? 1
      then f ← floatValue (_value p); Effect_setValue effect u (UploadFloat f)
      else a ← floatPtrValue (_value p); Effect_setValue effect u (UploadFloatArray a (_count p))
  | INT =>
      if _count p =? 1
      then i ← intValue (_value p); Effect_setValue effect u (UploadInt i)
      else a ← intPtrValue (_value p); Effect_setValue effect u (UploadIntArray a (_count p))
  | VECTOR2 =>
      a ← floatPtrValue (_value p); Effect_setValue effect u (UploadVector2Array a (_count p))
  | VECTOR3 =>
      a ← floatPtrValue (_value p); Effect_setValue effect u (UploadVector3Array a (_count p))
  | VECTOR4 =>
      a ← floatPtrValue (_value p); Effect_setValue effect u (UploadVector4Array a (_count p))
  | MATRIX =>
      a ← floatPtrValue (_value p); Effect_setValue effect u (UploadMatrixArray a (_count p))
  | SAMPLER =>
      a ← samplerValue (_value p); Effect_setValue effect u (UploadSampler a)
  | METHOD =>
      a ← method (_value p);
      GP_ASSERT (bool_decide (a ≠ NULL)) ;;
      emit (EvMethodSetValue a (effect_addr effect))
  | NONE => GP_ERROR "Unsupported material parameter type (%d)."
  end.

Definition bind (effect : Effect) (p : MaterialParameter) : M MaterialParameter :=
  (* If we had a Uniform cached that is not from the passed in effect,
     we need to update our uniform to point to the new effect's uniform. *)
  let stale :=
    match _uniform p with
    | None => true
    | Some u => bool_decide (uniform_effect u ≠ effect_addr effect)
    end in
  let p := if stale then with_uniform (getUniform effect (_name p)) p else p in
  match _uniform p with
  | None =>
      (* This parameter was not found in the specified effect, so do nothing. *)
      GP_WARN ("Warning: Material parameter '" +:+ _name p +:+ "' not found in effect '"
               +:+ effect_id effect +:+ "'.") ;;
      mret p
  | Some u => bind_upload effect u p ;; mret p
  end.

(** ** Binding to a node accessor *)

(** The number of float channels a bound accessor yields. *)
Definition binding_channels (t : ParameterType) : nat :=
  match t with
  | Float_ => 1
  | Vector3_ => 3
  end.

Definition new_ref (obj : RefObject) : M addr := λ w,
  let a := fresh_addr (heap w) in
  Done a {| heap := <[a := RefCounted obj 1]> (heap w);
            trace := trace w ++ [EvNewRef a] |}.

(** Modelled from the spec: the member template
    [bindValue<ClassType, ParameterType>(classInstance, valueMethod)], which
    lives in the header and is not among the sources.  It installs a
    computed binding: the prior value is cleared, then the cell holds a new
    reference-counted binding object that remembers the node and the
    accessor, whose result has 1 channel for a scalar accessor and 3 for a
    vector accessor.  The cell's kind is [METHOD] and the cell is dynamic,
    which is the state in which [clearValue] releases [_value.method]. *)
Definition bindValue_method (parameterType : ParameterType) (node : addr)
    (valueMethod : NodeAccessor) (p : MaterialParameter) : M MaterialParameter :=
  p ← clearValue p;
  binding ← new_ref (MethodValueBinding node parameterType valueMethod);
  mret (with_value METHOD (_count p) true (AsPointer binding) p).

Definition bindValue (node : addr) (binding : string) (p : MaterialParameter)
    : M MaterialParameter :=
  if String.eqb binding "&Node::getBackVector" then
    bindValue_method Vector3_ node getBackVector p
  else if String.eqb binding "&Node::getDownVector" then
    bindValue_method Vector3_ node getDownVector p
  else if String.eqb binding "&Node::getTranslationWorld" then
    bindValue_method Vector3_ node getTranslationWorld p
  else if String.eqb binding "&Node::getTranslationView" then
    bindValue_method Vector3_ node getTranslationView p
  else if String.eqb binding "&Node::getForwardVector" then
    bindValue_method Vector3_ node getForwardVector p
  else if String.eqb binding "&Node::getForwardVectorWorld" then
    bindValue_method Vector3_ node getForwardVectorWorld p
  else if String.eqb binding "&Node::getForwardVectorView" then
    bindValue_method Vector3_ node getForwardVectorView p
  else if String.eqb binding "&Node::getLeftVector" then
    bindValue_method Vector3_ node getLeftVector p
  else if String.eqb binding "&Node::getRightVector" then
    bindValue_method Vector3_ node getRightVector p
  else if String.eqb binding "&Node::getRightVectorWorld" then
    bindValue_method Vector3_ node getRightVectorWorld p
  else if String.eqb binding "&Node::getUpVector" then
    bindValue_method Vector3_ node getUpVector p
  else if String.eqb binding "&Node::getUpVectorWorld" then
    bindValue_method Vector3_ node getUpVectorWorld p
  else if String.eqb binding "&Node::getActiveCameraTranslationWorld" then
    bindValue_method Vector3_ node getActiveCameraTranslationWorld p
  else if String.eqb binding "&Node::getActiveCameraTranslationView" then
    bindValue_method Vector3_ node getActiveCameraTranslationView p
  else if String.eqb binding "&Node::getScaleX" then
    bindValue_method Float_ node getScaleX p
  else if String.eqb binding "&Node::getScaleY" then
    bindValue_method Float_ node getScaleY p
  else if String.eqb binding "&Node::getScaleZ" then
    bindValue_method Float_ node getScaleZ p
  else if String.eqb binding "&Node::getTranslationX" then
    bindValue_method Float_ node getTranslationX p
  else if String.eqb binding "&Node::getTranslationY" then
    bindValue_method Float_ node getTranslationY p
  else if String.eqb binding "&Node::getTranslationZ" then
    bindValue_method Float_ node getTranslationZ p
  else
    GP_ERROR ("Unsupported material parameter binding '" +:+ binding +:+ "'.").

(** ** Animation *)

(** Modelled from the spec: the one recognised property id, "uniform
    value"; its number is declared in the header, which is not among the
    sources. *)
Definition ANIMATE_UNIFORM : Z := 1.

Definition getAnimationPropertyComponentCount (propertyId : Z) (p : MaterialParameter) : Z :=
  if propertyId =? ANIMATE_UNIFORM then
    match _type p with
    (* These types don't support animation. *)
    | NONE | MATRIX | SAMPLER | METHOD => 0
    | FLOAT | INT => _count p
    | VECTOR2 => uint (2 * _count p)
    | VECTOR3 => uint (3 * _count p)
    | VECTOR4 => uint (4 * _count p)
    end
  else 0.

(** Modelled from the spec: [AnimationValue] (AnimationValue.cpp is not
    among the sources; only its scripting glue is).  It is the externally
    supplied buffer of float channels: single channels are read and written
    by index, and the bulk variant takes a buffer with an offset/length
    pair.  The spec has the read of a parameter copy each flat channel,
    element-wise and in index order, so the bulk write fills the channels
    [offset .. offset+length) with the floats at those flat positions of
    the buffer handed in.  Indices outside the buffer violate the
    precondition. *)
Module AnimationValue.

Definition t : Type := list float.

Definition getFloat (index : Z) (v : t) : M float :=
  match v !! Z.to_nat index with
  | Some f => mret f
  | None => abort AssertionFailed
  end.

Definition setFloat (index : Z) (value : float) (v : t) : M t :=
  GP_ASSERT (bool_decide (Z.to_nat index < length v)%nat) ;;
  mret (<[Z.to_nat index := value]> v).

Definition setFloat_array (value : addr) (offset length_ : Z) (v : t) : M t :=
  GP_ASSERT (bool_decide (value ≠ NULL) && (offset <? Z.of_nat (length v))
             && (offset + length_ <=? Z.of_nat (length v))) ;;
  for_loop (λ j v, f ← load_float value (Z.to_nat offset + j); setFloat (offset + Z.of_nat j) f v)
           0 (Z.to_nat length_) v.

End AnimationValue.

Definition getAnimationPropertyValue (propertyId : Z) (value : AnimationValue.t)
    (p : MaterialParameter) : M AnimationValue.t :=
  if propertyId =? ANIMATE_UNIFORM then
    match _type p with
    | FLOAT =>
        if _count p =? 1 then
          f ← floatValue (_value p); AnimationValue.setFloat 0 f value
        else
          a ← floatPtrValue (_value p);
          GP_ASSERT (bool_decide (a ≠ NULL)) ;;
          for_loop (λ i value, f ← load_float a i; AnimationValue.setFloat (Z.of_nat i) f value)
                   0 (Z.to_nat (_count p)) value
    | INT =>
        if _count p =? 1 then
          i ← intValue (_value p); AnimationValue.setFloat 0 (Float32.of_int i) value
        else
          a ← intPtrValue (_value p);
          GP_ASSERT (bool_decide (a ≠ NULL)) ;;
          for_loop (λ i value,
                      z ← load_int a i;
                      AnimationValue.setFloat (Z.of_nat i) (Float32.of_int z) value)
                   0 (Z.to_nat (_count p)) value
    | VECTOR2 =>
        for_loop (λ i value,
                    a ← floatPtrValue (_value p);
                    AnimationValue.setFloat_array a (uint (Z.of_nat i * 2)) 2 value)
                 0 (Z.to_nat (_count p)) value
    | VECTOR3 =>
        for_loop (λ i value,
                    a ← floatPtrValue (_value p);
                    AnimationValue.setFloat_array a (uint (Z.of_nat i * 3)) 3 value)
                 0 (Z.to_nat (_count p)) value
    | VECTOR4 =>
        for_loop (λ i value,
                    a ← floatPtrValue (_value p);
                    AnimationValue.setFloat_array a (uint (Z.of_nat i * 4)) 4 value)
                 0 (Z.to_nat (_count p)) value
    (* Unsupported material parameter types for animation. *)
    | NONE | MATRIX | METHOD | SAMPLER => mret value
    end
  else mret value.

(** Storing a [float] into an [int] slot converts it; the conversion is
    undefined when the truncated value does not fit. *)
Definition float_to_int (f : float) : M Z :=
  match Float32.to_int f with
  | Some z => mret z
  | None => abort UndefinedBehaviour
  end.

Definition applyAnimationValue (value : AnimationValue.t) (blendWeight : float)
    (components : Z) (p : MaterialParameter) : M unit :=
  a ← floatPtrValue (_value p);
  GP_ASSERT (bool_decide (a ≠ NULL)) ;;
  let count := uint (_count p * components) in
  for_loop (λ i _,
              f ← load_float a i;
              b ← AnimationValue.getFloat (Z.of_nat i) value;
              store_float a i (Curve.lerp blendWeight f b))
           0 (Z.to_nat count) tt.

Definition setAnimationPropertyValue (propertyId : Z) (value : AnimationValue.t)
    (blendWeight : float) (p : MaterialParameter) : M MaterialParameter :=
  GP_ASSERT (Float32.leb Float32.zero blendWeight && Float32.leb blendWeight Float32.one) ;;
  if propertyId =? ANIMATE_UNIFORM then
    match _type p with
    | FLOAT =>
        if _count p =? 1 then
          f ← floatValue (_value p);
          b ← AnimationValue.getFloat 0 value;
          mret (with_value (_type p) (_count p) (_dynamic p)
                  (AsFloat (Curve.lerp blendWeight f b)) p)
        else
          applyAnimationValue value blendWeight 1 p ;; mret p
    | INT =>
        if _count p =? 1 then
          i ← intValue (_value p);
          b ← AnimationValue.getFloat 0 value;
          r ← float_to_int (Curve.lerp blendWeight (Float32.of_int i) b);
          mret (with_value (_type p) (_count p) (_dynamic p) (AsInt r) p)
        else
          a ← intPtrValue (_value p);
          GP_ASSERT (bool_decide (a ≠ NULL)) ;;
          for_loop (λ i _,
                      z ← load_int a i;
                      b ← AnimationValue.getFloat (Z.of_nat i) value;
                      r ← float_to_int (Curve.lerp blendWeight (Float32.of_int z) b);
                      store_int a i r)
                   0 (Z.to_nat (_count p)) tt ;;
          mret p
    | VECTOR2 => applyAnimationValue value blendWeight 2 p ;; mret p
    | VECTOR3 => applyAnimationValue value blendWeight 3 p ;; mret p
    | VECTOR4 => applyAnimationValue value blendWeight 4 p ;; mret p
    (* Unsupported material parameter types for animation. *)
    | NONE | MATRIX | METHOD | SAMPLER => mret p
    end
  else mret p.

(** ** Cloning *)

(** [*reinterpret_cast<Vector3*>(p)] and its siblings as references: the
    object is the floats found at [p] when it is read. *)
Definition deref_Vector2 (p : addr) : reference Vector2.t :=
  fs ← load_floats p 2;
  match fs with
  | [x; y] => mret {| Vector2.x := x; Vector2.y := y |}
  | _ => abort UndefinedBehaviour
  end.

Definition deref_Vector3 (p : addr) : reference Vector3.t :=
  fs ← load_floats p 3;
  match fs with
  | [x; y; z] => mret {| Vector3.x := x; Vector3.y := y; Vector3.z := z |}
  | _ => abort UndefinedBehaviour
  end.

Definition deref_Vector4 (p : addr) : reference Vector4.t :=
  fs ← load_floats p 4;
  match fs with
  | [x; y; z; w] =>
      mret {| Vector4.x := x; Vector4.y := y; Vector4.z := z; Vector4.w := w |}
  | _ => abort UndefinedBehaviour
  end.

Definition deref_Matrix (p : addr) : reference Matrix.t :=
  fs ← load_floats p 16; mret {| Matrix.m := fs |}.

Definition cloneInto (this materialParameter : MaterialParameter) : M MaterialParameter :=
  let materialParameter :=
    {| _type := _type this; _count := _count this; _dynamic := _dynamic this;
       _name := _name materialParameter; _uniform := _uniform this;
       _value := _value materialParameter |} in
  match _type this with
  | NONE => mret materialParameter
  | FLOAT =>
      f ← floatValue (_value this); setValue_float f materialParameter
  | INT =>
      i ← intValue (_value this); setValue_int i materialParameter
  | VECTOR2 =>
      value ← floatPtrValue (_value this);
      if _count this =? 1 then
        GP_ASSERT (bool_decide (value ≠ NULL)) ;;
        setValue_Vector2 (deref_Vector2 value) materialParameter
      else setValue_Vector2Array value (_count this) materialParameter
  | VECTOR3 =>
      value ← floatPtrValue (_value this);
      if _count this =? 1 then
        GP_ASSERT (bool_decide (value ≠ NULL)) ;;
        setValue_Vector3 (deref_Vector3 value) materialParameter
      else setValue_Vector3Array value (_count this) materialParameter
  | VECTOR4 =>
      value ← floatPtrValue (_value this);
      if _count this =? 1 then
        GP_ASSERT (bool_decide (value ≠ NULL)) ;;
        setValue_Vector4 (deref_Vector4 value) materialParameter
      else setValue_Vector4Array value (_count this) materialParameter
  | MATRIX =>
      value ← floatPtrValue (_value this);
      if _count this =? 1 then
        GP_ASSERT (bool_decide (value ≠ NULL)) ;;
        setValue_Matrix (deref_Matrix value) materialParameter
      else setValue_MatrixArray value (_count this) materialParameter
  | SAMPLER =>
      sampler ← samplerValue (_value this); setValue_Sampler sampler materialParameter
  | METHOD =>
      binding ← method (_value this);
      let materialParameter :=
        with_value (_type materialParameter) (_count materialParameter)
          (_dynamic materialParameter) (AsPointer binding) materialParameter in
      GP_ASSERT (bool_decide (binding ≠ NULL)) ;;
      addRef binding ;;
      mret materialParameter
  end.

(** ** Observations used in the statements *)

(** How often an event occurs in a trace. *)
Definition occurrences (P : event → bool) (t : list event) : nat :=
  length (filter (λ e, P e = true) t).

Definition is_delete_array (a : addr) (e : event) : bool :=
  match e with
  | EvDeleteArray b => bool_decide (a = b)
  | _ => false
  end.

Definition is_release (a : addr) (e : event) : bool :=
  match e with
  | EvRelease b => bool_decide (a = b)
  | _ => false
  end.

Definition is_add_ref (e : event) : bool :=
  match e with
  | EvAddRef _ => true
  | _ => false
  end.

Definition is_upload (e : event) : bool :=
  match e with
  | EvSetValue _ _ _ | EvMethodSetValue _ _ => true
  | _ => false
  end.

Definition is_warning (e : event) : bool :=
  match e with
  | EvWarn _ => true
  | _ => false
  end.

(** The arrays allocated by [new[]] that are still live. *)
Definition is_owned_array (b : block) : bool :=
  match b with
  | FloatArray NewArray _ | IntArray NewArray _ => true
  | _ => false
  end.

Definition owned_arrays (w : World) : gset addr :=
  dom (filter (λ kv, is_owned_array kv.2 = true) (heap w)).

(** The reference count of a live object. *)
Definition refCount (a : addr) (w : World) : option positive :=
  match heap w !! a with
  | Some (RefCounted _ n) => Some n
  | _ => None
  end.

(** The first [n] elements of the live float array at a non-null pointer. *)
Definition float_array_prefix (a : addr) (n : nat) (w : World) : option (list float) :=
  if decide (a = NULL) then None else
  match heap w !! a with
  | Some (FloatArray _ data) =>
      if decide (n ≤ length data)%nat then Some (take n data) else None
  | _ => None
  end.

Definition int_array_prefix (a : addr) (n : nat) (w : World) : option (list Z) :=
  if decide (a = NULL) then None else
  match heap w !! a with
  | Some (IntArray _ data) =>
      if decide (n ≤ length data)%nat then Some (take n data) else None
  | _ => None
  end.

(** The stored float channels of a cell, read as the animation code reads
    them: the scalar member when [_count] is 1 for [FLOAT], the pointed-to
    array otherwise, as many channels as the cell reports. *)
Definition float_channels (p : MaterialParameter) (w : World) : option (list float) :=
  match _type p with
  | FLOAT =>
      if _count p =? 1 then
        match _value p with
        | AllZero => Some [Float32.zero]
        | AsFloat f => Some [f]
        | _ => None
        end
      else
        match _value p with
        | AsPointer a =>
            float_array_prefix a
              (Z.to_nat (getAnimationPropertyComponentCount ANIMATE_UNIFORM p)) w
        | _ => None
        end
  | VECTOR2 | VECTOR3 | VECTOR4 =>
      match _value p with
      | AsPointer a =>
          float_array_prefix a
            (Z.to_nat (getAnimationPropertyComponentCount ANIMATE_UNIFORM p)) w
      | _ => None
      end
  | _ => None
  end.

(** The stored integer channels of an [INT] cell. *)
Definition int_channels (p : MaterialParameter) (w : World) : option (list Z) :=
  match _type p with
  | INT =>
      if _count p =? 1 then
        match _value p with
        | AllZero => Some [0]
        | AsInt i => Some [i]
        | _ => None
        end
      else
        match _value p with
        | AsPointer a =>
            int_array_prefix a
              (Z.to_nat (getAnimationPropertyComponentCount ANIMATE_UNIFORM p)) w
        | _ => None
        end
  | _ => None
  end.

(** The cell's payload is one that [clearValue] can tear down: a dynamic
    cell holds null or a live array from [new[]] of its element type (or,
    for [METHOD], a live reference-counted object), and a sampler cell holds
    null or a live reference-counted object. *)
Definition owns_payload (p : MaterialParameter) (w : World) : bool :=
  let holds (ok : block → bool) :=
    match _value p with
    | AllZero => true
    | AsPointer a =>
        bool_decide (a = NULL) ||
        match heap w !! a with
        | Some b => ok b
        | None => false
        end
    | _ => false
    end in
  if _dynamic p then
    match _type p with
    | FLOAT | VECTOR2 | VECTOR3 | VECTOR4 | MATRIX =>
        holds (λ b, match b with FloatArray NewArray _ => true | _ => false end)
    | INT =>
        holds (λ b, match b with IntArray NewArray _ => true | _ => false end)
    | METHOD =>
        holds (λ b, match b with RefCounted _ _ => true | _ => false end)
    | _ => true
    end
  else
    match _type p with
    | SAMPLER =>
        holds (λ b, match b with RefCounted _ _ => true | _ => false end)
    | _ => true
    end.

(** The state [clearValue] leaves the object in. *)
Definition cleared (p : MaterialParameter) : MaterialParameter :=
  {| _type := NONE; _count := if _dynamic p then 1 else _count p; _dynamic := false;
     _name := _name p; _uniform := _uniform p; _value := AllZero |}.

(** The spec's table of components per element. *)
Definition componentsPerElement (k : ParamType) : Z :=
  match k with
  | FLOAT => 1
  | INT => 1
  | VECTOR2 => 2
  | VECTOR3 => 3
  | VECTOR4 => 4
  | _ => 0
  end.

Definition animatable (k : ParamType) : bool :=
  match k with
  | FLOAT | INT | VECTOR2 | VECTOR3 | VECTOR4 => true
  | _ => false
  end.

(** The accessor names of the binding table, as [bindValue] spells them. *)
Definition binding_table : list string :=
  [ "&Node::getBackVector"; "&Node::getDownVector"; "&Node::getTranslationWorld";
    "&Node::getTranslationView"; "&Node::getForwardVector";
    "&Node::getForwardVectorWorld"; "&Node::getForwardVectorView";
    "&Node::getLeftVector"; "&Node::getRightVector"; "&Node::getRightVectorWorld";
    "&Node::getUpVector"; "&Node::getUpVectorWorld";
    "&Node::getActiveCameraTranslationWorld"; "&Node::getActiveCameraTranslationView";
    "&Node::getScaleX"; "&Node::getScaleY"; "&Node::getScaleZ";
    "&Node::getTranslationX"; "&Node::getTranslationY"; "&Node::getTranslationZ" ].

(** What [clearValue] does to the world: nothing, one [delete[]] of the
    owned array, or one [release] of the shared object. *)
Inductive teardown (p : MaterialParameter) (w w' : World) : Prop :=
| teardown_nothing : w' = w → teardown p w w'
| teardown_delete a :
    _value p = AsPointer a → a ≠ NULL → _dynamic p = true →
    is_owned_array <$> (heap w !! a) = Some true →
    heap w' = delete a (heap w) → trace w' = trace w ++ [EvDeleteArray a] →
    teardown p w w'
| teardown_release a obj n :
    _value p = AsPointer a → a ≠ NULL →
    heap w !! a = Some (RefCounted obj n) →
    heap w' = (if decide (n = 1%positive) then delete a (heap w)
               else <[a := RefCounted obj (Pos.pred n)]> (heap w)) →
    trace w' = trace w ++ [EvRelease a] →
    teardown p w w'.

(** What the cell has to give back when its value is cleared, by the
    cases of the two switches of [clearValue]: the array a dynamic cell
    allocated, its reference to the object a dynamic [METHOD] cell or a
    [SAMPLER] cell points to, or nothing (scalars, borrowed arrays, null
    pointers, [NONE]). *)
Inductive owed :=
| OwesNothing
| OwesArray (a : addr)
| OwesReference (a : addr).

Definition owes (p : MaterialParameter) : owed :=
  match _value p with
  | AsPointer a =>
      if decide (a = NULL) then OwesNothing
      else if _dynamic p then
        match _type p with
        | FLOAT | VECTOR2 | VECTOR3 | VECTOR4 | MATRIX | INT => OwesArray a
        | METHOD => OwesReference a
        | _ => OwesNothing
        end
      else
        match _type p with
        | SAMPLER => OwesReference a
        | _ => OwesNothing
        end
  | _ => OwesNothing
  end.

(** Projections of an outcome. *)
Definition result {A : Type} (o : outcome A) : option A :=
  match o with
  | Done a _ => Some a
  | Abort _ _ => None
  end.

Definition world_of {A : Type} (o : outcome A) : World :=
  match o with
  | Done _ w | Abort _ w => w
  end.

Definition failure_of {A : Type} (o : outcome A) : option failure :=
  match o with
  | Done _ _ => None
  | Abort f _ => Some f
  end.

(** ** Concrete scenes *)

Module Scene.

Definition f (z : Z) : float := Float32.of_int z.

(** A world in which the caller owns a float array at address 5, an int
    array at address 6, and has created a sampler at address 7. *)
Definition world : World :=
  {| heap := {[ 5%N := FloatArray External [f 1; f 2; f 3; f 4; f 5; f 6];
                6%N := IntArray External [10; 20; 30];
                7%N := RefCounted SamplerObject 1 ]};
     trace := [] |}.

(** A freshly constructed parameter, as the constructor leaves it. *)
Definition fresh (name : string) : MaterialParameter :=
  {| _type := NONE; _count := 1; _dynamic := false; _name := name;
     _uniform := None; _value := AllZero |}.

(** An effect that exposes the single uniform [u_diffuseColor]. *)
Definition effect : Effect :=
  {| effect_addr := 100%N; effect_id := "textured";
     effect_uniforms :=
       {[ "u_diffuseColor" :=
            {| uniform_name := "u_diffuseColor"; uniform_effect := 100%N |} ]} |}.

End Scene.

Module Cases.

(** A Vector2 array parameter over [2^31] elements. *)
Definition huge_vector2 : MaterialParameter :=
  with_value VECTOR2 2147483648 false (AsPointer 5%N) (Scene.fresh "u_offsets").

(** A Vector3 array parameter over 2 elements of the caller's float array. *)
Definition two_vector3 : MaterialParameter :=
  with_value VECTOR3 2 false (AsPointer 5%N) (Scene.fresh "u_lightPositions").

End Cases.

Module Sampled.

(** A parameter that holds the sampler at address 7, as [setValue] with
    that sampler leaves it. *)
Definition set : outcome MaterialParameter :=
  setValue_Sampler 7%N (Scene.fresh "u_diffuseTexture") Scene.world.

Definition param : MaterialParameter :=
  with_value SAMPLER 1 false (AsPointer 7%N) (Scene.fresh "u_diffuseTexture").

Definition world : World :=
  {| heap := <[7%N := RefCounted SamplerObject 2]> (heap Scene.world);
     trace := [EvAddRef 7%N] |}.

End Sampled.

Module Borrowed.

(** Set a borrowed array of 5 floats, then clear. *)
Definition set_then_clear : outcome MaterialParameter :=
  (p ← setValue_floatArray 5%N 5 (Scene.fresh "u_weights"); clearValue p) Scene.world.

(** The same, followed by setting a scalar and binding to an effect that
    exposes a uniform of the parameter's name. *)
Definition effect : Effect :=
  {| effect_addr := 100%N; effect_id := "blur";
     effect_uniforms :=
       {[ "u_weights" := {| uniform_name := "u_weights"; uniform_effect := 100%N |} ]} |}.

Definition then_scalar : outcome MaterialParameter :=
  (p ← setValue_floatArray 5%N 5 (Scene.fresh "u_weights");
   p ← clearValue p;
   setValue_float Float32.one p) Scene.world.

Definition then_bind : outcome MaterialParameter :=
  (p ← setValue_floatArray 5%N 5 (Scene.fresh "u_weights");
   p ← clearValue p;
   p ← setValue_float Float32.one p;
   bind effect p) Scene.world.

(** The dynamic sibling: set a single Vector3, then clear. *)
Definition vector_then_clear : outcome MaterialParameter :=
  (p ← setValue_Vector3 (temporary {| Vector3.x := Scene.f 1; Vector3.y := Scene.f 2;
                                      Vector3.z := Scene.f 3 |}) (Scene.fresh "u_weights");
   clearValue p) Scene.world.

End Borrowed.

Module Overwrite.

(** Cloning a scalar Float parameter into the parameter that holds the
    sampler at address 7. *)
Definition source : MaterialParameter :=
  with_value FLOAT 1 false (AsFloat Float32.one) (Scene.fresh "u_alpha").

Definition clone_over_sampler : outcome MaterialParameter :=
  cloneInto source Sampled.param Sampled.world.

(** The sibling path: setting the same scalar directly. *)
Definition set_over_sampler : outcome MaterialParameter :=
  setValue_float Float32.one Sampled.param Sampled.world.

(** A parameter that owns a single Vector3, and the clone of the scalar
    into it. *)
Definition owner : outcome MaterialParameter :=
  setValue_Vector3 (temporary {| Vector3.x := Scene.f 1; Vector3.y := Scene.f 2;
                                 Vector3.z := Scene.f 3 |}) (Scene.fresh "u_position") Scene.world.

Definition clone_over_vector : outcome MaterialParameter :=
  match owner with
  | Done target w => cloneInto source target w
  | Abort f w => Abort f w
  end.

Definition set_over_vector : outcome MaterialParameter :=
  match owner with
  | Done target w => setValue_float Float32.one target w
  | Abort f w => Abort f w
  end.

End Overwrite.

Module Stale.

(** A parameter named [u_diffuseColor], set to a scalar and bound to
    [Scene.effect], which exposes that uniform; then cloned into a fresh
    parameter named [lightColor], a name the effect does not expose. *)
Definition setup : outcome MaterialParameter :=
  (source ← setValue_float Float32.one (Scene.fresh "u_diffuseColor");
   source ← bind Scene.effect source;
   cloneInto source (Scene.fresh "lightColor")) Scene.world.

Definition rebind : outcome MaterialParameter :=
  match setup with
  | Done clone w => bind Scene.effect clone w
  | Abort f w => Abort f w
  end.

(** A fresh parameter of that name, set to the scalar, never bound. *)
Definition unbound : MaterialParameter :=
  with_value FLOAT 1 false (AsFloat Float32.one) (Scene.fresh "lightColor").

End Stale.

(** ** Blending, as a function on channel lists *)

(** What the loop of [applyAnimationValue] leaves in an array: the first
    [n] channels blended toward the input, the rest untouched. *)
Definition blend_floats (blendWeight : float) (data value : list float) (n : nat)
    : list float :=
  zip_with (Curve.lerp blendWeight) (take n data) (take n value) ++ drop n data.

(** One integer channel: through [float], blended, and converted back. *)
Definition blend_int (blendWeight : float) (z : Z) (b : float) : option Z :=
  Float32.to_int (Curve.lerp blendWeight (Float32.of_int z) b).

(** The blend weight satisfies the asserted precondition. *)
Definition weight_ok (blendWeight : float) : bool :=
  Float32.leb Float32.zero blendWeight && Float32.leb blendWeight Float32.one.

(** [_count] holds an [unsigned int], and the channels of the cell can be
    counted in one. *)
Definition count_in_range (p : MaterialParameter) : Prop :=
  0 ≤ _count p ∧ _count p * componentsPerElement (_type p) ≤ UINT_MAX.

(** The buffer after its first [m] channels were overwritten from [src]. *)
Definition copied (src v0 : list float) (m : nat) : list float :=
  take m src ++ drop m v0.

(** ** Per-channel relations used in the statements on blending *)

(** [a'] is the number [a]: it compares equal to it, and it is the very
    same float unless [a] is the negative zero. *)
Definition kept (a a' : float) : Prop :=
  Float32.eqb a' a = true ∧ (Float32.is_neg_zero a = false → a' = a).




(** The integer converts to [float] without rounding. *)
Definition small_int (z : Z) : Prop := Z.abs z < 2 ^ 24.

Module Blend.

Definition two_and_a_half : float := S754_finite false 10485760 (-22).
Definition two_and_three_quarters : float := S754_finite false 11534336 (-22).

(** An Int cell holding 0. *)
Definition int_zero : MaterialParameter :=
  with_value INT 1 false (AsInt 0) (Scene.fresh "u_level").

(** An Int cell holding [2^24 + 1]. *)
Definition int_large : MaterialParameter :=
  with_value INT 1 false (AsInt 16777217) (Scene.fresh "u_level").

(** A Float cell holding [2^25]. *)
Definition float_large : MaterialParameter :=
  with_value FLOAT 1 false (AsFloat (Float32.of_int 33554432)) (Scene.fresh "u_gain").

(** The largest finite float, and a Float cell holding it. *)
Definition max_float : float := S754_finite false 16777215 104.
Definition float_max : MaterialParameter :=
  with_value FLOAT 1 false (AsFloat max_float) (Scene.fresh "u_gain").

(** A Float cell holding positive infinity. *)
Definition float_inf : MaterialParameter :=
  with_value FLOAT 1 false (AsFloat (S754_infinity false)) (Scene.fresh "u_gain").

(** A single Vector3 (1, 2, 3), as [setValue] leaves it. *)
Definition vector3 : outcome MaterialParameter :=
  setValue_Vector3 (temporary {| Vector3.x := Scene.f 1; Vector3.y := Scene.f 2;
                                 Vector3.z := Scene.f 3 |}) (Scene.fresh "u_position") Scene.world.

Definition vector3_param : MaterialParameter :=
  with_value VECTOR3 1 true (AsPointer 8%N) (Scene.fresh "u_position").

Definition vector3_world : World :=
  {| heap := <[8%N := FloatArray NewArray [Scene.f 1; Scene.f 2; Scene.f 3]]>
               (heap Scene.world);
     trace := [EvNewArray 8%N 3] |}.

(** The Int array parameter over the caller's three integers. *)
Definition int_array : MaterialParameter :=
  with_value INT 3 false (AsPointer 6%N) (Scene.fresh "u_levels").

(** Blending a cell with one scalar input channel. *)
Definition blend1 (p : MaterialParameter) (input weight : float) : outcome MaterialParameter :=
  setAnimationPropertyValue ANIMATE_UNIFORM [input] weight p Scene.world.

(** Reading a cell into a one-channel buffer, then blending it back with
    weight 1. *)
Definition read_blend1 (p : MaterialParameter) : outcome MaterialParameter :=
  (value ← getAnimationPropertyValue ANIMATE_UNIFORM [Float32.zero] p;
   setAnimationPropertyValue ANIMATE_UNIFORM value Float32.one p) Scene.world.

End Blend.

(** The stored channels after a computation that returned a parameter. *)
Definition float_channels_of (o : outcome MaterialParameter) : option (list float) :=
  match o with
  | Done p w => float_channels p w
  | Abort _ _ => None
  end.

Definition int_channels_of (o : outcome MaterialParameter) : option (list Z) :=
  match o with
  | Done p w => int_channels p w
  | Abort _ _ => None
  end.

Module Scenario.

Definition half : float := S754_finite false 8388608 (-24).
Definition three_and_a_half : float := S754_finite false 14680064 (-22).
Definition four_and_a_half : float := S754_finite false 9437184 (-21).

(** Set Vector3(1, 2, 3), read the channels, blend with input (4, 5, 6) at
    weight one half. *)
Definition read : outcome AnimationValue.t :=
  match Blend.vector3 with
  | Done p w => getAnimationPropertyValue ANIMATE_UNIFORM (replicate 3 Float32.zero) p w
  | Abort f w => Abort f w
  end.

Definition blend : outcome MaterialParameter :=
  match Blend.vector3 with
  | Done p w =>
      setAnimationPropertyValue ANIMATE_UNIFORM [Scene.f 4; Scene.f 5; Scene.f 6] half p w
  | Abort f w => Abort f w
  end.

(** Setting a single matrix twice. *)
Definition identity : Matrix.t :=
  {| Matrix.m := [Scene.f 1; Scene.f 0; Scene.f 0; Scene.f 0;
                  Scene.f 0; Scene.f 1; Scene.f 0; Scene.f 0;
                  Scene.f 0; Scene.f 0; Scene.f 1; Scene.f 0;
                  Scene.f 0; Scene.f 0; Scene.f 0; Scene.f 1] |}.

Definition matrix_twice : outcome MaterialParameter :=
  (p ← setValue_Matrix (temporary identity) (Scene.fresh "u_worldMatrix");
   setValue_Matrix (temporary identity) p) Scene.world.

(** Blending the Int array (10, 20, 30) toward (10.5, 25.75, -3.5) with
    weight 1. *)
Definition ten_and_a_half : float := S754_finite false 11010048 (-20).
Definition twenty_five_and_three_quarters : float := S754_finite false 13500416 (-19).
Definition minus_three_and_a_half : float := S754_finite true 14680064 (-22).

Definition blend_int_array : outcome MaterialParameter :=
  setAnimationPropertyValue ANIMATE_UNIFORM
    [ten_and_a_half; twenty_five_and_three_quarters; minus_three_and_a_half]
    Float32.one Blend.int_array Scene.world.

End Scenario.

(** The blend of one integer channel is defined: the blended float is
    finite and, truncated toward zero, fits [int]. *)
Definition int_blend_defined (blendWeight : float) (z : Z) (b : float) : Prop :=
  ∃ q, Float32.to_Q (Curve.lerp blendWeight (Float32.of_int z) b) = Some q ∧
       Float32.INT_MIN ≤ Float32.Qtrunc q ≤ Float32.INT_MAX.

(** ** The life of the object: construction, calls, destruction *)

(** The constructor as callers see it: [name] may be a null pointer, which
    [_name(name ? name : "")] turns into the empty string. *)
Definition MaterialParameter_ctor (name : option string) : M MaterialParameter :=
  MaterialParameter_new (default "" name).

(** The destructor is [clearValue()]. *)
Definition MaterialParameter_dtor (p : MaterialParameter) : M unit :=
  clearValue p ;; mret tt.

Definition getName (p : MaterialParameter) : string := _name p.

(** The number of floats [new float[n]] reserves for a single value. *)
Definition floats_per_value (t : ParamType) : nat :=
  match t with
  | VECTOR2 => 2
  | VECTOR3 => 3
  | VECTOR4 => 4
  | MATRIX => 16
  | _ => 0
  end.

Module Client.

(** A call a client makes on a parameter: a value setter, [clearValue], or
    [bind].  Vectors and matrices are objects of the caller's. *)
Inductive call :=
| clear
| set_float (value : float)
| set_int (value : Z)
| set_floats (values : addr) (count : Z)
| set_ints (values : addr) (count : Z)
| set_Vector2 (value : Vector2.t)
| set_Vector2s (values : addr) (count : Z)
| set_Vector3 (value : Vector3.t)
| set_Vector3s (values : addr) (count : Z)
| set_Vector4 (value : Vector4.t)
| set_Vector4s (values : addr) (count : Z)
| set_Matrix (value : Matrix.t)
| set_Matrices (values : addr) (count : Z)
| set_Sampler (sampler : addr)
| bind_to (effect : Effect).

Definition run (c : call) (p : MaterialParameter) : M MaterialParameter :=
  match c with
  | clear => clearValue p
  | set_float value => setValue_float value p
  | set_int value => setValue_int value p
  | set_floats values count => setValue_floatArray values count p
  | set_ints values count => setValue_intArray values count p
  | set_Vector2 value => setValue_Vector2 (temporary value) p
  | set_Vector2s values count => setValue_Vector2Array values count p
  | set_Vector3 value => setValue_Vector3 (temporary value) p
  | set_Vector3s values count => setValue_Vector3Array values count p
  | set_Vector4 value => setValue_Vector4 (temporary value) p
  | set_Vector4s values count => setValue_Vector4Array values count p
  | set_Matrix value => setValue_Matrix (temporary value) p
  | set_Matrices values count => setValue_MatrixArray values count p
  | set_Sampler sampler => setValue_Sampler sampler p
  | bind_to effect => bind effect p
  end.

Fixpoint run_all (cs : list call) (p : MaterialParameter) : M MaterialParameter :=
  match cs with
  | [] => mret p
  | c :: cs => p ← run c p; run_all cs p
  end.

End Client.

(** What a parameter holds, relative to the heap [h0] it found: nothing, a
    scalar, a pointer it borrowed, an array of its own that is not in [h0],
    or one more reference to a sampler of [h0]. *)
Inductive holds (h0 : gmap addr block) (p : MaterialParameter) (w : World) : Prop :=
| holds_nothing :
    _type p = NONE → _dynamic p = false → _value p = AllZero → heap w = h0 →
    holds h0 p w
| holds_float f :
    _type p = FLOAT → _dynamic p = false → _value p = AsFloat f → heap w = h0 →
    holds h0 p w
| holds_int i :
    _type p = INT → _dynamic p = false → _value p = AsInt i → heap w = h0 →
    holds h0 p w
| holds_borrowed a :
    _type p ∈ [FLOAT; INT; VECTOR2; VECTOR3; VECTOR4; MATRIX] →
    _dynamic p = false → _value p = AsPointer a → heap w = h0 →
    holds h0 p w
| holds_owned a data :
    _type p ∈ [VECTOR2; VECTOR3; VECTOR4; MATRIX] →
    _dynamic p = true → _count p = 1 → _value p = AsPointer a →
    a ≠ NULL → h0 !! a = None →
    heap w = <[a := FloatArray NewArray data]> h0 →
    length data = floats_per_value (_type p) →
    holds h0 p w
| holds_sampler a obj n :
    _type p = SAMPLER → _dynamic p = false → _value p = AsPointer a →
    a ≠ NULL → h0 !! a = Some (RefCounted obj n) →
    heap w = <[a := RefCounted obj (n + 1)%positive]> h0 →
    holds h0 p w.

Module Life.

(** A client that sets a vector, a sampler, a matrix twice, binds, and
    ends on a borrowed array; and one that ends on the matrix. *)
Definition position : Vector3.t :=
  {| Vector3.x := Scene.f 1; Vector3.y := Scene.f 2; Vector3.z := Scene.f 3 |}.

Definition to_matrix : list Client.call :=
  [ Client.set_Vector3 position; Client.set_Sampler 7%N;
    Client.set_Matrix Scenario.identity; Client.set_Matrix Scenario.identity;
    Client.bind_to Scene.effect ].

Definition to_array : list Client.call :=
  to_matrix ++ [ Client.set_floats 5%N 6; Client.clear; Client.set_Sampler 7%N ].

Definition run (cs : list Client.call) : outcome MaterialParameter :=
  (p ← MaterialParameter_ctor (Some "u_diffuseColor"); Client.run_all cs p) Scene.world.

End Life.

Module Textured.

(** A second matrix: the identity scaled by two. *)
Definition scaled : Matrix.t :=
  {| Matrix.m := [Scene.f 2; Scene.f 0; Scene.f 0; Scene.f 0;
                  Scene.f 0; Scene.f 2; Scene.f 0; Scene.f 0;
                  Scene.f 0; Scene.f 0; Scene.f 2; Scene.f 0;
                  Scene.f 0; Scene.f 0; Scene.f 0; Scene.f 1] |}.

(** A texture loader that finds the file and creates its sampler, with
    the creator as its one owner; and one that finds nothing. *)
Definition found : string → bool → M addr := λ _ _, new_ref SamplerObject.
Definition missing : string → bool → M addr := λ _ _, mret NULL.

End Textured.

Module Matrices.

(** A world in which the caller also owns an array of two matrices at
    address 9, and a parameter that owns the identity matrix at address 8. *)
Definition world : World :=
  {| heap := <[8%N := FloatArray NewArray (Matrix.m Scenario.identity)]>
               (<[9%N := FloatArray External (replicate 32 (Scene.f 0))]> (heap Scene.world));
     trace := [EvNewArray 8%N 16] |}.

Definition single : MaterialParameter :=
  with_value MATRIX 1 true (AsPointer 8%N) (Scene.fresh "u_worldMatrix").

(** A parameter that borrows the caller's two matrices. *)
Definition borrowed : MaterialParameter :=
  with_value MATRIX 2 false (AsPointer 9%N) (Scene.fresh "u_matrixPalette").

(** A parameter that owns a single Vector2 at address 10. *)
Definition vector2 : MaterialParameter :=
  with_value VECTOR2 1 true (AsPointer 10%N) (Scene.fresh "u_offset").

Definition vector2_world : World :=
  {| heap := <[10%N := FloatArray NewArray [Scene.f 1; Scene.f 2]]> (heap world);
     trace := trace world ++ [EvNewArray 10%N 2] |}.

End Matrices.

Module Shared.

(** The parameter that holds the sampler at address 7 is cloned into a
    new parameter. *)
Definition clone : outcome MaterialParameter :=
  cloneInto Sampled.param (Scene.fresh "u_detailTexture") Sampled.world.

End Shared.

Module Members.

(** Every call of the public interface that acts on a parameter: the
    calls of [Client.call], and the node binding, the animation read and
    blend, being the target of a clone, and the texture setter. *)
Inductive call :=
| of_client (c : Client.call)
| bind_node (node : addr) (binding : string)
| read (propertyId : Z) (value : AnimationValue.t)
| blend (propertyId : Z) (value : AnimationValue.t) (blendWeight : float)
| clone_of (source : MaterialParameter)
| set_texture (create : string → bool → M addr) (texturePath : option string)
    (generateMipmaps : bool).

Definition run (c : call) (p : MaterialParameter) : M MaterialParameter :=
  match c with
  | of_client c => Client.run c p
  | bind_node node binding => bindValue node binding p
  | read propertyId value => getAnimationPropertyValue propertyId value p ;; mret p
  | blend propertyId value blendWeight =>
      setAnimationPropertyValue propertyId value blendWeight p
  | clone_of source => cloneInto source p
  | set_texture create texturePath generateMipmaps =>
      r ← setValue_texturePath create texturePath generateMipmaps p; mret r.2
  end.

Fixpoint run_all (cs : list call) (p : MaterialParameter) : M MaterialParameter :=
  match cs with
  | [] => mret p
  | c :: cs => p ← run c p; run_all cs p
  end.

(** A parameter that is set, bound to a node, blended, cloned over and
    given a texture. *)
Definition busy : list call :=
  [ of_client (Client.set_Vector3 Life.position);
    blend ANIMATE_UNIFORM [Scene.f 4; Scene.f 5; Scene.f 6] Scenario.half;
    of_client (Client.bind_to Scene.effect);
    bind_node 9%N "&Node::getScaleX";
    clone_of Sampled.param;
    set_texture Textured.found (Some "res/brick.png") true ].

End Members.

Module Held.

(** A parameter given a texture by path, so that it is the only owner of
    the sampler, is then handed the sampler it already holds. *)
Definition textured : outcome (addr * MaterialParameter) :=
  setValue_texturePath Textured.found (Some "res/brick.png") true
    (Scene.fresh "u_diffuseTexture") Scene.world.

Definition set_again : outcome MaterialParameter :=
  match textured with
  | Done (sampler, p) w => setValue_Sampler sampler p w
  | Abort f w => Abort f w
  end.

End Held.

(** ** What a computation leaves alone *)

(** [m] relates the world it ends in, returning or not, to the world it
    starts in. *)
Definition keeps {A : Type} (R : World → World → Prop) (m : M A) : Prop :=
  ∀ w, R w (world_of (m w)).

(** [m] never changes the world. *)
Definition pure {A : Type} (m : M A) : Prop := keeps eq m.

(** Whenever [m] returns, its result satisfies [P]. *)
Definition post {A : Type} (P : A → Prop) (m : M A) : Prop :=
  ∀ w a w', m w = Done a w' → P a.

(** Two blocks of the same kind and origin, an array of the same length or
    an object with the same owners. *)
Definition same_shape (b b' : block) : Prop :=
  match b, b' with
  | FloatArray o d, FloatArray o' d' => o = o' ∧ length d = length d'
  | IntArray o d, IntArray o' d' => o = o' ∧ length d = length d'
  | RefCounted obj n, RefCounted obj' n' => obj = obj' ∧ n = n'
  | _, _ => False
  end.

(** [w'] differs from [w] at most in the contents of the array at [a]:
    no event was emitted, every other block is what it was, and the block
    at [a], if any, has kept its shape. *)
Definition written_in_place (a : addr) (w w' : World) : Prop :=
  trace w' = trace w ∧
  (∀ b, b ≠ a → heap w' !! b = heap w !! b) ∧
  match heap w !! a, heap w' !! a with
  | Some b, Some b' => same_shape b b'
  | None, None => True
  | _, _ => False
  end.

(** ** Binding: what the statements need *)

(** The uniforms an effect hands out refer back to it, which is what the
    test [_uniform->getEffect() != effect] relies on. *)
Definition owns_its_uniforms (effect : Effect) : Prop :=
  ∀ name u, getUniform effect name = Some u → uniform_effect u = effect_addr effect.

Module Bound.

(** A newly constructed parameter named after the uniform of
    [Scene.effect], after one call, bound to that effect. *)
Definition uniform : Uniform :=
  {| uniform_name := "u_diffuseColor"; uniform_effect := 100%N |}.

Definition after (c : Client.call) : outcome MaterialParameter :=
  (p ← MaterialParameter_ctor (Some "u_diffuseColor");
   p ← Client.run c p;
   bind Scene.effect p) Scene.world.

Definition scalar : MaterialParameter :=
  with_uniform (Some uniform)
    (with_value FLOAT 1 false (AsFloat Float32.one) (Scene.fresh "u_diffuseColor")).

End Bound.

(** Construct a parameter called [name], make one call on it, bind it. *)
Definition set_and_bind (effect : Effect) (name : string) (c : Client.call)
    : M MaterialParameter :=
  p ← MaterialParameter_ctor (Some name);
  p ← Client.run c p;
  bind effect p.

(** ** The name *)

(** The parameter is called [nm]. *)
Definition named (nm : string) (p : MaterialParameter) : Prop := _name p = nm.

(** * Properties *)

(** ** Running computations *)

Arguments Curve.lerp : simpl never.
Arguments Float32.to_int : simpl never.
Arguments Float32.of_int : simpl never.
Arguments Float32.add : simpl never.
Arguments Float32.sub : simpl never.
Arguments Float32.mul : simpl never.

Lemma bind_Done {A B : Type} (m : M A) (k : A → M B) (w w' : World) (a : A) :
  m w = Done a w' → (x ← m; k x) w = k a w'.
Proof. intros H. unfold mbind, M_bind. by rewrite H. Qed.

Lemma bind_ret {A B : Type} (a : A) (k : A → M B) (w : World) :
  (x ← mret a; k x) w = k a w.
Proof. reflexivity. Qed.

Ltac unfold_M :=
  repeat (progress (unfold mbind, M_bind, mret, M_ret, abort, emit,
                      GP_ASSERT, GP_ERROR, GP_WARN in *; simpl in *)).

(** ** Tear-down *)

(** [clearValue] returns on every cell whose payload it can tear down, and
    then leaves the [cleared] object after at most one release. *)
Lemma clearValue_effect (p : MaterialParameter) (w : World) :
  owns_payload p w = true →
  ∃ w', clearValue p w = Done (cleared p) w' ∧ teardown p w w'.
Proof.
  unfold owns_payload, clearValue, cleared.
  destruct p as [t n d nm u v]; simpl.
  unfold SAFE_DELETE_ARRAY_float, SAFE_DELETE_ARRAY_int, SAFE_RELEASE,
      floatPtrValue, intPtrValue, method, samplerValue, pointerValue,
      delete_float_array, delete_int_array, release.
  destruct d, t, v as [| | |a]; simpl; intros H; try discriminate H;
    unfold_M; try (eexists; split; [reflexivity|by constructor 1]);
    repeat case_decide; subst; simpl in *;
    try (eexists; split; [reflexivity|by constructor 1]);
    rewrite ?bool_decide_eq_false_2 in H by done; simpl in H;
    repeat match goal with
           | |- context [heap w !! ?a] => destruct (heap w !! a) as [[[]|[]|]|] eqn:?
           end;
    simpl in *; try discriminate H; try congruence;
    (eexists; split; [reflexivity|]);
    first [ by eapply teardown_delete; eauto; simpl; rewrite ?Heqo; eauto
          | eapply teardown_release; eauto; simpl; by case_decide ].
Qed.

Lemma fresh_is_constructed (name : string) (w : World) :
  MaterialParameter_new name w = Done (Scene.fresh name) w.
Proof. reflexivity. Qed.

(** ** Channel count *)

(** C2, as stated, fails: the product is computed on [unsigned int], so a
    Vector2 parameter with [2^31] elements reports 0 channels. *)
Lemma componentCount_wraps :
  1 ≤ _count Cases.huge_vector2 ≤ UINT_MAX ∧
  getAnimationPropertyComponentCount ANIMATE_UNIFORM Cases.huge_vector2 = 0 ∧
  getAnimationPropertyComponentCount ANIMATE_UNIFORM Cases.huge_vector2
    ≠ _count Cases.huge_vector2 * componentsPerElement (_type Cases.huge_vector2).
Proof. vm_compute. repeat split; congruence. Qed.

(** C2 (amended): for the uniform-value property id and a count [n] with
    [1 ≤ n ≤ UINT_MAX], the reported channel count is
    [n * componentsPerElement(K)] reduced modulo [2^32] for the kinds Float,
    Int, Vector2, Vector3, Vector4, hence equal to the product whenever the
    product fits [unsigned int]; it is 0 for Matrix, Sampler, Method and
    None. *)
Theorem componentCount_spec (p : MaterialParameter) :
  1 ≤ _count p ≤ UINT_MAX →
  (animatable (_type p) = true →
     getAnimationPropertyComponentCount ANIMATE_UNIFORM p
       = (_count p * componentsPerElement (_type p)) mod 2 ^ 32 ∧
     (_count p * componentsPerElement (_type p) ≤ UINT_MAX →
      getAnimationPropertyComponentCount ANIMATE_UNIFORM p
        = _count p * componentsPerElement (_type p))) ∧
  (animatable (_type p) = false →
     getAnimationPropertyComponentCount ANIMATE_UNIFORM p = 0).
Proof.
  unfold UINT_MAX. intros Hn.
  unfold getAnimationPropertyComponentCount, uint. simpl.
  destruct (_type p); simpl; split; try discriminate; try done; intros _;
    rewrite ?Z.mul_1_r, ?(Z.mul_comm (_count p));
    (split; [try reflexivity; symmetry; apply Z.mod_small; lia
            | intros; try reflexivity; apply Z.mod_small; lia]).
Qed.

Lemma componentCount_spec_witness :
  1 ≤ _count Cases.two_vector3 ≤ UINT_MAX ∧
  getAnimationPropertyComponentCount ANIMATE_UNIFORM Cases.two_vector3 = 6.
Proof.
  assert (H : 1 ≤ _count Cases.two_vector3 ≤ UINT_MAX) by (vm_compute; split; congruence).
  split; [exact H|].
  destruct (componentCount_spec Cases.two_vector3 H) as [Ha _].
  destruct (Ha eq_refl) as [_ Hb].
  rewrite Hb; [reflexivity | vm_compute; congruence].
Defined.

(** ** Node accessor bindings *)

Lemma fresh_addr_spec (h : gmap addr block) :
  fresh_addr h ≠ NULL ∧ h !! fresh_addr h = None.
Proof.
  unfold fresh_addr.
  pose proof (is_fresh ({[NULL]} ∪ dom h)) as Hf.
  split.
  - intros E. apply Hf. rewrite E. set_solver.
  - apply not_elem_of_dom. set_solver.
Qed.

(** A name outside the table falls through the whole comparison chain. *)
Lemma bindValue_unknown (node : addr) (binding : string) (p : MaterialParameter)
    (w : World) :
  binding ∉ binding_table →
  bindValue node binding p w
    = Abort (FatalError ("Unsupported material parameter binding '" +:+ binding +:+ "'.")) w.
Proof.
  unfold binding_table. intros H.
  repeat (apply not_elem_of_cons in H as [? H]).
  unfold bindValue.
  repeat match goal with
         | Hne : binding ≠ ?s |- context [String.eqb binding ?s] =>
             rewrite (proj2 (String.eqb_neq binding s) Hne)
         end.
  reflexivity.
Qed.

(** C8, as stated, fails on its first half: the table spells its keys with
    the ["&Node::"] prefix, so the bare accessor name is not in it and is
    fatal like any other unknown name. *)
Lemma bindValue_bare_name_is_fatal :
  failure_of (bindValue 9%N "getTranslationWorld" (Scene.fresh "u_worldPos") Scene.world)
    = Some (FatalError "Unsupported material parameter binding 'getTranslationWorld'.").
Proof. reflexivity. Qed.

(** C8 (amended): requesting ["&Node::getTranslationWorld"] succeeds: the
    prior value is cleared and the cell becomes a dynamic [METHOD] cell
    holding a new binding object (one owner) for the node and that accessor,
    bound at Vector3, that is, with 3 channels.  Requesting any name that is
    not in the binding table, the bare ["getTranslationWorld"] and
    ["bogusAccessor"] among them, is a fatal error that leaves the world
    unchanged. *)
Theorem bindValue_table (node : addr) (p : MaterialParameter) (w : World) :
  owns_payload p w = true →
  (∃ a w',
      bindValue node "&Node::getTranslationWorld" p w
        = Done (with_value METHOD (_count (cleared p)) true (AsPointer a) (cleared p)) w' ∧
      a ≠ NULL ∧
      heap w' !! a
        = Some (RefCounted (MethodValueBinding node Vector3_ getTranslationWorld) 1) ∧
      binding_channels Vector3_ = 3%nat) ∧
  (∀ binding, binding ∉ binding_table →
      bindValue node binding p w
        = Abort (FatalError ("Unsupported material parameter binding '" +:+ binding +:+ "'."))
            w) ∧
  ("getTranslationWorld" ∉ binding_table) ∧ ("bogusAccessor" ∉ binding_table).
Proof.
  intros Hp. split; [|split].
  - destruct (clearValue_effect p w Hp) as (w1 & Hc & _).
    exists (fresh_addr (heap w1)). eexists.
    split; [|split; [|split]].
    + unfold bindValue. simpl. unfold bindValue_method.
      rewrite (bind_Done _ _ _ _ _ Hc). reflexivity.
    + apply fresh_addr_spec.
    + simpl. apply lookup_insert_eq.
    + reflexivity.
  - intros binding. apply bindValue_unknown.
  - split; unfold binding_table; intros H;
      repeat (apply elem_of_cons in H as [H|H]; [discriminate H|]);
      by apply elem_of_nil in H.
Qed.

Lemma bindValue_table_witness :
  owns_payload (Scene.fresh "u_worldPos") Scene.world = true ∧
  _type <$> result (bindValue 9%N "&Node::getTranslationWorld"
                      (Scene.fresh "u_worldPos") Scene.world) = Some METHOD ∧
  failure_of (bindValue 9%N "bogusAccessor" (Scene.fresh "u_worldPos") Scene.world)
    = Some (FatalError "Unsupported material parameter binding 'bogusAccessor'.").
Proof.
  assert (H : owns_payload (Scene.fresh "u_worldPos") Scene.world = true) by reflexivity.
  split; [exact H|].
  destruct (bindValue_table 9%N (Scene.fresh "u_worldPos") Scene.world H)
    as [(a & w' & Hb & _) [Hu [_ Hbogus]]].
  split.
  - rewrite Hb. reflexivity.
  - rewrite (Hu _ Hbogus). reflexivity.
Defined.

(** ** Setting a null sampler *)

Lemma Sampled_set : Sampled.set = Done Sampled.param Sampled.world.
Proof. reflexivity. Qed.

(** [clearValue] gives back exactly what the cell owes: it deletes the
    array, or releases the reference once, or leaves the world alone. *)
Lemma clearValue_gives_back (p : MaterialParameter) (w : World) :
  owns_payload p w = true →
  ∃ w',
    clearValue p w = Done (cleared p) w' ∧
    match owes p with
    | OwesNothing => w' = w
    | OwesArray a =>
        is_owned_array <$> heap w !! a = Some true ∧
        w' = {| heap := delete a (heap w); trace := trace w ++ [EvDeleteArray a] |}
    | OwesReference a =>
        ∃ obj n,
          heap w !! a = Some (RefCounted obj n) ∧
          w' = {| heap := if decide (n = 1%positive) then delete a (heap w)
                          else <[a := RefCounted obj (Pos.pred n)]> (heap w);
                  trace := trace w ++ [EvRelease a] |}
    end.
Proof.
  unfold owns_payload, clearValue, cleared, owes.
  destruct p as [t n d nm u v]; simpl.
  unfold SAFE_DELETE_ARRAY_float, SAFE_DELETE_ARRAY_int, SAFE_RELEASE,
      floatPtrValue, intPtrValue, method, samplerValue, pointerValue,
      delete_float_array, delete_int_array, release.
  destruct d, t, v as [| | |a]; simpl; intros H; try discriminate H;
    unfold_M; try (eexists; split; reflexivity);
    destruct (decide (a = NULL)) as [->|Ha]; simpl in *;
    try (eexists; split; reflexivity);
    rewrite ?bool_decide_eq_false_2 in H by done; simpl in H;
    destruct (heap w !! a) as [[[]|[]|obj k]|] eqn:Hl;
    simpl in *; try discriminate H;
    (eexists; split; [reflexivity|]); eauto.
Qed.

(** C10, as stated, fails for a cell that holds a sampler: clearing the
    prior value releases it, so a reference count does change.  The
    parameter that [setValue] with the sampler at address 7 leaves, whose
    sampler has two owners, is handed a null sampler: the call returns,
    the cell has kind [NONE], and the sampler has one owner. *)
Lemma null_sampler_releases_held_sampler :
  Sampled.set = Done Sampled.param Sampled.world ∧
  refCount 7%N Sampled.world = Some 2%positive ∧
  _type <$> result (setValue_Sampler NULL Sampled.param Sampled.world) = Some NONE ∧
  refCount 7%N (world_of (setValue_Sampler NULL Sampled.param Sampled.world))
    = Some 1%positive ∧
  trace (world_of (setValue_Sampler NULL Sampled.param Sampled.world))
    = trace Sampled.world ++ [EvRelease 7%N].
Proof. vm_compute. repeat split. Qed.

(** C10 (amended): [setValue] with a null sampler does exactly what
    [clearValue] does and nothing more.  On every cell whose prior payload
    can be torn down it returns and leaves the cell with kind [NONE], a
    zeroed payload and no ownership flag (no sampler is stored), its name
    and cached uniform kept.  The prior value is given back: an array the
    cell allocated is deleted; the reference of a sampler cell or of a
    method binding is released once, which lowers the count of that object
    by one or destroys it with its last owner; a scalar, a borrowed array
    or a null pointer leaves the world as it was.  No [addRef] is performed,
    and the count of every object other than the released one is what it
    was. *)
Theorem setValue_null_sampler (p : MaterialParameter) (w : World) :
  owns_payload p w = true →
  setValue_Sampler NULL p w = clearValue p w ∧
  ∃ p' w',
    setValue_Sampler NULL p w = Done p' w' ∧
    _type p' = NONE ∧ _value p' = AllZero ∧ _dynamic p' = false ∧
    _name p' = _name p ∧ _uniform p' = _uniform p ∧
    match owes p with
    | OwesNothing => w' = w
    | OwesArray a =>
        is_owned_array <$> heap w !! a = Some true ∧
        w' = {| heap := delete a (heap w); trace := trace w ++ [EvDeleteArray a] |}
    | OwesReference a =>
        ∃ obj n,
          heap w !! a = Some (RefCounted obj n) ∧
          w' = {| heap := if decide (n = 1%positive) then delete a (heap w)
                          else <[a := RefCounted obj (Pos.pred n)]> (heap w);
                  trace := trace w ++ [EvRelease a] |} ∧
          refCount a w' = (if decide (n = 1%positive) then None else Some (Pos.pred n))
    end ∧
    occurrences is_add_ref (trace w') = occurrences is_add_ref (trace w) ∧
    (∀ b, owes p ≠ OwesReference b → refCount b w' = refCount b w).
Proof.
  intros Hp.
  destruct (clearValue_gives_back p w Hp) as (w' & Hc & Hw).
  assert (Hs : setValue_Sampler NULL p w = Done (cleared p) w').
  { unfold setValue_Sampler. rewrite (bind_Done _ _ _ _ _ Hc). reflexivity. }
  split; [by rewrite Hs, Hc|].
  exists (cleared p), w'. do 6 (split; [done|]).
  unfold occurrences, refCount.
  destruct (owes p) as [|a|a].
  - subst w'. done.
  - destruct Hw as [Ho ->]. cbn [heap trace].
    split; [done|]. split.
    + by rewrite filter_app, length_app, Nat.add_0_r.
    + intros b _. destruct (decide (b = a)) as [->|Hb].
      * rewrite lookup_delete_eq.
        by destruct (heap w !! a) as [[[]|[]|]|].
      * by rewrite lookup_delete_ne.
  - destruct Hw as (obj & n & Hl & ->). cbn [heap trace].
    split; [|split].
    + exists obj, n. split; [done|]. split; [done|].
      case_decide.
      * by rewrite lookup_delete_eq.
      * by rewrite lookup_insert_eq.
    + by rewrite filter_app, length_app, Nat.add_0_r.
    + intros b Hb. assert (b ≠ a) by congruence.
      case_decide.
      * by rewrite lookup_delete_ne.
      * by rewrite lookup_insert_ne.
Qed.

Lemma setValue_null_sampler_witness :
  owns_payload Sampled.param Sampled.world = true ∧
  setValue_Sampler NULL Sampled.param Sampled.world
    = Done (cleared Sampled.param)
        {| heap := <[7%N := RefCounted SamplerObject 1]> (heap Sampled.world);
           trace := trace Sampled.world ++ [EvRelease 7%N] |}.
Proof.
  assert (H : owns_payload Sampled.param Sampled.world = true) by reflexivity.
  split; [exact H|].
  destruct (setValue_null_sampler Sampled.param Sampled.world H)
    as [Hc (p' & w' & Hs & _ & _ & _ & _ & _ & Hw & _)].
  destruct Hw as (obj & n & Hl & -> & _).
  assert (Hl' : Some (RefCounted SamplerObject 2) = Some (RefCounted obj n)) by exact Hl.
  injection Hl' as <- <-.
  rewrite Hc. reflexivity.
Defined.

(** ** Clearing after a borrowed array *)

(** After a borrowed array is set, [clearValue] takes the branch that does
    not touch [_count]. *)
Lemma borrowed_array_then_clear (values : addr) (count : Z) (p : MaterialParameter)
    (w : World) :
  owns_payload p w = true →
  ∃ p' w',
    (p ← setValue_floatArray values count p; clearValue p) w = Done p' w' ∧
    _type p' = NONE ∧ _value p' = AllZero ∧ _count p' = count.
Proof.
  intros Hp. destruct (clearValue_effect p w Hp) as (w' & Hc & _).
  exists (cleared (with_value FLOAT count false (AsPointer values) (cleared p))), w'.
  split; [|done].
  unfold setValue_floatArray.
  erewrite bind_Done; [|by erewrite bind_Done; [|exact Hc]].
  reflexivity.
Qed.

(** C3 on the code: a borrowed array of 5 floats is set on a fresh
    parameter and [clearValue] is called.  The cell is left with kind
    [NONE] and a zeroed payload, but [_count] is still 5, where the dynamic
    branch of the same function (a single Vector3) resets it to 1 and
    deletes the array it allocated.  With the stale count, a scalar set
    next is uploaded by [bind] through the array path, which reads the
    pointer member out of the scalar. *)
Theorem clearValue_keeps_borrowed_count :
  _type <$> result Borrowed.set_then_clear = Some NONE ∧
  _value <$> result Borrowed.set_then_clear = Some AllZero ∧
  _count <$> result Borrowed.set_then_clear = Some 5 ∧
  _count <$> result Borrowed.vector_then_clear = Some 1 ∧
  trace (world_of Borrowed.vector_then_clear) = [EvNewArray 8%N 3; EvDeleteArray 8%N] ∧
  _count <$> result Borrowed.then_scalar = Some 5 ∧
  failure_of Borrowed.then_bind = Some UndefinedBehaviour.
Proof. vm_compute. repeat split. Qed.

(** ** Cloning over a value *)

(** The typed setter tears the prior payload down first, whatever it is. *)
Lemma setValue_float_tears_down (value : float) (p : MaterialParameter) (w : World) :
  owns_payload p w = true →
  ∃ w', setValue_float value p w
          = Done (with_value FLOAT (_count (cleared p)) false (AsFloat value) (cleared p)) w' ∧
        teardown p w w'.
Proof.
  intros Hp. destruct (clearValue_effect p w Hp) as (w' & Hc & Ht).
  exists w'. split; [|done]. unfold setValue_float.
  by rewrite (bind_Done _ _ _ _ _ Hc).
Qed.

(** Cloning a scalar that is not dynamic releases nothing, whatever the
    target holds: the world is left exactly as it was. *)
Lemma cloneInto_scalar_releases_nothing (this target : MaterialParameter) (w : World)
    (f : float) :
  _type this = FLOAT → _dynamic this = false → _value this = AsFloat f →
  cloneInto this target w
    = Done {| _type := FLOAT; _count := _count this; _dynamic := false;
              _name := _name target; _uniform := _uniform this; _value := AsFloat f |} w.
Proof.
  intros Ht Hd Hv. unfold cloneInto. rewrite Ht, Hd, Hv. reflexivity.
Qed.

(** C4 on the code: [cloneInto] overwrites the target's [_type] and
    [_dynamic] before the typed [setValue] runs [clearValue], so the
    tear-down is chosen by the source's tags.  Cloning a scalar into the
    parameter that holds the sampler at address 7 never releases it (its
    count stays 2 with no cell referring to it), where [setValue] on the
    same parameter releases it; cloning the scalar into a parameter that
    owns a Vector3 array never deletes the array, where [setValue] does. *)
Theorem cloneInto_skips_teardown :
  _value <$> result Overwrite.clone_over_sampler = Some (AsFloat Float32.one) ∧
  refCount 7%N (world_of Overwrite.clone_over_sampler) = Some 2%positive ∧
  occurrences (is_release 7%N) (trace (world_of Overwrite.clone_over_sampler)) = 0%nat ∧
  refCount 7%N (world_of Overwrite.set_over_sampler) = Some 1%positive ∧
  occurrences (is_release 7%N) (trace (world_of Overwrite.set_over_sampler)) = 1%nat ∧
  _value <$> result Overwrite.clone_over_vector = Some (AsFloat Float32.one) ∧
  elements (owned_arrays (world_of Overwrite.clone_over_vector)) = [8%N] ∧
  occurrences (is_delete_array 8%N) (trace (world_of Overwrite.clone_over_vector)) = 0%nat ∧
  elements (owned_arrays (world_of Overwrite.set_over_vector)) = [] ∧
  occurrences (is_delete_array 8%N) (trace (world_of Overwrite.set_over_vector)) = 1%nat.
Proof. vm_compute. repeat split. Qed.

(** ** Binding to an effect that lacks the uniform *)

(** C7, as stated, fails when the cached handle already belongs to the
    effect: no lookup by name takes place.  The clone named [lightColor]
    carries the handle its source resolved, so binding it to the same
    effect, which exposes no uniform [lightColor], uploads through that
    handle and emits no warning. *)
Lemma bind_stale_handle_uploads :
  getUniform Scene.effect "lightColor" = None ∧
  _name <$> result Stale.setup = Some "lightColor" ∧
  occurrences is_upload (trace (world_of Stale.setup)) = 1%nat ∧
  occurrences is_upload (trace (world_of Stale.rebind)) = 2%nat ∧
  occurrences is_warning (trace (world_of Stale.rebind)) = 0%nat.
Proof. vm_compute. repeat split. Qed.

(** C7 (amended): if the parameter has no cached uniform, or its cached
    uniform belongs to another effect, and the effect exposes no uniform
    matching the parameter's name, then [bind] returns normally, performs
    no upload, leaves the value cell unchanged (only the cached handle
    becomes null) and emits exactly one warning-level diagnostic. *)
Theorem bind_missing_uniform (effect : Effect) (p : MaterialParameter) (w : World) :
  (∀ u, _uniform p = Some u → uniform_effect u ≠ effect_addr effect) →
  getUniform effect (_name p) = None →
  ∃ msg,
    bind effect p w = Done (with_uniform None p) (with_event (EvWarn msg) w) ∧
    occurrences is_upload (trace (with_event (EvWarn msg) w))
      = occurrences is_upload (trace w) ∧
    occurrences is_warning (trace (with_event (EvWarn msg) w))
      = S (occurrences is_warning (trace w)) ∧
    _type (with_uniform None p) = _type p ∧ _count (with_uniform None p) = _count p ∧
    _dynamic (with_uniform None p) = _dynamic p ∧ _value (with_uniform None p) = _value p ∧
    heap (with_event (EvWarn msg) w) = heap w.
Proof.
  intros Hstale Hnone. eexists. split; [|repeat split].
  - unfold bind.
    assert (Hs : match _uniform p with
                 | Some u => bool_decide (uniform_effect u ≠ effect_addr effect)
                 | None => true
                 end = true).
    { destruct (_uniform p) as [u|]; [|done]. apply bool_decide_eq_true_2. by apply Hstale. }
    rewrite Hs, Hnone. simpl. reflexivity.
  - unfold occurrences. simpl. by rewrite filter_app, length_app, Nat.add_0_r.
  - unfold occurrences. simpl. rewrite filter_app, length_app. simpl. lia.
Qed.

Lemma bind_missing_uniform_witness :
  (∀ u, _uniform Stale.unbound = Some u → uniform_effect u ≠ effect_addr Scene.effect) ∧
  getUniform Scene.effect (_name Stale.unbound) = None ∧
  failure_of (bind Scene.effect Stale.unbound Scene.world) = None ∧
  trace (world_of (bind Scene.effect Stale.unbound Scene.world))
    = [EvWarn "Warning: Material parameter 'lightColor' not found in effect 'textured'."].
Proof.
  assert (H1 : ∀ u, _uniform Stale.unbound = Some u →
                    uniform_effect u ≠ effect_addr Scene.effect) by (intros u; discriminate).
  assert (H2 : getUniform Scene.effect (_name Stale.unbound) = None) by reflexivity.
  split; [exact H1|]. split; [exact H2|].
  destruct (bind_missing_uniform Scene.effect Stale.unbound Scene.world H1 H2)
    as (msg & Hb & _).
  split; [by rewrite Hb|reflexivity].
Defined.

(** ** The blending loops *)

Lemma with_heap_id (w : World) : with_heap (heap w) w = w.
Proof. by destruct w. Qed.

Lemma with_heap_twice (h h' : gmap addr block) (w : World) :
  with_heap h (with_heap h' w) = with_heap h w.
Proof. reflexivity. Qed.

Lemma getFloat_lookup (i : nat) (value : AnimationValue.t) (b : float) (w : World) :
  value !! i = Some b → AnimationValue.getFloat (Z.of_nat i) value w = Done b w.
Proof. unfold AnimationValue.getFloat. rewrite Nat2Z.id. by intros ->. Qed.

Section float_loop.
Variable blendWeight : float.
Variable value : AnimationValue.t.
Variable a : addr.
Variable o : origin.

Let body : nat → unit → M unit := λ i _,
  f ← load_float a i;
  b ← AnimationValue.getFloat (Z.of_nat i) value;
  store_float a i (Curve.lerp blendWeight f b).

Lemma float_loop_spec (k i : nat) (data : list float) (w : World) :
  heap w !! a = Some (FloatArray o data) →
  (i + k ≤ length data)%nat → (i + k ≤ length value)%nat →
  for_loop body i k tt w
    = Done tt (with_heap
        (<[a := FloatArray o
                  (take i data ++
                   zip_with (Curve.lerp blendWeight) (take k (drop i data))
                                                     (take k (drop i value)) ++
                   drop (i + k) data)]> (heap w)) w).
Proof.
  revert i data w. induction k as [|k IH]; intros i data w Ha Hd Hv.
  - simpl. rewrite Nat.add_0_r. simpl. rewrite take_drop.
    rewrite insert_id by done. by rewrite with_heap_id.
  - destruct (lookup_lt_is_Some_2 data i) as [f Hf]; [lia|].
    destruct (lookup_lt_is_Some_2 value i) as [b Hb]; [lia|].
    assert (Hstep : body i tt w
      = Done tt (with_heap (<[a := FloatArray o (<[i := Curve.lerp blendWeight f b]> data)]>
                             (heap w)) w)).
    { unfold body, load_float, store_float. unfold mbind at 1, M_bind at 1.
      rewrite Ha, Hf. unfold mbind, M_bind. rewrite (getFloat_lookup _ _ _ _ Hb).
      rewrite Ha. rewrite decide_True by (apply lookup_lt_Some in Hf; lia). done. }
    cbn [for_loop]. rewrite (bind_Done _ _ _ _ _ Hstep).
    rewrite IH with (data := <[i := Curve.lerp blendWeight f b]> data);
      [|simpl; apply lookup_insert_eq|rewrite length_insert; lia|lia].
    f_equal. rewrite with_heap_twice. f_equal. simpl.
    rewrite insert_insert_eq. f_equal. f_equal.
    rewrite (drop_S data f i Hf), (drop_S value b i Hb). simpl.
    rewrite (take_S_r (<[i:=Curve.lerp blendWeight f b]> data) i (Curve.lerp blendWeight f b))
      by (apply list_lookup_insert_eq; apply lookup_lt_Some in Hf; lia).
    rewrite take_insert_ge by lia.
    rewrite <- app_assoc. simpl.
    rewrite !drop_insert_lt by lia.
    by rewrite Nat.add_succ_r.
Qed.

End float_loop.
Section int_loop.
Variable blendWeight : float.
Variable value : AnimationValue.t.
Variable a : addr.
Variable o : origin.

Let body : nat → unit → M unit := λ i _,
  z ← load_int a i;
  b ← AnimationValue.getFloat (Z.of_nat i) value;
  r ← float_to_int (Curve.lerp blendWeight (Float32.of_int z) b);
  store_int a i r.

Lemma int_loop_spec (k i : nat) (data rs : list Z) (w : World) :
  heap w !! a = Some (IntArray o data) →
  (i + k ≤ length data)%nat → (i + k ≤ length value)%nat →
  zip_with (blend_int blendWeight) (take k (drop i data)) (take k (drop i value))
    = Some <$> rs →
  for_loop body i k tt w
    = Done tt (with_heap
        (<[a := IntArray o (take i data ++ rs ++ drop (i + k) data)]> (heap w)) w).
Proof.
  revert i data rs w. induction k as [|k IH]; intros i data rs w Ha Hd Hv Hrs.
  - simpl in *. destruct rs; [|done]. rewrite Nat.add_0_r. simpl. rewrite take_drop.
    rewrite insert_id by done. by rewrite with_heap_id.
  - destruct (lookup_lt_is_Some_2 data i) as [z Hz]; [lia|].
    destruct (lookup_lt_is_Some_2 value i) as [b Hb]; [lia|].
    rewrite (drop_S data z i Hz), (drop_S value b i Hb) in Hrs. simpl in Hrs.
    destruct rs as [|r rs]; [done|]. simpl in Hrs.
    injection Hrs as Hr Hrs.
    assert (Hstep : body i tt w
      = Done tt (with_heap (<[a := IntArray o (<[i := r]> data)]> (heap w)) w)).
    { unfold body, load_int, store_int, float_to_int. unfold mbind at 1, M_bind at 1.
      rewrite Ha, Hz. unfold mbind, M_bind. rewrite (getFloat_lookup _ _ _ _ Hb).
      unfold blend_int in Hr. rewrite Hr. simpl.
      rewrite Ha. rewrite decide_True by (apply lookup_lt_Some in Hz; lia). done. }
    cbn [for_loop]. rewrite (bind_Done _ _ _ _ _ Hstep).
    rewrite IH with (data := <[i := r]> data) (rs := rs);
      [|simpl; apply lookup_insert_eq|rewrite length_insert; lia|lia|].
    + f_equal. rewrite with_heap_twice. f_equal. simpl.
      rewrite insert_insert_eq. f_equal. f_equal.
      rewrite (take_S_r (<[i:=r]> data) i r)
        by (apply list_lookup_insert_eq; apply lookup_lt_Some in Hz; lia).
      rewrite take_insert_ge by lia.
      rewrite <- app_assoc. simpl.
      rewrite !drop_insert_lt by lia.
      by rewrite Nat.add_succ_r.
    + rewrite drop_insert_lt by lia. done.
Qed.

End int_loop.

(** [applyAnimationValue] on a cell that points to a live float array with
    room for the channels: it returns, and the array holds the blend. *)
Lemma applyAnimationValue_spec (value : AnimationValue.t) (blendWeight : float)
    (components : Z) (p : MaterialParameter) (w : World) (a : addr) (o : origin)
    (data : list float) :
  _value p = AsPointer a → a ≠ NULL →
  heap w !! a = Some (FloatArray o data) →
  (Z.to_nat (uint (_count p * components)) ≤ length data)%nat →
  (Z.to_nat (uint (_count p * components)) ≤ length value)%nat →
  applyAnimationValue value blendWeight components p w
    = Done tt (with_heap
        (<[a := FloatArray o
                  (blend_floats blendWeight data value
                     (Z.to_nat (uint (_count p * components))))]> (heap w)) w).
Proof.
  intros Hv Hnull Ha Hd Hval. unfold applyAnimationValue, floatPtrValue, pointerValue.
  rewrite Hv. rewrite bind_ret.
  rewrite bool_decide_eq_true_2 by done. simpl GP_ASSERT. rewrite bind_ret.
  erewrite float_loop_spec; [|exact Ha|simpl; lia|simpl; lia].
  unfold blend_floats. by rewrite take_0, !drop_0.
Qed.

(** ** What a blend does to the stored channels *)

Lemma uint_small (z : Z) : 0 ≤ z ≤ UINT_MAX → uint z = z.
Proof. unfold uint, UINT_MAX. intros. apply Z.mod_small. lia. Qed.

Lemma take_blend_floats (blendWeight : float) (data value : list float) (n : nat) :
  (n ≤ length data)%nat → (n ≤ length value)%nat →
  take n (blend_floats blendWeight data value n)
    = zip_with (Curve.lerp blendWeight) (take n data) (take n value).
Proof.
  intros Hd Hv. unfold blend_floats.
  rewrite take_app_length'; [done|].
  rewrite length_zip_with, !length_take. lia.
Qed.

Lemma length_blend_floats (blendWeight : float) (data value : list float) (n : nat) :
  (n ≤ length data)%nat → (n ≤ length value)%nat →
  length (blend_floats blendWeight data value n) = length data.
Proof.
  intros Hd Hv. unfold blend_floats.
  rewrite length_app, length_zip_with, !length_take, length_drop. lia.
Qed.

Lemma float_array_prefix_Some (a : addr) (n : nat) (w : World) (chans : list float) :
  float_array_prefix a n w = Some chans →
  a ≠ NULL ∧ ∃ o data, heap w !! a = Some (FloatArray o data) ∧
                       (n ≤ length data)%nat ∧ chans = take n data.
Proof.
  unfold float_array_prefix. case_decide; [done|].
  destruct (heap w !! a) as [[o data| |]|]; try done.
  case_decide; [|done]. intros [= <-]. eauto 10.
Qed.

(** The array path of a float blend. *)
Lemma blend_float_array (p : MaterialParameter) (w : World) (value : AnimationValue.t)
    (blendWeight : float) (components : Z) (a : addr) (chans : list float) :
  _value p = AsPointer a →
  float_array_prefix a (Z.to_nat (uint (_count p * components))) w = Some chans →
  (length chans ≤ length value)%nat →
  ∃ w',
    applyAnimationValue value blendWeight components p w = Done tt w' ∧
    trace w' = trace w ∧
    float_array_prefix a (Z.to_nat (uint (_count p * components))) w'
      = Some (zip_with (Curve.lerp blendWeight) chans (take (length chans) value)).
Proof.
  intros Hv Hch Hval.
  apply float_array_prefix_Some in Hch as (Hnull & o & data & Ha & Hd & ->).
  rewrite length_take_le in * by done.
  eexists. split; [by eapply applyAnimationValue_spec|]. split; [done|].
  unfold float_array_prefix. rewrite decide_False by done. simpl.
  rewrite lookup_insert_eq.
  rewrite decide_True by (by rewrite length_blend_floats).
  by rewrite take_blend_floats.
Qed.
Lemma weight_ok_assert (blendWeight : float) (w : World) :
  weight_ok blendWeight = true →
  GP_ASSERT (Float32.leb Float32.zero blendWeight && Float32.leb blendWeight Float32.one) w
    = Done tt w.
Proof. unfold weight_ok. by intros ->. Qed.

(** Float kinds: the blend returns, and every stored channel is the [lerp]
    of its old value and the input channel. *)
Lemma blend_float_channels (p : MaterialParameter) (w : World) (value : AnimationValue.t)
    (blendWeight : float) (chans : list float) :
  weight_ok blendWeight = true →
  0 ≤ _count p ≤ UINT_MAX →
  float_channels p w = Some chans →
  (length chans ≤ length value)%nat →
  ∃ p' w',
    setAnimationPropertyValue ANIMATE_UNIFORM value blendWeight p w = Done p' w' ∧
    _type p' = _type p ∧ _count p' = _count p ∧ _dynamic p' = _dynamic p ∧
    trace w' = trace w ∧
    float_channels p' w'
      = Some (zip_with (Curve.lerp blendWeight) chans (take (length chans) value)).
Proof.
  intros Hw Hc Hch Hval.
  unfold setAnimationPropertyValue.
  rewrite (bind_Done _ _ _ _ _ (weight_ok_assert _ _ Hw)).
  rewrite Z.eqb_refl.
  unfold float_channels in *.
  unfold getAnimationPropertyComponentCount in *. rewrite Z.eqb_refl in *.
  destruct p as [t n d nm u v]; simpl in *.
  destruct t; try discriminate Hch; simpl in *.
  - (* FLOAT *)
    destruct (n =? 1) eqn:En.
    + assert (∃ f, chans = [f] ∧ floatValue v = mret f) as (f & -> & Hf).
      { destruct v; try discriminate Hch; injection Hch as <-; eauto. }
      destruct value as [|b value]; [simpl in Hval; lia|].
      rewrite Hf. simpl. eexists _, _. split; [reflexivity|].
      simpl. by rewrite En.
    + destruct v as [| | |a]; try discriminate Hch.
      rewrite <- (uint_small n) in Hch by done.
      rewrite <- (Z.mul_1_r n) in Hch at 1.
      edestruct (blend_float_array
                   {| _type := FLOAT; _count := n; _dynamic := d; _name := nm;
                      _uniform := u; _value := AsPointer a |}) as (w' & Hb & Ht & Hr);
        [reflexivity|exact Hch|exact Hval|].
      rewrite (bind_Done _ _ _ _ _ Hb). eexists _, w'. split; [reflexivity|].
      simpl. rewrite En. simpl in Hr. rewrite Z.mul_1_r, uint_small in Hr by done. done.
  - (* VECTOR2 *)
    destruct v as [| | |a]; try discriminate Hch.
    rewrite (Z.mul_comm 2 n) in *.
    edestruct (blend_float_array
                 {| _type := VECTOR2; _count := n; _dynamic := d; _name := nm;
                    _uniform := u; _value := AsPointer a |}) as (w' & Hb & Ht & Hr);
      [reflexivity|exact Hch|exact Hval|].
    rewrite (bind_Done _ _ _ _ _ Hb). eexists _, w'. split; [reflexivity|].
    simpl in *. rewrite (Z.mul_comm 2 n). done.
  - (* VECTOR3 *)
    destruct v as [| | |a]; try discriminate Hch.
    rewrite (Z.mul_comm 3 n) in *.
    edestruct (blend_float_array
                 {| _type := VECTOR3; _count := n; _dynamic := d; _name := nm;
                    _uniform := u; _value := AsPointer a |}) as (w' & Hb & Ht & Hr);
      [reflexivity|exact Hch|exact Hval|].
    rewrite (bind_Done _ _ _ _ _ Hb). eexists _, w'. split; [reflexivity|].
    simpl in *. rewrite (Z.mul_comm 3 n). done.
  - (* VECTOR4 *)
    destruct v as [| | |a]; try discriminate Hch.
    rewrite (Z.mul_comm 4 n) in *.
    edestruct (blend_float_array
                 {| _type := VECTOR4; _count := n; _dynamic := d; _name := nm;
                    _uniform := u; _value := AsPointer a |}) as (w' & Hb & Ht & Hr);
      [reflexivity|exact Hch|exact Hval|].
    rewrite (bind_Done _ _ _ _ _ Hb). eexists _, w'. split; [reflexivity|].
    simpl in *. rewrite (Z.mul_comm 4 n). done.
Qed.

Lemma int_array_prefix_Some (a : addr) (n : nat) (w : World) (chans : list Z) :
  int_array_prefix a n w = Some chans →
  a ≠ NULL ∧ ∃ o data, heap w !! a = Some (IntArray o data) ∧
                       (n ≤ length data)%nat ∧ chans = take n data.
Proof.
  unfold int_array_prefix. case_decide; [done|].
  destruct (heap w !! a) as [[|o data|]|]; try done.
  case_decide; [|done]. intros [= <-]. eauto 10.
Qed.

(** The Int kind: when every converted blend fits [int], the blend returns
    and every stored channel is the conversion of the [lerp] of its old
    value, taken as a float, and the input channel. *)
Lemma blend_int_channels (p : MaterialParameter) (w : World) (value : AnimationValue.t)
    (blendWeight : float) (chans rs : list Z) :
  weight_ok blendWeight = true →
  int_channels p w = Some chans →
  (length chans ≤ length value)%nat →
  zip_with (blend_int blendWeight) chans (take (length chans) value) = Some <$> rs →
  ∃ p' w',
    setAnimationPropertyValue ANIMATE_UNIFORM value blendWeight p w = Done p' w' ∧
    _type p' = _type p ∧ _count p' = _count p ∧ _dynamic p' = _dynamic p ∧
    trace w' = trace w ∧
    int_channels p' w' = Some rs.
Proof.
  intros Hw Hch Hval Hrs.
  unfold setAnimationPropertyValue.
  rewrite (bind_Done _ _ _ _ _ (weight_ok_assert _ _ Hw)).
  rewrite Z.eqb_refl.
  unfold int_channels in *.
  unfold getAnimationPropertyComponentCount in *. rewrite Z.eqb_refl in *.
  destruct p as [t n d nm u v]; simpl in *.
  destruct t; try discriminate Hch; simpl in *.
  destruct (n =? 1) eqn:En.
  - assert (∃ i, chans = [i] ∧ intValue v = mret i) as (i & -> & Hi).
    { destruct v; try discriminate Hch; injection Hch as <-; eauto. }
    destruct value as [|b value]; [simpl in Hval; lia|].
    simpl in Hrs. destruct rs as [|r [|??]]; try discriminate Hrs.
    injection Hrs as Hr. unfold blend_int in Hr.
    rewrite Hi, bind_ret.
    rewrite (bind_Done _ _ _ _ _ (getFloat_lookup 0 (b :: value) b w eq_refl)).
    unfold float_to_int. rewrite Hr, bind_ret.
    eexists _, _. split; [reflexivity|]. simpl. by rewrite En.
  - destruct v as [| | |a]; try discriminate Hch.
    apply int_array_prefix_Some in Hch as (Hnull & o & data & Ha & Hd & ->).
    rewrite length_take_le in * by done.
    unfold intPtrValue, pointerValue. rewrite bind_ret.
    rewrite bool_decide_eq_true_2 by done. simpl GP_ASSERT. rewrite bind_ret.
    erewrite bind_Done;
      [|eapply int_loop_spec with (rs := rs);
        [exact Ha|simpl; lia|simpl; lia|by rewrite !drop_0]].
    eexists _, _. split; [reflexivity|]. simpl. rewrite En.
    repeat split. unfold int_array_prefix. rewrite decide_False by done. simpl.
    rewrite lookup_insert_eq.
    assert (length rs = Z.to_nat n) as Hlen.
    { apply (f_equal length) in Hrs.
      rewrite length_zip_with, length_fmap, !length_take in Hrs. lia. }
    rewrite decide_True by (rewrite length_app, length_drop; lia).
    by rewrite take_app_length'.
Qed.

(** ** Facts of single-precision arithmetic *)

Module Float32Facts.
Import Float32.

Lemma eqb_refl (a : float) : is_finite a = true → eqb a a = true.
Proof.
  destruct a as [s|s| |s m e]; try done; intros _.
  unfold eqb, SFeqb, SFcompare.
  destruct s; rewrite Z.compare_refl, Pos.compare_cont_refl; done.
Qed.


(** Adding a zero to a finite number gives the number back, up to the sign
    of a zero sum. *)
Lemma add_zero_r (a : float) (s : bool) :
  is_finite a = true →
  eqb (add a (S754_zero s)) a = true ∧
  (is_neg_zero a = false → add a (S754_zero s) = a).
Proof.
  destruct a as [sa|sa| |sa m e]; try done; intros _.
  - destruct sa, s; done.
  - split; [|done]. apply (eqb_refl (S754_finite sa m e)). done.
Qed.

(** A finite difference of a number with itself is [+0]. *)
Lemma sub_diag (a : float) : is_finite a = true → sub a a = zero.
Proof.
  destruct a as [s|s| |s m e]; try done; intros _.
  - by destruct s.
  - unfold sub, SFsub. rewrite Z.sub_diag. reflexivity.
Qed.


(** Weight 1 toward the value already stored keeps it. *)
Lemma lerp_one_same (a : float) :
  is_finite a = true →
  eqb (Curve.lerp one a a) a = true ∧
  (is_neg_zero a = false → Curve.lerp one a a = a).
Proof.
  intros Ha. unfold Curve.lerp. rewrite sub_diag by done.
  change (mul one zero) with (S754_zero false). by apply add_zero_r.
Qed.

End Float32Facts.

Module Rounding.
Import Float32.

Lemma fexp_eq (e : Z) : fexp prec emax e = Z.max (e - 24) (-149).
Proof. reflexivity. Qed.

Lemma digits2_size (p : positive) : digits2_pos p = Pos.size p.
Proof. induction p; simpl; congruence. Qed.

Lemma digits_bounds (p : positive) :
  2 ^ (Z.pos (digits2_pos p) - 1) ≤ Z.pos p < 2 ^ Z.pos (digits2_pos p).
Proof.
  rewrite digits2_size. split.
  - pose proof (Pos.size_le p) as H.
    assert (2 ^ Z.pos (Pos.size p) ≤ 2 * Z.pos p) as H'.
    { rewrite <- Pos2Z.inj_pow. change (2 * Z.pos p) with (Z.pos p~0). lia. }
    replace (Z.pos (Pos.size p)) with (Z.succ (Z.pos (Pos.size p) - 1)) in H' by lia.
    rewrite Z.pow_succ_r in H' by lia. lia.
  - pose proof (Pos.size_gt p) as H. rewrite <- Pos2Z.inj_pow. lia.
Qed.

Lemma digits_unique (p : positive) (d : Z) :
  2 ^ (d - 1) ≤ Z.pos p < 2 ^ d → Z.pos (digits2_pos p) = d.
Proof.
  intros [Hl Hu]. pose proof (digits_bounds p) as [Hl' Hu'].
  assert (0 < d) as Hd.
  { destruct (decide (0 < d)); [done|].
    assert (2 ^ d ≤ 2 ^ 0) by (apply Z.pow_le_mono_r; lia). simpl in *. lia. }
  destruct (Z.lt_trichotomy (Z.pos (digits2_pos p)) d) as [H|[H|H]]; [|done|].
  - assert (2 ^ Z.pos (digits2_pos p) ≤ 2 ^ (d - 1)) by (apply Z.pow_le_mono_r; lia). lia.
  - assert (2 ^ d ≤ 2 ^ (Z.pos (digits2_pos p) - 1)) by (apply Z.pow_le_mono_r; lia). lia.
Qed.

(** Shifting left by [n] adds [n] digits. *)
Lemma digits_shift (p q : positive) (n : Z) :
  0 ≤ n → Z.pos q = Z.pos p * 2 ^ n →
  Z.pos (digits2_pos q) = Z.pos (digits2_pos p) + n.
Proof.
  intros Hn Hq. apply digits_unique. rewrite Hq.
  pose proof (digits_bounds p) as [Hl Hu].
  assert (0 < 2 ^ n) by (apply Z.pow_pos_nonneg; lia).
  replace (Z.pos (digits2_pos p) + n - 1) with ((Z.pos (digits2_pos p) - 1) + n) by lia.
  rewrite !Z.pow_add_r by lia. nia.
Qed.

Lemma pos_iter_xO (p d : positive) : Z.pos (Pos.iter xO p d) = Z.pos p * 2 ^ Z.pos d.
Proof.
  revert p. induction d as [|d IH] using Pos.peano_ind; intros p.
  - simpl. lia.
  - rewrite Pos.iter_succ. rewrite Pos2Z.inj_xO, IH.
    rewrite Pos2Z.inj_succ, Z.pow_succ_r by lia. lia.
Qed.

(** Shifting right over trailing zeros is exact. *)
Lemma shr_exact (n P m : positive) :
  Z.pos P = Z.pos m * 2 ^ Z.pos n →
  SpecFloat.iter_pos shr_1 n (Build_shr_record (Z.pos P) false false)
    = Build_shr_record (Z.pos m) false false.
Proof.
  assert (Hmid : ∀ (m n : positive), ∃ R, Z.pos R = Z.pos m * 2 ^ Z.pos n).
  { intros m' n'. exists (Z.to_pos (Z.pos m' * 2 ^ Z.pos n')). rewrite Z2Pos.id; [done|].
    assert (0 < 2 ^ Z.pos n') by (apply Z.pow_pos_nonneg; lia). nia. }
  revert P m. induction n as [n IH|n IH|]; intros P m HP.
  - (* 2n+1 *)
    replace (Z.pos n~1) with (Z.pos n + Z.pos n + 1) in HP by lia.
    rewrite !Z.pow_add_r in HP by lia. change (2 ^ 1) with 2 in HP.
    destruct (Hmid m n) as [R HR].
    destruct (Hmid R n) as [Q HQ].
    assert (P = xO Q) as -> by lia.
    simpl. rewrite (IH Q R) by done. by apply IH.
  - replace (Z.pos n~0) with (Z.pos n + Z.pos n) in HP by lia.
    rewrite !Z.pow_add_r in HP by lia.
    destruct (Hmid m n) as [R HR].
    simpl. rewrite (IH P R) by (rewrite HR; lia). by apply IH.
  - simpl. change (2 ^ 1) with 2 in HP.
    destruct P as [P|P|]; try lia.
    simpl. f_equal. lia.
Qed.





Lemma bounded_spec (m : positive) (e : Z) :
  bounded prec emax m e = true →
  fexp prec emax (Z.pos (digits2_pos m) + e) = e ∧ e ≤ 104 ∧ -149 ≤ e.
Proof.
  unfold bounded, canonical_mantissa. intros H.
  apply andb_true_iff in H as [H1 H2].
  apply Z.eqb_eq in H1. apply Z.leb_le in H2.
  split; [done|]. split; [exact H2|].
  rewrite fexp_eq in H1. lia.
Qed.

(** Rounding a significand that only carries [n] trailing zeros beyond a
    canonical one returns the canonical float, exactly. *)
Lemma shr_fexp_exact (m P : positive) (e n : Z) :
  bounded prec emax m e = true → 0 ≤ n → Z.pos P = Z.pos m * 2 ^ n →
  shr_fexp prec emax (Z.pos P) (e - n) loc_Exact
    = (Build_shr_record (Z.pos m) false false, e).
Proof.
  intros Hb Hn HP. apply bounded_spec in Hb as (Hc & _ & _).
  unfold shr_fexp. simpl Zdigits2.
  rewrite (digits_shift m P n Hn HP).
  replace (Z.pos (digits2_pos m) + n + (e - n)) with (Z.pos (digits2_pos m) + e) by lia.
  rewrite Hc. replace (e - (e - n)) with n by lia.
  unfold shr. simpl shr_record_of_loc.
  destruct n as [|n|n]; [| |lia].
  - rewrite Z.mul_1_r in HP. injection HP as ->. f_equal. lia.
  - rewrite (shr_exact n P m HP). f_equal. lia.
Qed.

Lemma binary_round_aux_exact (s : bool) (m P : positive) (e n : Z) :
  bounded prec emax m e = true → 0 ≤ n → Z.pos P = Z.pos m * 2 ^ n →
  binary_round_aux prec emax s (Z.pos P) (e - n) loc_Exact = S754_finite s m e.
Proof.
  intros Hb Hn HP. unfold binary_round_aux.
  rewrite (shr_fexp_exact m P e n Hb Hn HP). simpl.
  pose proof (shr_fexp_exact m m e 0 Hb ltac:(lia) ltac:(lia)) as H0.
  rewrite Z.sub_0_r in H0. rewrite H0. simpl.
  apply bounded_spec in Hb as (_ & Hle & _).
  change (emax - prec) with 104.
  by rewrite (proj2 (Z.leb_le e 104) Hle).
Qed.

(** Rounding any integer representation [P * 2^e] of the value of a
    canonical float returns that float. *)
Lemma binary_round_exact (s : bool) (m P : positive) (ef e : Z) :
  bounded prec emax m ef = true → -149 ≤ e →
  Z.pos P * 2 ^ (e + 149) = Z.pos m * 2 ^ (ef + 149) →
  binary_round prec emax s P e = S754_finite s m ef.
Proof.
  intros Hb He HP. pose proof (bounded_spec m ef Hb) as (Hc & Hle & Hge).
  unfold binary_round.
  destruct (Z_le_gt_dec e ef) as [Hcase|Hcase].
  - (* the representation is finer: trailing zeros to shift out *)
    assert (Z.pos P = Z.pos m * 2 ^ (ef - e)) as HP'.
    { replace (ef + 149) with ((ef - e) + (e + 149)) in HP by lia.
      rewrite (Z.pow_add_r 2 (ef - e) (e + 149)), Z.mul_assoc in HP by lia.
      assert (0 < 2 ^ (e + 149)) by (apply Z.pow_pos_nonneg; lia).
      apply Z.mul_cancel_r in HP; [done|lia]. }
    rewrite (digits_shift m P (ef - e)) by (lia || done).
    replace (Z.pos (digits2_pos m) + (ef - e) + e) with (Z.pos (digits2_pos m) + ef) by lia.
    rewrite Hc. unfold shl_align.
    destruct (ef - e) as [|k|k] eqn:Ek; [| |lia].
    + replace e with (ef - 0) by lia. apply binary_round_aux_exact; [done|lia|].
      rewrite HP'. lia.
    + replace e with (ef - Z.pos k) by lia. apply binary_round_aux_exact; [done|lia|done].
  - (* the representation is coarser: shift left to align *)
    assert (Z.pos m = Z.pos P * 2 ^ (e - ef)) as Hm.
    { replace (e + 149) with ((e - ef) + (ef + 149)) in HP by lia.
      rewrite (Z.pow_add_r 2 (e - ef) (ef + 149)), Z.mul_assoc in HP by lia.
      assert (0 < 2 ^ (ef + 149)) by (apply Z.pow_pos_nonneg; lia).
      apply Z.mul_cancel_r in HP; [done|lia]. }
    assert (Z.pos (digits2_pos P) + e = Z.pos (digits2_pos m) + ef) as Hd.
    { rewrite (digits_shift P m (e - ef)) by (lia || done). lia. }
    rewrite Hd, Hc. unfold shl_align.
    destruct (ef - e) as [|k|k] eqn:Ek; [lia|lia|].
    assert (Pos.iter xO P k = m) as ->.
    { apply Pos2Z.inj. rewrite pos_iter_xO, Hm. f_equal. f_equal. lia. }
    replace ef with (ef - 0) at 1 by lia.
    apply binary_round_aux_exact; [done|lia|lia].
Qed.








Lemma valid_finite_exponent (s : bool) (m : positive) (e : Z) :
  valid (S754_finite s m e) = true → -149 ≤ e.
Proof. intros H. by apply bounded_spec in H as (_ & _ & ?). Qed.




(** Integers below [2^24] in magnitude convert to [float] exactly. *)
Lemma of_int_small (z : Z) :
  Z.abs z < 2 ^ 24 →
  valid (of_int z) = true ∧ is_finite (of_int z) = true ∧
  is_neg_zero (of_int z) = false ∧ units (of_int z) = z * 2 ^ 149.
Proof.
  intros Hz. destruct z as [|P|P]; [done| |].
  all: pose proof (digits_bounds P) as [Hl Hu];
    assert (Z.pos (digits2_pos P) ≤ 24) as Hd
      by (destruct (decide (Z.pos (digits2_pos P) ≤ 24)); [done|];
          assert (2 ^ 24 ≤ 2 ^ (Z.pos (digits2_pos P) - 1))
            by (apply Z.pow_le_mono_r; lia); lia);
    set (k := 24 - Z.pos (digits2_pos P));
    assert (0 < 2 ^ k) as Hk by (apply Z.pow_pos_nonneg; unfold k; lia);
    set (m := Z.to_pos (Z.pos P * 2 ^ k));
    assert (Z.pos m = Z.pos P * 2 ^ k) as Hm by (unfold m; rewrite Z2Pos.id; lia);
    assert (bounded prec emax m (- k) = true) as Hb
      by (unfold bounded, canonical_mantissa;
          rewrite (digits_shift P m k) by (unfold k; lia || done);
          rewrite fexp_eq; apply andb_true_iff; split;
          [apply Z.eqb_eq; unfold k; lia|apply Z.leb_le; change (emax - prec) with 104; lia]).
  - assert (of_int (Z.pos P) = S754_finite false m (- k)) as ->.
    { unfold of_int. simpl. apply binary_round_exact; [done|lia|].
      rewrite Hm, <- Z.mul_assoc, <- Z.pow_add_r by (unfold k; lia).
      f_equal. f_equal. lia. }
    repeat split; [done|]. simpl. rewrite Hm, <- Z.mul_assoc, <- Z.pow_add_r by (unfold k; lia).
    f_equal. f_equal. lia.
  - assert (of_int (Z.neg P) = S754_finite true m (- k)) as ->.
    { unfold of_int. simpl. apply binary_round_exact; [done|lia|].
      rewrite Hm, <- Z.mul_assoc, <- Z.pow_add_r by (unfold k; lia).
      f_equal. f_equal. lia. }
    repeat split; [done|]. simpl. rewrite Hm, <- Z.mul_assoc, <- Z.pow_add_r by (unfold k; lia).
    replace (k + (- k + 149)) with 149 by lia. lia.
Qed.

(** A float whose value is a whole number truncates to that number. *)
Lemma trunc_integer (f : float) (z : Z) :
  valid f = true → is_finite f = true → units f = z * 2 ^ 149 → trunc f = Some z.
Proof.
  intros Hv Hf Hu. destruct f as [s|s| |s m e]; try done.
  - cbn [units trunc] in *. f_equal.
    assert (0 < 2 ^ 149) by (by apply Z.pow_pos_nonneg). nia.
  - pose proof (valid_finite_exponent _ _ _ Hv) as He.
    cbn [units trunc] in *. f_equal.
    assert (0 < 2 ^ 149) as H149 by (by apply Z.pow_pos_nonneg).
    assert (Z.shiftl (Z.pos m) e * 2 ^ 149 = Z.pos m * 2 ^ (e + 149)) as Hs.
    { destruct (Z_le_gt_dec 0 e).
      - rewrite Z.shiftl_mul_pow2, (Z.pow_add_r 2 e 149) by lia. ring.
      - rewrite Z.shiftl_div_pow2 by lia.
        assert (0 < 2 ^ (- e)) by (apply Z.pow_pos_nonneg; lia).
        assert (0 < 2 ^ (e + 149)) by (apply Z.pow_pos_nonneg; lia).
        assert (2 ^ 149 = 2 ^ (- e) * 2 ^ (e + 149)) as E149.
        { rewrite <- Z.pow_add_r by lia. f_equal. lia. }
        (* the significand is a multiple of 2^-e *)
        assert (Z.pos m = Z.abs z * 2 ^ (- e)) as ->.
        { rewrite E149, Z.mul_assoc in Hu.
          destruct s; cbn [cond_Zopp] in Hu.
          - assert (Z.pos m * 2 ^ (e + 149) = (- z * 2 ^ (- e)) * 2 ^ (e + 149)) as Hu'
              by lia.
            apply Z.mul_cancel_r in Hu'; [|lia]. nia.
          - apply Z.mul_cancel_r in Hu; [|lia]. nia. }
        rewrite Z.div_mul by lia. rewrite E149. ring. }
    apply (Z.mul_cancel_r _ _ (2 ^ 149)); [lia|].
    rewrite <- Hu. destruct s; cbn [cond_Zopp]; lia.
Qed.

Lemma to_int_of_int (z : Z) : Z.abs z < 2 ^ 24 → to_int (of_int z) = Some z.
Proof.
  intros Hz. destruct (of_int_small z Hz) as (Hv & Hf & _ & Hu).
  unfold to_int. rewrite (trunc_integer _ z Hv Hf Hu).
  unfold INT_MIN, INT_MAX.
  rewrite (proj2 (Z.leb_le _ _)), (proj2 (Z.leb_le _ _)) by lia. done.
Qed.

(** Conversion to [int] is truncation toward zero of the value. *)
Lemma trunc_toward_zero (f : float) (z : Z) :
  trunc f = Some z → ∃ q, to_Q f = Some q ∧ z = Qtrunc q.
Proof.
  destruct f as [s|s| |s m e]; try done; simpl; intros [= <-].
  - by eexists.
  - eexists. split; [done|]. unfold Qtrunc.
    destruct e as [|k|k]; simpl Qnum; simpl Qden.
    + rewrite Z.quot_1_r, Z.shiftl_0_r, Z.pow_0_r. lia.
    + rewrite Z.quot_1_r, Z.shiftl_mul_pow2 by lia. destruct s; cbn [cond_Zopp]; lia.
    + rewrite Z.shiftl_div_pow2 by lia.
      rewrite Pos2Z.inj_pow. change (- Z.neg k) with (Z.pos k).
      assert (0 < 2 ^ Z.pos k) by (apply Z.pow_pos_nonneg; lia).
      destruct s; simpl cond_Zopp.
      * rewrite <- (Z.quot_div_nonneg (Z.pos m)) by lia.
        change (- Z.pos m) with (- (Z.pos m)). by rewrite Z.quot_opp_l by lia.
      * by rewrite Z.quot_div_nonneg by lia.
Qed.

Lemma to_int_trunc (f : float) (z : Z) : to_int f = Some z → trunc f = Some z.
Proof.
  unfold to_int. destruct (trunc f) as [t|]; [|done].
  destruct (_ && _); [|done]. done.
Qed.




(** One integer channel at weight 1 toward its own value. *)
Lemma blend_int_same (z : Z) :
  Z.abs z < 2 ^ 24 → blend_int one z (of_int z) = Some z.
Proof.
  intros Hz. destruct (of_int_small z Hz) as (_ & Hf & Hn & _).
  unfold blend_int.
  destruct (Float32Facts.lerp_one_same (of_int z) Hf) as [_ Hx]. rewrite Hx by done.
  by apply to_int_of_int.
Qed.
End Rounding.

(** ** Reading the channels *)

(** A loop whose every iteration keeps the world and re-establishes an
    invariant indexed by the iteration number. *)
Lemma for_loop_invariant {St : Type} (P : nat → St → Prop) (body : nat → St → M St)
    (w : World) (bound : nat) :
  (∀ i s, (i < bound)%nat → P i s → ∃ s', body i s w = Done s' w ∧ P (S i) s') →
  ∀ n i s, (i + n ≤ bound)%nat → P i s →
  ∃ s', for_loop body i n s w = Done s' w ∧ P (i + n)%nat s'.
Proof.
  intros Hstep. induction n as [|n IH]; intros i s Hb HP.
  - exists s. by rewrite Nat.add_0_r.
  - destruct (Hstep i s ltac:(lia) HP) as (s1 & Hb1 & HP1).
    destruct (IH (S i) s1 ltac:(lia) HP1) as (s2 & Hb2 & HP2).
    exists s2. cbn [for_loop]. rewrite (bind_Done _ _ _ _ _ Hb1).
    split; [done|]. by rewrite Nat.add_succ_r.
Qed.

Lemma length_copied (src v0 : list float) (m : nat) :
  (m ≤ length src)%nat → (m ≤ length v0)%nat → length (copied src v0 m) = length v0.
Proof. intros. unfold copied. rewrite length_app, length_take, length_drop. lia. Qed.

Lemma copied_step (src v0 : list float) (m : nat) (x : float) :
  src !! m = Some x → (m < length v0)%nat →
  <[m := x]> (copied src v0 m) = copied src v0 (S m).
Proof.
  intros Hx Hm. unfold copied.
  pose proof (lookup_lt_Some _ _ _ Hx) as Hs.
  rewrite insert_app_r_alt by (rewrite length_take; lia).
  rewrite length_take_le by lia. rewrite Nat.sub_diag.
  destruct (lookup_lt_is_Some_2 v0 m Hm) as [y Hy].
  rewrite (drop_S v0 y m Hy). simpl.
  rewrite (take_S_r src m x Hx), <- app_assoc. done.
Qed.

Lemma setFloat_insert (m : nat) (x : float) (v : AnimationValue.t) (w : World) :
  (m < length v)%nat →
  AnimationValue.setFloat (Z.of_nat m) x v w = Done (<[m := x]> v) w.
Proof.
  intros Hm. unfold AnimationValue.setFloat. rewrite Nat2Z.id.
  by rewrite bool_decide_eq_true_2.
Qed.

Lemma load_float_lookup (a : addr) (i : nat) (o : origin) (data : list float)
    (x : float) (w : World) :
  heap w !! a = Some (FloatArray o data) → data !! i = Some x →
  load_float a i w = Done x w.
Proof. intros Ha Hx. unfold load_float. by rewrite Ha, Hx. Qed.

Lemma load_int_lookup (a : addr) (i : nat) (o : origin) (data : list Z)
    (z : Z) (w : World) :
  heap w !! a = Some (IntArray o data) → data !! i = Some z →
  load_int a i w = Done z w.
Proof. intros Ha Hx. unfold load_int. by rewrite Ha, Hx. Qed.

(** The element-wise read of a float array. *)
Lemma read_float_loop (a : addr) (o : origin) (data : list float) (n : nat)
    (value : AnimationValue.t) (w : World) :
  heap w !! a = Some (FloatArray o data) →
  (n ≤ length data)%nat → (n ≤ length value)%nat →
  for_loop (λ i value, f ← load_float a i; AnimationValue.setFloat (Z.of_nat i) f value)
           0 n value w
    = Done (copied data value n) w.
Proof.
  intros Ha Hd Hv.
  edestruct (for_loop_invariant (λ i v, v = copied data value i)
               (λ i value, f ← load_float a i; AnimationValue.setFloat (Z.of_nat i) f value)
               w n) as (v' & Hrun & ->); [| |reflexivity|exact Hrun]; [|simpl; lia].
  intros i s Hi ->.
  destruct (lookup_lt_is_Some_2 data i ltac:(lia)) as [x Hx].
  exists (copied data value (S i)). split; [|done].
  rewrite (bind_Done _ _ _ _ _ (load_float_lookup _ _ _ _ _ _ Ha Hx)).
  rewrite setFloat_insert by (rewrite length_copied; lia).
  by rewrite copied_step by (done || lia).
Qed.

(** The element-wise read of an int array, each element converted. *)
Lemma read_int_loop (a : addr) (o : origin) (data : list Z) (n : nat)
    (value : AnimationValue.t) (w : World) :
  heap w !! a = Some (IntArray o data) →
  (n ≤ length data)%nat → (n ≤ length value)%nat →
  for_loop (λ i value,
              z ← load_int a i;
              AnimationValue.setFloat (Z.of_nat i) (Float32.of_int z) value)
           0 n value w
    = Done (copied (Float32.of_int <$> data) value n) w.
Proof.
  intros Ha Hd Hv.
  edestruct (for_loop_invariant (λ i v, v = copied (Float32.of_int <$> data) value i)
               (λ i value, z ← load_int a i;
                  AnimationValue.setFloat (Z.of_nat i) (Float32.of_int z) value)
               w n) as (v' & Hrun & ->); [| |reflexivity|exact Hrun]; [|simpl; lia].
  intros i s Hi ->.
  destruct (lookup_lt_is_Some_2 data i ltac:(lia)) as [x Hx].
  exists (copied (Float32.of_int <$> data) value (S i)). split; [|done].
  rewrite (bind_Done _ _ _ _ _ (load_int_lookup _ _ _ _ _ _ Ha Hx)).
  rewrite setFloat_insert by (rewrite length_copied; rewrite ?length_fmap; lia).
  rewrite copied_step; [done|by rewrite list_lookup_fmap, Hx|lia].
Qed.
(** The bulk write of one element of [k] channels at offset [off]. *)
Lemma setFloat_array_block (a : addr) (o : origin) (data : list float) (off k : nat)
    (value : AnimationValue.t) (w : World) :
  a ≠ NULL → heap w !! a = Some (FloatArray o data) →
  (0 < k)%nat → (off + k ≤ length data)%nat → (off + k ≤ length value)%nat →
  AnimationValue.setFloat_array a (Z.of_nat off) (Z.of_nat k) (copied data value off) w
    = Done (copied data value (off + k)) w.
Proof.
  intros Hnull Ha Hk Hd Hv. unfold AnimationValue.setFloat_array.
  rewrite length_copied by lia.
  rewrite bool_decide_eq_true_2 by done.
  rewrite (proj2 (Z.ltb_lt _ _)), (proj2 (Z.leb_le _ _)) by lia.
  simpl GP_ASSERT. rewrite bind_ret. rewrite !Nat2Z.id.
  edestruct (for_loop_invariant (λ j v, v = copied data value (off + j))
               (λ j v, f ← load_float a (off + j);
                       AnimationValue.setFloat (Z.of_nat off + Z.of_nat j) f v)
               w k) as (v' & Hrun & ->); [| |by rewrite Nat.add_0_r|exact Hrun];
    [|simpl; lia].
  intros j s Hj ->.
  destruct (lookup_lt_is_Some_2 data (off + j) ltac:(lia)) as [x Hx].
  exists (copied data value (off + S j)). split; [|done].
  rewrite (bind_Done _ _ _ _ _ (load_float_lookup _ _ _ _ _ _ Ha Hx)).
  rewrite <- Nat2Z.inj_add.
  rewrite setFloat_insert by (rewrite length_copied; lia).
  rewrite copied_step by (done || lia). by rewrite Nat.add_succ_r.
Qed.

(** The read of [count] elements of [k] channels each. *)
Lemma read_vector_loop (a : addr) (o : origin) (data : list float) (count k : nat)
    (v : ValueUnion) (value : AnimationValue.t) (w : World) :
  v = AsPointer a → a ≠ NULL → heap w !! a = Some (FloatArray o data) →
  (0 < k)%nat → Z.of_nat (count * k) ≤ UINT_MAX →
  (count * k ≤ length data)%nat → (count * k ≤ length value)%nat →
  for_loop (λ i value,
              a ← floatPtrValue v;
              AnimationValue.setFloat_array a (uint (Z.of_nat i * Z.of_nat k)) (Z.of_nat k) value)
           0 count value w
    = Done (copied data value (count * k)) w.
Proof.
  intros -> Hnull Ha Hk Hr Hd Hv.
  edestruct (for_loop_invariant (λ i v, v = copied data value (i * k))
               (λ i value,
                  a ← floatPtrValue (AsPointer a);
                  AnimationValue.setFloat_array a (uint (Z.of_nat i * Z.of_nat k))
                    (Z.of_nat k) value)
               w count) as (v' & Hrun & ->);
    [| |reflexivity|exact Hrun]; [|simpl; lia].
  intros i s Hi ->.
  exists (copied data value (S i * k)). split; [|done].
  unfold floatPtrValue, pointerValue. rewrite bind_ret.
  rewrite uint_small by nia. rewrite <- Nat2Z.inj_mul.
  rewrite (setFloat_array_block a o) by (done || nia).
  f_equal. f_equal. lia.
Qed.
Lemma copied_prefix (data value : list float) (n : nat) :
  (n ≤ length data)%nat →
  copied data value n = take n data ++ drop (length (take n data)) value.
Proof. intros H. unfold copied. by rewrite length_take_le. Qed.

(** Reading a float cell returns, leaves the world alone, and writes the
    stored channels, in index order, over the first channels of the
    buffer. *)
Lemma read_float_channels (p : MaterialParameter) (w : World) (value : AnimationValue.t)
    (chans : list float) :
  count_in_range p →
  float_channels p w = Some chans →
  (length chans ≤ length value)%nat →
  getAnimationPropertyValue ANIMATE_UNIFORM value p w
    = Done (chans ++ drop (length chans) value) w.
Proof.
  intros [Hc0 Hc] Hch Hval.
  unfold getAnimationPropertyValue. rewrite Z.eqb_refl.
  unfold float_channels in *.
  unfold getAnimationPropertyComponentCount in *. rewrite Z.eqb_refl in *.
  destruct p as [t n d nm u v]; simpl in *.
  destruct t; try discriminate Hch; simpl in *.
  - (* FLOAT *)
    destruct (n =? 1) eqn:En.
    + assert (∃ f, chans = [f] ∧ floatValue v = mret f) as (f & -> & Hf).
      { destruct v; try discriminate Hch; injection Hch as <-; eauto. }
      destruct value as [|b value]; [simpl in Hval; lia|].
      rewrite Hf, bind_ret. reflexivity.
    + destruct v as [| | |a]; try discriminate Hch.
      apply float_array_prefix_Some in Hch as (Hnull & o & data & Ha & Hd & ->).
      unfold floatPtrValue, pointerValue. rewrite bind_ret.
      rewrite bool_decide_eq_true_2 by done. simpl GP_ASSERT. rewrite bind_ret.
      rewrite length_take_le in Hval by done.
      rewrite (read_float_loop a o data) by done.
      by rewrite copied_prefix.
  - destruct v as [| | |a]; try discriminate Hch.
    apply float_array_prefix_Some in Hch as (Hnull & o & data & Ha & Hd & ->).
    rewrite length_take_le in Hval by done.
    assert (uint (2 * n) = 2 * n) as Hu by (apply uint_small; lia).
    rewrite Hu in *.
    rewrite (read_vector_loop a o data (Z.to_nat n) 2) by (done || lia).
    replace (Z.to_nat n * 2)%nat with (Z.to_nat (2 * n)) by lia.
    by rewrite copied_prefix.
  - destruct v as [| | |a]; try discriminate Hch.
    apply float_array_prefix_Some in Hch as (Hnull & o & data & Ha & Hd & ->).
    rewrite length_take_le in Hval by done.
    assert (uint (3 * n) = 3 * n) as Hu by (apply uint_small; lia).
    rewrite Hu in *.
    rewrite (read_vector_loop a o data (Z.to_nat n) 3) by (done || lia).
    replace (Z.to_nat n * 3)%nat with (Z.to_nat (3 * n)) by lia.
    by rewrite copied_prefix.
  - destruct v as [| | |a]; try discriminate Hch.
    apply float_array_prefix_Some in Hch as (Hnull & o & data & Ha & Hd & ->).
    rewrite length_take_le in Hval by done.
    assert (uint (4 * n) = 4 * n) as Hu by (apply uint_small; lia).
    rewrite Hu in *.
    rewrite (read_vector_loop a o data (Z.to_nat n) 4) by (done || lia).
    replace (Z.to_nat n * 4)%nat with (Z.to_nat (4 * n)) by lia.
    by rewrite copied_prefix.
Qed.

(** Reading an Int cell writes the stored integers, converted to float. *)
Lemma read_int_channels (p : MaterialParameter) (w : World) (value : AnimationValue.t)
    (chans : list Z) :
  int_channels p w = Some chans →
  (length chans ≤ length value)%nat →
  getAnimationPropertyValue ANIMATE_UNIFORM value p w
    = Done ((Float32.of_int <$> chans) ++ drop (length chans) value) w.
Proof.
  intros Hch Hval.
  unfold getAnimationPropertyValue. rewrite Z.eqb_refl.
  unfold int_channels in *.
  unfold getAnimationPropertyComponentCount in *. rewrite Z.eqb_refl in *.
  destruct p as [t n d nm u v]; simpl in *.
  destruct t; try discriminate Hch; simpl in *.
  destruct (n =? 1) eqn:En.
  - assert (∃ i, chans = [i] ∧ intValue v = mret i) as (i & -> & Hi).
    { destruct v; try discriminate Hch; injection Hch as <-; eauto. }
    destruct value as [|b value]; [simpl in Hval; lia|].
    rewrite Hi, bind_ret. reflexivity.
  - destruct v as [| | |a]; try discriminate Hch.
    apply int_array_prefix_Some in Hch as (Hnull & o & data & Ha & Hd & ->).
    unfold intPtrValue, pointerValue. rewrite bind_ret.
    rewrite bool_decide_eq_true_2 by done. simpl GP_ASSERT. rewrite bind_ret.
    rewrite length_take_le in Hval by done.
    rewrite (read_int_loop a o data) by done.
    rewrite copied_prefix by (rewrite length_fmap; lia).
    by rewrite <- fmap_take, !length_fmap.
Qed.

(** ** Blending an Int cell truncates *)

Lemma zip_with_lookup_Some {A B C : Type} (f : A → B → option C) (l : list A) (k : list B)
    (rs : list C) (i : nat) (a : A) (b : B) (r : C) :
  zip_with f l k = Some <$> rs → l !! i = Some a → k !! i = Some b → rs !! i = Some r →
  f a b = Some r.
Proof.
  intros Hz Ha Hb Hr.
  assert (zip_with f l k !! i = Some (f a b)) as H1.
  { rewrite lookup_zip_with, Ha. simpl. by rewrite Hb. }
  rewrite Hz, list_lookup_fmap, Hr in H1. simpl in H1. congruence.
Qed.

Lemma to_int_Qtrunc (f : float) (q : Q) :
  Float32.to_Q f = Some q →
  Float32.INT_MIN ≤ Float32.Qtrunc q ≤ Float32.INT_MAX →
  Float32.to_int f = Some (Float32.Qtrunc q).
Proof.
  intros Hq Hr.
  assert (∃ z, Float32.trunc f = Some z) as [z Hz] by (destruct f; try done; by eexists).
  destruct (Rounding.trunc_toward_zero f z Hz) as (q' & Hq' & ->).
  assert (q' = q) as -> by congruence.
  unfold Float32.to_int. rewrite Hz.
  destruct Hr as [H1 H2].
  by rewrite (proj2 (Z.leb_le _ _) H1), (proj2 (Z.leb_le _ _) H2).
Qed.

Lemma int_blends_defined (blendWeight : float) (l : list Z) (k : list float) :
  Forall2 (int_blend_defined blendWeight) l k →
  ∃ rs, zip_with (blend_int blendWeight) l k = Some <$> rs.
Proof.
  intros H. induction H as [|z b l k (q & Hq & Hr) H [rs IH]].
  - by exists [].
  - exists (Float32.Qtrunc q :: rs). simpl. rewrite IH. f_equal.
    unfold blend_int. by apply to_int_Qtrunc.
Qed.

(** C9: blending an Int cell, scalar or array, converts each stored
    integer to float, blends it toward the input channel, and stores the
    float result back through the float-to-int conversion.  Whenever every
    blended float is finite and its truncation fits [int], the blend
    returns, and each stored integer is the value of its blended float
    truncated toward zero: the quotient of numerator by denominator rounded
    toward zero, not the nearest integer. *)
Theorem blend_int_truncates (p : MaterialParameter) (w : World) (value : AnimationValue.t)
    (blendWeight : float) (chans : list Z) :
  weight_ok blendWeight = true →
  int_channels p w = Some chans →
  (length chans ≤ length value)%nat →
  Forall2 (int_blend_defined blendWeight) chans (take (length chans) value) →
  ∃ p' w' rs,
    setAnimationPropertyValue ANIMATE_UNIFORM value blendWeight p w = Done p' w' ∧
    _type p' = INT ∧
    int_channels p' w' = Some rs ∧
    length rs = length chans ∧
    ∀ i z b r, chans !! i = Some z → value !! i = Some b → rs !! i = Some r →
      ∃ q, Float32.to_Q (Curve.lerp blendWeight (Float32.of_int z) b) = Some q ∧
           r = Float32.Qtrunc q.
Proof.
  intros Hw Hch Hval Hdef.
  destruct (int_blends_defined _ _ _ Hdef) as [rs Hrs].
  destruct (blend_int_channels p w value blendWeight chans rs Hw Hch Hval Hrs)
    as (p' & w' & Hrun & Ht & _ & _ & _ & Hch').
  exists p', w', rs. split; [done|]. split.
  { rewrite Ht. unfold int_channels in Hch. by destruct (_type p). }
  split; [done|]. split.
  { apply (f_equal length) in Hrs.
    rewrite length_zip_with, length_fmap, length_take in Hrs. lia. }
  intros i z b r Hz Hb Hr.
  apply Rounding.trunc_toward_zero, Rounding.to_int_trunc.
  apply (zip_with_lookup_Some _ _ _ _ i z b r Hrs Hz); [|done].
  rewrite lookup_take_lt; [done|]. by apply lookup_lt_Some in Hz.
Qed.

Lemma blend_int_truncates_witness :
  weight_ok Float32.one = true ∧
  int_channels Blend.int_zero Scene.world = Some [0] ∧
  Forall2 (int_blend_defined Float32.one) [0] [Blend.two_and_three_quarters] ∧
  Float32.to_Q (Curve.lerp Float32.one (Float32.of_int 0) Blend.two_and_three_quarters)
    = Some (11534336 # 4194304)%Q ∧
  Float32.Qtrunc (11534336 # 4194304)%Q = 2 ∧
  ∃ p' w' rs,
    setAnimationPropertyValue ANIMATE_UNIFORM [Blend.two_and_three_quarters] Float32.one
      Blend.int_zero Scene.world = Done p' w' ∧
    _type p' = INT ∧
    int_channels p' w' = Some rs ∧
    length rs = 1%nat ∧
    ∀ i z b r, [0] !! i = Some z → [Blend.two_and_three_quarters] !! i = Some b →
               rs !! i = Some r →
      ∃ q, Float32.to_Q (Curve.lerp Float32.one (Float32.of_int z) b) = Some q ∧
           r = Float32.Qtrunc q.
Proof.
  assert (H1 : weight_ok Float32.one = true) by reflexivity.
  assert (H2 : int_channels Blend.int_zero Scene.world = Some [0]) by reflexivity.
  assert (H3 : (length [0] ≤ length [Blend.two_and_three_quarters])%nat) by (simpl; lia).
  assert (H4 : Forall2 (int_blend_defined Float32.one) [0]
                 (take (length [0]) [Blend.two_and_three_quarters])).
  { repeat constructor. exists (11534336 # 4194304)%Q.
    split; [reflexivity|]. vm_compute. split; congruence. }
  split; [exact H1|]. split; [exact H2|]. split; [exact H4|].
  split; [reflexivity|]. split; [reflexivity|].
  exact (blend_int_truncates Blend.int_zero Scene.world [Blend.two_and_three_quarters]
           Float32.one [0] H1 H2 H3 H4).
Defined.

(** ** Blending at the end points of the weight range *)





(** The float constants of the scenes denote the numbers in their names,
    and are floats proper. *)
Example blend_constants :
  from_option (Qeq_bool (5 # 2)) false (Float32.to_Q Blend.two_and_a_half) = true ∧
  from_option (Qeq_bool (11 # 4)) false (Float32.to_Q Blend.two_and_three_quarters) = true ∧
  from_option (Qeq_bool (1 # 1)) false (Float32.to_Q Float32.one) = true ∧
  from_option (Qeq_bool (1 # 2)) false (Float32.to_Q Scenario.half) = true ∧
  forallb Float32.valid
    [Blend.two_and_a_half; Blend.two_and_three_quarters; Float32.one; Scenario.half;
     Blend.max_float; Scenario.three_and_a_half; Scenario.four_and_a_half] = true.
Proof. vm_compute. repeat split. Qed.


(** The restrictions of the amended statement are needed.  At weight 1 a
    Float cell holding [2^25] blended toward 1 ends at 0, because [1 - 2^25]
    is not a float; at weight 0 an Int cell holding [2^24 + 1] ends at
    [2^24], because the integer is not a float; at weight 0 the largest
    float blended toward its negative ends as NaN, because the difference
    overflows. *)
Lemma blend_endpoints_need_exactness :
  float_channels_of (Blend.blend1 Blend.float_large Float32.one Float32.one)
    = Some [Float32.zero] ∧
  int_channels_of (Blend.blend1 Blend.int_large Float32.zero Float32.zero)
    = Some [16777216] ∧
  float_channels_of (Blend.blend1 Blend.float_max (SFopp Blend.max_float) Float32.zero)
    = Some [S754_nan].
Proof. vm_compute. repeat split. Qed.

Lemma weight_ok_one : weight_ok Float32.one = true.
Proof. reflexivity. Qed.

Lemma Blend_vector3 : Blend.vector3 = Done Blend.vector3_param Blend.vector3_world.
Proof. reflexivity. Qed.



(** ** Reading, then blending the result back with weight 1 *)

(** C6, as stated, fails on the Int kind: the channel buffer holds floats,
    and the Int cell holding [2^24 + 1] reads as [2^24]; blending that back
    with weight 1 leaves [2^24] in the cell. *)
Lemma read_blend_changes_large_int :
  int_channels Blend.int_large Scene.world = Some [16777217] ∧
  int_channels_of (Blend.read_blend1 Blend.int_large) = Some [16777216] ∧
  int_channels_of (Blend.read_blend1 Blend.int_large)
    ≠ int_channels Blend.int_large Scene.world.
Proof. vm_compute. repeat split. congruence. Qed.

(** The finiteness restriction of the amended statement is needed: a Float
    cell holding infinity reads as infinity, and blending that back with
    weight 1 leaves NaN, because infinity minus infinity is NaN. *)
Lemma read_blend_changes_infinity :
  float_channels Blend.float_inf Scene.world = Some [S754_infinity false] ∧
  float_channels_of (Blend.read_blend1 Blend.float_inf) = Some [S754_nan].
Proof. vm_compute. repeat split. Qed.

Lemma Forall2_zip_with_same {A : Type} (P : A → Prop) (Q : A → A → Prop) (f : A → A → A)
    (l : list A) :
  Forall P l → (∀ a, P a → Q a (f a a)) → Forall2 Q l (zip_with f l l).
Proof. intros H HPQ. induction H; simpl; constructor; auto. Qed.

Lemma zip_with_fmap_same {A B C : Type} (g : A → B → option C) (h : A → B) (r : A → C)
    (l : list A) :
  Forall (λ a, g a (h a) = Some (r a)) l → zip_with g l (h <$> l) = Some <$> (r <$> l).
Proof. intros H. induction H as [|a l Ha H IH]; csimpl; [done|]. by rewrite Ha, IH. Qed.

Lemma float_kind_range (p : MaterialParameter) (w : World) (chans : list float) :
  count_in_range p → float_channels p w = Some chans → 0 ≤ _count p ≤ UINT_MAX.
Proof.
  intros [H0 H1] Hch. unfold float_channels in Hch.
  destruct (_type p); try discriminate Hch; simpl in H1; lia.
Qed.

(** C6 (amended): for a Float, Vector2, Vector3 or Vector4 cell whose
    stored channels are all finite, reading into a buffer and then blending
    that buffer back with weight 1 returns and leaves every stored channel
    with its pre-read value (a stored negative zero may become the positive
    zero); for an Int cell whose stored integers are all below [2^24] in
    magnitude it leaves every stored integer as it was. *)
Theorem read_then_blend (p : MaterialParameter) (w : World) (value : AnimationValue.t) :
  count_in_range p →
  (∀ chans, float_channels p w = Some chans → (length chans ≤ length value)%nat →
     Forall (λ a, Float32.is_finite a = true) chans →
     ∃ value' chans',
       getAnimationPropertyValue ANIMATE_UNIFORM value p w = Done value' w ∧
       float_channels_of
         (setAnimationPropertyValue ANIMATE_UNIFORM value' Float32.one p w) = Some chans' ∧
       Forall2 kept chans chans') ∧
  (∀ chans, int_channels p w = Some chans → (length chans ≤ length value)%nat →
     Forall small_int chans →
     ∃ value',
       getAnimationPropertyValue ANIMATE_UNIFORM value p w = Done value' w ∧
       int_channels_of
         (setAnimationPropertyValue ANIMATE_UNIFORM value' Float32.one p w) = Some chans).
Proof.
  intros Hc. split.
  - intros chans Hch Hval Hfin.
    pose proof (float_kind_range p w chans Hc Hch) as Hr.
    eexists _, _. split; [by apply read_float_channels|].
    set (value' := chans ++ drop (length chans) value).
    assert (length chans ≤ length value')%nat as Hval'
      by (unfold value'; rewrite length_app; lia).
    destruct (blend_float_channels p w value' Float32.one chans weight_ok_one Hr Hch Hval')
      as (p' & w' & -> & _ & _ & _ & _ & Hch').
    split; [exact Hch'|].
    unfold value'. rewrite take_app_length.
    apply (Forall2_zip_with_same (λ a, Float32.is_finite a = true)); [done|].
    intros a Ha. by apply Float32Facts.lerp_one_same.
  - intros chans Hch Hval Hsmall.
    eexists. split; [by apply read_int_channels|].
    set (value' := (Float32.of_int <$> chans) ++ drop (length chans) value).
    assert (length chans ≤ length value')%nat as Hval'
      by (unfold value'; rewrite length_app, length_fmap; lia).
    destruct (blend_int_channels p w value' Float32.one chans chans weight_ok_one Hch Hval')
      as (p' & w' & -> & _ & _ & _ & _ & Hch'); [|done].
    unfold value'. rewrite take_app_length' by (by rewrite length_fmap).
    rewrite <- (list_fmap_id chans) at 3.
    apply zip_with_fmap_same.
    eapply Forall_impl; [exact Hsmall|].
    intros z Hz. by apply Rounding.blend_int_same.
Qed.

Lemma read_then_blend_witness :
  count_in_range Blend.vector3_param ∧
  float_channels Blend.vector3_param Blend.vector3_world
    = Some [Scene.f 1; Scene.f 2; Scene.f 3] ∧
  ∃ value' chans',
    getAnimationPropertyValue ANIMATE_UNIFORM (replicate 3 Float32.zero)
      Blend.vector3_param Blend.vector3_world = Done value' Blend.vector3_world ∧
    float_channels_of
      (setAnimationPropertyValue ANIMATE_UNIFORM value' Float32.one
         Blend.vector3_param Blend.vector3_world) = Some chans' ∧
    Forall2 kept [Scene.f 1; Scene.f 2; Scene.f 3] chans'.
Proof.
  assert (H1 : count_in_range Blend.vector3_param) by (vm_compute; split; congruence).
  assert (H2 : float_channels Blend.vector3_param Blend.vector3_world
               = Some [Scene.f 1; Scene.f 2; Scene.f 3]) by reflexivity.
  split; [exact H1|]. split; [exact H2|].
  destruct (read_then_blend Blend.vector3_param Blend.vector3_world
              (replicate 3 Float32.zero) H1) as [Hfloat _].
  apply (Hfloat _ H2); [simpl; lia|].
  repeat constructor.
Defined.

(** ** Cloning a Vector3 parameter *)

Lemma clearValue_zeroed (p : MaterialParameter) (w : World) :
  _value p = AllZero → clearValue p w = Done (cleared p) w.
Proof.
  intros Hv. unfold clearValue, cleared. rewrite Hv.
  destruct p as [t n d nm u v]; simpl in *.
  destruct d, t; reflexivity.
Qed.

(** C5: cloning a Vector3 parameter into a parameter whose payload is
    zeroed, as the constructor leaves it.  With [_count == 1] the clone
    holds the same three values in an array of its own, freshly allocated
    and owned by the clone: blending the clone changes that array and
    leaves the original's storage and value untouched.  With [_count > 1]
    nothing is allocated and the clone stores the very pointer the original
    stores, so both read the same external buffer. *)
Theorem cloneInto_Vector3 (this target : MaterialParameter) (w : World) (a : addr)
    (o : origin) (data : list float) :
  _type this = VECTOR3 → _value this = AsPointer a → a ≠ NULL →
  heap w !! a = Some (FloatArray o data) → (3 ≤ length data)%nat →
  _value target = AllZero →
  (_count this = 1 →
   ∃ clone a' w',
     cloneInto this target w = Done clone w' ∧
     _type clone = VECTOR3 ∧ _count clone = 1 ∧ _dynamic clone = true ∧
     _value clone = AsPointer a' ∧
     a' ≠ a ∧ a' ≠ NULL ∧ heap w !! a' = None ∧
     heap w' = <[a' := FloatArray NewArray (take 3 data)]> (heap w) ∧
     float_channels this w = Some (take 3 data) ∧
     float_channels clone w' = Some (take 3 data) ∧
     float_channels this w' = Some (take 3 data) ∧
     ∀ value blendWeight,
       weight_ok blendWeight = true → (3 ≤ length value)%nat →
       ∃ w'',
         setAnimationPropertyValue ANIMATE_UNIFORM value blendWeight clone w'
           = Done clone w'' ∧
         float_channels clone w''
           = Some (zip_with (Curve.lerp blendWeight) (take 3 data) (take 3 value)) ∧
         heap w'' !! a = Some (FloatArray o data) ∧
         float_channels this w'' = Some (take 3 data)) ∧
  (1 < _count this →
   ∃ clone,
     cloneInto this target w = Done clone w ∧
     _type clone = VECTOR3 ∧ _count clone = _count this ∧ _dynamic clone = false ∧
     _value clone = _value this ∧
     ∀ w'', float_channels clone w'' = float_channels this w'').
Proof.
  intros Ht Hv Hnull Ha Hlen Hz.
  destruct this as [t n d nm u v]. destruct target as [t' n' d' nm' u' v'].
  simpl in *. subst t v v'. split.
  - intros ->.
    destruct data as [|x [|y [|z rest]]]; simpl in Hlen; try lia.
    destruct (fresh_addr_spec (heap w)) as [Hf0 Hf].
    set (a' := fresh_addr (heap w)) in *.
    assert (a' ≠ a) as Hne by (intros ->; congruence).
    set (clone := {| _type := VECTOR3; _count := 1; _dynamic := true; _name := nm';
                     _uniform := u; _value := AsPointer a' |}).
    set (w' := {| heap := <[a' := FloatArray NewArray [x; y; z]]> (heap w);
                  trace := trace w ++ [EvNewArray a' 3] |}).
    assert (cloneInto {| _type := VECTOR3; _count := 1; _dynamic := d; _name := nm;
                         _uniform := u; _value := AsPointer a |}
                      {| _type := t'; _count := n'; _dynamic := d'; _name := nm';
                         _uniform := u'; _value := AllZero |} w = Done clone w') as Hrun.
    { unfold cloneInto. cbn [_type _count _dynamic _name _uniform _value].
      unfold floatPtrValue, pointerValue. rewrite bind_ret. cbn [Z.eqb Pos.eqb].
      rewrite bool_decide_eq_true_2 by done. simpl GP_ASSERT. rewrite bind_ret.
      unfold setValue_Vector3.
      erewrite bind_Done by (apply clearValue_zeroed; reflexivity).
      assert (deref_Vector3 a w
              = Done {| Vector3.x := x; Vector3.y := y; Vector3.z := z |} w) as Hderef.
      { unfold deref_Vector3, load_floats. unfold mbind, M_bind. rewrite Ha.
        rewrite decide_True by (simpl; lia). cbn [take]. by rewrite take_0. }
      rewrite (bind_Done _ _ _ _ _ Hderef). reflexivity. }
    assert (float_channels clone w' = Some [x; y; z]) as Hcw.
    { unfold float_channels, float_array_prefix. simpl.
      rewrite decide_False by done. rewrite lookup_insert_eq. reflexivity. }
    assert (∀ w0, heap w0 !! a = Some (FloatArray o (x :: y :: z :: rest)) →
              float_channels {| _type := VECTOR3; _count := 1; _dynamic := d; _name := nm;
                                _uniform := u; _value := AsPointer a |} w0
              = Some [x; y; z]) as Hthis.
    { intros w0 H0. unfold float_channels, float_array_prefix. simpl.
      rewrite decide_False by done. rewrite H0. reflexivity. }
    exists clone, a', w'. split; [exact Hrun|].
    split; [done|]. split; [done|]. split; [done|]. split; [done|].
    split; [done|]. split; [done|]. split; [done|]. split; [done|].
    split; [by apply Hthis|]. split; [exact Hcw|].
    split; [apply Hthis; simpl; by rewrite lookup_insert_ne|].
    intros value blendWeight Hw Hval.
    assert (applyAnimationValue value blendWeight 3 clone w'
            = Done tt (with_heap
                (<[a' := FloatArray NewArray (blend_floats blendWeight [x; y; z] value 3)]>
                   (heap w')) w')) as Happly.
    { apply (applyAnimationValue_spec value blendWeight 3 clone w' a' NewArray [x; y; z]);
        [done|done|simpl; apply lookup_insert_eq| |];
        change (Z.to_nat (uint (_count clone * 3))) with 3%nat; simpl; lia. }
    eexists. split; [|split; [|split]].
    + unfold setAnimationPropertyValue.
      rewrite (bind_Done _ _ _ _ _ (weight_ok_assert _ _ Hw)).
      rewrite Z.eqb_refl. cbn [_type clone].
      rewrite (bind_Done _ _ _ _ _ Happly). reflexivity.
    + unfold float_channels. cbn [_type _value clone].
      change (Z.to_nat (getAnimationPropertyComponentCount ANIMATE_UNIFORM clone))
        with 3%nat.
      unfold float_array_prefix. rewrite decide_False by done.
      cbn [heap with_heap]. rewrite lookup_insert_eq.
      rewrite decide_True by (rewrite length_blend_floats; simpl; lia).
      rewrite take_blend_floats by (simpl; lia). reflexivity.
    + simpl. rewrite !lookup_insert_ne by done. exact Ha.
    + apply Hthis. simpl. rewrite !lookup_insert_ne by done. exact Ha.
  - intros Hn.
    assert ((n =? 1) = false) as En by (apply Z.eqb_neq; lia).
    eexists. split.
    + unfold cloneInto. cbn [_type _count _dynamic _name _uniform _value].
      unfold floatPtrValue, pointerValue. rewrite bind_ret. rewrite En.
      unfold setValue_Vector3Array.
      rewrite bool_decide_eq_true_2 by done. simpl GP_ASSERT. rewrite bind_ret.
      erewrite bind_Done by (apply clearValue_zeroed; reflexivity).
      reflexivity.
    + repeat split.
Qed.
Lemma cloneInto_Vector3_witness :
  _type Blend.vector3_param = VECTOR3 ∧
  _value Blend.vector3_param = AsPointer 8%N ∧
  8%N ≠ NULL ∧
  heap Blend.vector3_world !! 8%N
    = Some (FloatArray NewArray [Scene.f 1; Scene.f 2; Scene.f 3]) ∧
  (3 ≤ length [Scene.f 1; Scene.f 2; Scene.f 3])%nat ∧
  _value (Scene.fresh "u_position") = AllZero ∧
  _count Blend.vector3_param = 1 ∧
  ∃ clone a' w',
    cloneInto Blend.vector3_param (Scene.fresh "u_position") Blend.vector3_world
      = Done clone w' ∧
    _dynamic clone = true ∧ _value clone = AsPointer a' ∧ a' ≠ 8%N ∧
    float_channels clone w' = Some [Scene.f 1; Scene.f 2; Scene.f 3].
Proof.
  assert (H1 : _type Blend.vector3_param = VECTOR3) by reflexivity.
  assert (H2 : _value Blend.vector3_param = AsPointer 8%N) by reflexivity.
  assert (H3 : 8%N ≠ NULL) by (vm_compute; congruence).
  assert (H4 : heap Blend.vector3_world !! 8%N
               = Some (FloatArray NewArray [Scene.f 1; Scene.f 2; Scene.f 3]))
    by reflexivity.
  assert (H5 : (3 ≤ length [Scene.f 1; Scene.f 2; Scene.f 3])%nat) by (simpl; lia).
  assert (H6 : _value (Scene.fresh "u_position") = AllZero) by reflexivity.
  assert (H7 : _count Blend.vector3_param = 1) by reflexivity.
  do 7 (split; [assumption|]).
  destruct (cloneInto_Vector3 Blend.vector3_param (Scene.fresh "u_position")
              Blend.vector3_world 8%N NewArray [Scene.f 1; Scene.f 2; Scene.f 3]
              H1 H2 H3 H4 H5 H6) as [Hone _].
  destruct (Hone H7) as (clone & a' & w' & Hrun & _ & _ & Hd & Hv & Hne & _ & _ & _ & _ & Hch & _).
  exists clone, a', w'. by repeat split.
Defined.

(** ** The scenarios of the specification, run on the model *)

Example scenario_vector3_read_and_blend :
  result Scenario.read = Some [Scene.f 1; Scene.f 2; Scene.f 3] ∧
  float_channels_of Scenario.blend
    = Some [Blend.two_and_a_half; Scenario.three_and_a_half; Scenario.four_and_a_half].
Proof. vm_compute. repeat split. Qed.

(** A cell that already owns a single matrix is overwritten in place: one
    allocation serves both calls. *)
Example scenario_matrix_in_place :
  _type <$> result Scenario.matrix_twice = Some MATRIX ∧
  trace (world_of Scenario.matrix_twice) = [EvNewArray 8%N 16].
Proof. vm_compute. repeat split. Qed.

(** An Int array blended toward fractional inputs keeps the integer parts,
    also below zero: -3.5 is stored as -3. *)
Example scenario_int_array_truncation :
  from_option (Qeq_bool (21 # 2)) false (Float32.to_Q Scenario.ten_and_a_half) = true ∧
  from_option (Qeq_bool (103 # 4)) false
    (Float32.to_Q Scenario.twenty_five_and_three_quarters) = true ∧
  from_option (Qeq_bool (-7 # 2)) false
    (Float32.to_Q Scenario.minus_three_and_a_half) = true ∧
  int_channels Blend.int_array Scene.world = Some [10; 20; 30] ∧
  int_channels_of Scenario.blend_int_array = Some [10; 25; -3].
Proof. vm_compute. repeat split. Qed.

(** ** Sequences of calls *)

Lemma clearValue_Done (p p' : MaterialParameter) (w w' : World) :
  clearValue p w = Done p' w' → p' = cleared p.
Proof.
  unfold clearValue, cleared. destruct p as [t n d nm u v]; simpl.
  unfold SAFE_DELETE_ARRAY_float, SAFE_DELETE_ARRAY_int, SAFE_RELEASE,
      floatPtrValue, intPtrValue, method, samplerValue, pointerValue,
      delete_float_array, delete_int_array, release.
  destruct d, t, v as [| | |a]; unfold_M; repeat case_decide;
    repeat match goal with
           | |- context [heap w !! ?a] => destruct (heap w !! a) as [[[]|[]|]|]
           end;
    simpl; try discriminate; by intros [= <- _].
Qed.

Lemma holds_clearValue (h0 : gmap addr block) (p : MaterialParameter) (w : World) :
  holds h0 p w → ∃ w', clearValue p w = Done (cleared p) w' ∧ heap w' = h0.
Proof.
  intros H. destruct p as [t n d nm u v].
  destruct H as [Ht Hd Hv Hh|f Ht Hd Hv Hh|i Ht Hd Hv Hh|a Ht Hd Hv Hh
                |a data Ht Hd Hn Hv Ha H0 Hh Hl|a obj k Ht Hd Hv Ha H0 Hh];
    simpl in *; subst.
  - exists w. by rewrite clearValue_zeroed.
  - exists w. done.
  - exists w. done.
  - exists w. split; [|done].
    unfold clearValue, cleared; simpl.
    repeat (apply elem_of_cons in Ht as [->|Ht]; [reflexivity|]).
    by apply elem_of_nil in Ht.
  - exists {| heap := delete a (heap w); trace := trace w ++ [EvDeleteArray a] |}. split.
    + unfold clearValue, cleared; simpl.
      unfold SAFE_DELETE_ARRAY_float, floatPtrValue, pointerValue, delete_float_array.
      rewrite !elem_of_cons in Ht.
      destruct Ht as [->|[->|[->|[->|[]%elem_of_nil]]]]; unfold_M;
        rewrite decide_False by done; cbv beta; rewrite Hh, lookup_insert_eq; reflexivity.
    + simpl. rewrite Hh. by apply delete_insert_id.
  - eexists. split.
    + unfold clearValue, cleared; simpl.
      unfold samplerValue, pointerValue, release. unfold_M.
      rewrite decide_False by done. cbv beta. rewrite Hh, lookup_insert_eq. reflexivity.
    + simpl. rewrite decide_False by lia.
      rewrite insert_insert_eq.
      replace (Pos.pred (k + 1)) with k by lia. by apply insert_id.
Qed.

(** [bind] reads the cell and talks to the effect; it writes [_uniform]
    and nothing else. *)
Lemma bind_upload_world (effect : Effect) (u : Uniform) (p : MaterialParameter) (w : World) :
  heap (world_of (bind_upload effect u p w)) = heap w ∧
  ∃ evs, trace (world_of (bind_upload effect u p w)) = trace w ++ evs ∧ (length evs ≤ 1)%nat.
Proof.
  unfold bind_upload, Effect_setValue, floatValue, intValue, floatPtrValue, intPtrValue,
    samplerValue, method, pointerValue.
  destruct (_type p), (_count p =? 1), (_value p) as [| | |a]; unfold_M;
    try (case_bool_decide; simpl);
    (split; [reflexivity|]);
    first [ exists []; rewrite app_nil_r; split; [reflexivity|simpl; lia]
          | eexists [_]; simpl; split; [reflexivity|lia] ].
Qed.

Lemma bind_world (effect : Effect) (p : MaterialParameter) (w : World) :
  heap (world_of (bind effect p w)) = heap w ∧
  (∃ evs, trace (world_of (bind effect p w)) = trace w ++ evs ∧ (length evs ≤ 1)%nat) ∧
  ∀ p', result (bind effect p w) = Some p' →
        with_uniform (_uniform p) p' = p ∧
        (_uniform p' = _uniform p ∨ _uniform p' = getUniform effect (_name p)).
Proof.
  unfold bind.
  set (p1 := if match _uniform p with
                | Some u => bool_decide (uniform_effect u ≠ effect_addr effect)
                | None => true
                end
             then with_uniform (getUniform effect (_name p)) p else p).
  assert (with_uniform (_uniform p) p1 = p ∧
          (_uniform p1 = _uniform p ∨ _uniform p1 = getUniform effect (_name p))) as Hp1.
  { unfold p1. destruct p as [t n d nm u v]; simpl.
    destruct (match u with Some _ => _ | None => _ end); simpl; auto. }
  clearbody p1.
  destruct (_uniform p1) as [u1|] eqn:Eu.
  - destruct (bind_upload_world effect u1 p1 w) as [Hh Ht].
    unfold mbind, M_bind.
    destruct (bind_upload effect u1 p1 w) as [[] w1|f w1]; simpl in *.
    + split; [done|]. split; [done|]. intros p' [= <-]. by rewrite Eu.
    + split; [done|]. split; [done|]. discriminate.
  - unfold_M. split; [done|]. split.
    + eexists [_]. split; [reflexivity|simpl; lia].
    + intros p' [= <-]. by rewrite Eu.
Qed.

(** The kinds named in [holds]. *)
Lemma in_kinds (t : ParamType) (l : list ParamType) :
  bool_decide (t ∈ l) = true → t ∈ l.
Proof. apply bool_decide_eq_true. Qed.

Lemma holds_tags (h0 : gmap addr block) (p p' : MaterialParameter) (w w' : World) :
  holds h0 p w →
  _type p' = _type p → _count p' = _count p → _dynamic p' = _dynamic p →
  _value p' = _value p → heap w' = heap w →
  holds h0 p' w'.
Proof.
  intros H Ht Hn Hd Hv Hh.
  destruct H; [eapply holds_nothing|eapply holds_float|eapply holds_int
              |eapply holds_borrowed|eapply holds_owned|eapply holds_sampler];
    rewrite ?Ht, ?Hn, ?Hd, ?Hv, ?Hh; eauto.
Qed.

Lemma new_float_array_Done (data : list float) (w : World) :
  new_float_array data w
    = Done (fresh_addr (heap w))
        {| heap := <[fresh_addr (heap w) := FloatArray NewArray data]> (heap w);
           trace := trace w ++ [EvNewArray (fresh_addr (heap w)) (length data)] |}.
Proof. reflexivity. Qed.

Lemma ret_bind {A B : Type} (a : A) (k : A → M B) : (mret a ≫= k) = k a.
Proof. reflexivity. Qed.

(** The two paths of [setValue(const Matrix&)]. *)
Lemma setValue_Matrix_in_place (v : Matrix.t) (p : MaterialParameter) (w : World)
    (a : addr) (o : origin) (data : list float) :
  _dynamic p = true → _count p = 1 → _type p = MATRIX → _value p = AsPointer a →
  a ≠ NULL → heap w !! a = Some (FloatArray o data) →
  (16 ≤ length data)%nat →
  setValue_Matrix (temporary v) p w
    = if decide (16 ≤ length (Matrix.m v))%nat
      then Done p (with_heap
                     (<[a := FloatArray o (take 16 (Matrix.m v) ++ drop 16 data)]> (heap w)) w)
      else Abort UndefinedBehaviour w.
Proof.
  intros Hd Hn Ht Hv Ha Hh Hl. unfold setValue_Matrix, temporary.
  rewrite Hd, Hn, Ht, Hv. cbn [andb Z.eqb Pos.eqb]. rewrite bool_decide_eq_true_2 by done.
  unfold floatPtrValue, pointerValue. rewrite !ret_bind.
  rewrite bool_decide_eq_true_2 by done. rewrite !ret_bind.
  rewrite Hv, !ret_bind.
  unfold read_floats. destruct (decide (16 ≤ length (Matrix.m v))%nat) as [Hm|Hm];
    [|reflexivity].
  rewrite ret_bind.
  unfold memcpy_floats. unfold mbind, M_bind. rewrite Hh.
  rewrite length_take_le by done. rewrite decide_True by done.
  simpl. f_equal. destruct p; simpl in *; by subst.
Qed.

Lemma setValue_Matrix_allocates (v : Matrix.t) (p : MaterialParameter) (w w1 : World) :
  _dynamic p && (_count p =? 1) && bool_decide (_type p = MATRIX) = false →
  clearValue p w = Done (cleared p) w1 →
  setValue_Matrix (temporary v) p w
    = if decide (16 ≤ length (Matrix.m v))%nat
      then Done (with_value MATRIX 1 true (AsPointer (fresh_addr (heap w1))) (cleared p))
             {| heap := <[fresh_addr (heap w1) := FloatArray NewArray (take 16 (Matrix.m v))]>
                          (heap w1);
                trace := trace w1 ++ [EvNewArray (fresh_addr (heap w1)) 16] |}
      else Abort UndefinedBehaviour
             {| heap := <[fresh_addr (heap w1) := FloatArray NewArray (replicate 16 Float32.zero)]>
                          (heap w1);
                trace := trace w1 ++ [EvNewArray (fresh_addr (heap w1)) 16] |}.
Proof.
  intros Hr Hc. unfold setValue_Matrix, temporary.
  rewrite Hr, !ret_bind.
  unfold mbind at 1, M_bind at 1. unfold mbind at 1, M_bind at 1. rewrite Hc.
  unfold mbind at 1, M_bind at 1. rewrite new_float_array_Done.
  unfold mret at 1, M_ret at 1. cbn [_value with_value].
  unfold floatPtrValue, pointerValue. rewrite !ret_bind.
  unfold read_floats. destruct (decide (16 ≤ length (Matrix.m v))%nat) as [Hm|Hm].
  - rewrite ret_bind. unfold memcpy_floats. unfold mbind, M_bind. cbn [heap].
    rewrite lookup_insert_eq. rewrite length_take_le by done.
    rewrite decide_True by (rewrite length_replicate; lia).
    unfold with_heap. cbn [heap trace]. rewrite insert_insert_eq.
    rewrite drop_ge by (rewrite length_replicate; lia). by rewrite app_nil_r.
  - reflexivity.
Qed.

(** Every call that returns leaves the parameter holding its value in one
    of the ways of [holds]. *)
Lemma run_holds (h0 : gmap addr block) (c : Client.call) (p p' : MaterialParameter)
    (w w' : World) :
  holds h0 p w → Client.run c p w = Done p' w' → holds h0 p' w'.
Proof.
  intros H.
  destruct (holds_clearValue h0 p w H) as (w1 & Hc & Hh1). subst h0.
  destruct (fresh_addr_spec (heap w1)) as [Hf0 Hf].
  destruct c; simpl;
    unfold setValue_float, setValue_int, setValue_floatArray, setValue_intArray,
      setValue_Vector2, setValue_Vector3, setValue_Vector4,
      setValue_Vector2Array, setValue_Vector3Array, setValue_Vector4Array,
      setValue_MatrixArray, setValue_Sampler, temporary.
  - (* clear *)
    rewrite Hc. intros [= <- <-]. by apply holds_nothing.
  - rewrite (bind_Done _ _ _ _ _ Hc). intros [= <- <-]. by eapply holds_float.
  - rewrite (bind_Done _ _ _ _ _ Hc). intros [= <- <-]. by eapply holds_int.
  - rewrite (bind_Done _ _ _ _ _ Hc). intros [= <- <-].
    eapply holds_borrowed; [|done..]. apply in_kinds; reflexivity.
  - rewrite (bind_Done _ _ _ _ _ Hc). intros [= <- <-].
    eapply holds_borrowed; [|done..]. apply in_kinds; reflexivity.
  - rewrite (bind_Done _ _ _ _ _ Hc), bind_ret.
    rewrite (bind_Done _ _ _ _ _ (new_float_array_Done _ _)). intros [= <- <-].
    eapply holds_owned; simpl; try done; [apply in_kinds; reflexivity|reflexivity..].
  - case_bool_decide; [|discriminate]. simpl GP_ASSERT. rewrite bind_ret.
    rewrite (bind_Done _ _ _ _ _ Hc). intros [= <- <-].
    eapply holds_borrowed; [|done..]. apply in_kinds; reflexivity.
  - rewrite (bind_Done _ _ _ _ _ Hc), bind_ret.
    rewrite (bind_Done _ _ _ _ _ (new_float_array_Done _ _)). intros [= <- <-].
    eapply holds_owned; simpl; try done; [apply in_kinds; reflexivity|reflexivity..].
  - case_bool_decide; [|discriminate]. simpl GP_ASSERT. rewrite bind_ret.
    rewrite (bind_Done _ _ _ _ _ Hc). intros [= <- <-].
    eapply holds_borrowed; [|done..]. apply in_kinds; reflexivity.
  - rewrite (bind_Done _ _ _ _ _ Hc), bind_ret.
    rewrite (bind_Done _ _ _ _ _ (new_float_array_Done _ _)). intros [= <- <-].
    eapply holds_owned; simpl; try done; [apply in_kinds; reflexivity|reflexivity..].
  - case_bool_decide; [|discriminate]. simpl GP_ASSERT. rewrite bind_ret.
    rewrite (bind_Done _ _ _ _ _ Hc). intros [= <- <-].
    eapply holds_borrowed; [|done..]. apply in_kinds; reflexivity.
  - (* set_Matrix *)
    assert (∀ w2,
      (if decide (16 ≤ length (Matrix.m value))%nat
       then Done (with_value MATRIX 1 true (AsPointer (fresh_addr (heap w1))) (cleared p))
              {| heap := <[fresh_addr (heap w1)
                           := FloatArray NewArray (take 16 (Matrix.m value))]> (heap w1);
                 trace := trace w1 ++ [EvNewArray (fresh_addr (heap w1)) 16] |}
       else Abort UndefinedBehaviour w2) = Done p' w' →
      holds (heap w1) p' w') as Halloc.
    { intros w2. case_decide as Hm; [|discriminate]. intros [= <- <-].
      eapply holds_owned; simpl; try done; [apply in_kinds; reflexivity|].
      rewrite length_take_le; [done|lia]. }
    change (setValue_Matrix (mret value) p w) with (setValue_Matrix (temporary value) p w).
    destruct H as [Ht Hd Hv Hh|f Ht Hd Hv Hh|i Ht Hd Hv Hh|a Ht Hd Hv Hh
                  |a data Ht Hd Hn Hv Ha H0 Hh Hl|a obj k Ht Hd Hv Ha H0 Hh];
      try (rewrite (setValue_Matrix_allocates value p w w1)
             by (first [exact Hc | rewrite Hd; reflexivity]); by apply Halloc).
    destruct (decide (_type p = MATRIX)) as [Hm|Hm].
    + rewrite (setValue_Matrix_in_place value p w a NewArray data);
        [|done|done|done|done|done|by rewrite Hh, lookup_insert_eq
         |rewrite Hl, Hm; simpl; lia].
      case_decide as Hlen; [|discriminate]. intros [= <- <-].
      eapply (holds_owned _ _ _ a (take 16 (Matrix.m value) ++ drop 16 data));
        simpl; try done.
      * by rewrite Hh, insert_insert_eq.
      * rewrite length_app, length_take_le, length_drop by done.
        rewrite Hl, Hm. simpl. lia.
    + rewrite (setValue_Matrix_allocates value p w w1);
        [by apply Halloc| |done].
      rewrite bool_decide_eq_false_2 by done. by rewrite andb_false_r.
  - case_bool_decide; [|discriminate]. simpl GP_ASSERT. rewrite bind_ret.
    rewrite (bind_Done _ _ _ _ _ Hc). intros [= <- <-].
    eapply holds_borrowed; [|done..]. apply in_kinds; reflexivity.
  - (* set_Sampler *)
    rewrite (bind_Done _ _ _ _ _ Hc).
    case_decide as Hs.
    + unfold addRef. unfold mbind, M_bind.
      destruct (heap w1 !! sampler) as [[| |obj n]|] eqn:Es; try discriminate.
      simpl. intros [= <- <-].
      eapply holds_sampler; simpl; try done.
    + intros [= <- <-]. by apply holds_nothing.
  - (* bind_to *)
    intros Hb. destruct (bind_world effect p w) as (Hh & _ & Hp).
    rewrite Hb in Hh, Hp. simpl in *.
    destruct (Hp p' eq_refl) as [Hp' _].
    apply (holds_tags _ p p' w w' H); [by rewrite <- Hp'..|done].
Qed.

Lemma run_all_holds (h0 : gmap addr block) (cs : list Client.call)
    (p p' : MaterialParameter) (w w' : World) :
  holds h0 p w → Client.run_all cs p w = Done p' w' → holds h0 p' w'.
Proof.
  revert p w. induction cs as [|c cs IH]; intros p w H.
  - by intros [= <- <-].
  - cbn [Client.run_all]. unfold mbind, M_bind.
    destruct (Client.run c p w) as [p1 w1|f w1] eqn:E; [|discriminate].
    intros Hrest. eapply IH; [|exact Hrest]. by eapply run_holds.
Qed.

Lemma constructed_holds (name : option string) (cs : list Client.call)
    (p : MaterialParameter) (w w' : World) :
  (p0 ← MaterialParameter_ctor name; Client.run_all cs p0) w = Done p w' →
  holds (heap w) p w'.
Proof.
  unfold MaterialParameter_ctor. rewrite (bind_Done _ _ _ _ _ (fresh_is_constructed _ w)).
  apply run_all_holds. by apply holds_nothing.
Qed.

(** X1: After any sequence of value setters, [clearValue] and [bind] calls on
    a newly constructed parameter, a dynamic cell has [_count] 1 and points
    to a live array obtained from [new[]] after construction, of exactly the
    2, 3, 4 or 16 floats of its kind; a sampler cell points to a sampler
    that was live at construction and has one more owner now; a cell of
    kind [NONE] has a zeroed payload; and every block of the heap that the
    cell does not point to is what it was at construction. *)
Theorem calls_keep_representation (name : option string) (cs : list Client.call)
    (p : MaterialParameter) (w w' : World) :
  (p0 ← MaterialParameter_ctor name; Client.run_all cs p0) w = Done p w' →
  (_dynamic p = true →
     _count p = 1 ∧ _type p ∈ [VECTOR2; VECTOR3; VECTOR4; MATRIX] ∧
     ∃ a data, _value p = AsPointer a ∧ a ≠ NULL ∧ heap w !! a = None ∧
               heap w' !! a = Some (FloatArray NewArray data) ∧
               length data = floats_per_value (_type p)) ∧
  (_type p = SAMPLER →
     _dynamic p = false ∧
     ∃ a obj n, _value p = AsPointer a ∧ a ≠ NULL ∧
                heap w !! a = Some (RefCounted obj n) ∧
                heap w' !! a = Some (RefCounted obj (n + 1)%positive)) ∧
  (_type p = NONE → _value p = AllZero) ∧
  _type p ≠ METHOD ∧
  (∀ b, _value p ≠ AsPointer b → heap w' !! b = heap w !! b).
Proof.
  intros Hrun. apply constructed_holds in Hrun.
  destruct Hrun as [Ht Hd Hv Hh|f Ht Hd Hv Hh|i Ht Hd Hv Hh|a Ht Hd Hv Hh
                   |a data Ht Hd Hn Hv Ha H0 Hh Hl|a obj k Ht Hd Hv Ha H0 Hh];
    (split; [|split; [|split; [|split]]]);
    try (intros; congruence);
    try (intros ? _; by rewrite Hh);
    try (intros E; rewrite E in Ht;
         repeat (apply elem_of_cons in Ht as [Ht|Ht]; [discriminate Ht|]);
         by apply elem_of_nil in Ht).
  - intros _. split; [done|]. split; [done|].
    exists a, data. rewrite Hh, lookup_insert_eq. done.
  - intros b Hb. rewrite Hh, lookup_insert_ne; [done|congruence].
  - intros _. split; [done|]. exists a, obj, k. rewrite Hh, lookup_insert_eq. done.
  - intros b Hb. rewrite Hh, lookup_insert_ne; [done|congruence].
Qed.

Lemma calls_keep_representation_witness :
  Life.run Life.to_matrix
    = Done {| _type := MATRIX; _count := 1; _dynamic := true; _name := "u_diffuseColor";
              _uniform := getUniform Scene.effect "u_diffuseColor";
              _value := AsPointer 8%N |}
        (world_of (Life.run Life.to_matrix)) ∧
  heap (world_of (Life.run Life.to_matrix)) !! 8%N
    = Some (FloatArray NewArray (Matrix.m Scenario.identity)) ∧
  heap (world_of (Life.run Life.to_matrix)) !! 7%N = heap Scene.world !! 7%N.
Proof.
  assert (H : Life.run Life.to_matrix
    = Done {| _type := MATRIX; _count := 1; _dynamic := true; _name := "u_diffuseColor";
              _uniform := getUniform Scene.effect "u_diffuseColor";
              _value := AsPointer 8%N |}
        (world_of (Life.run Life.to_matrix))) by (vm_compute; reflexivity).
  split; [exact H|].
  destruct (calls_keep_representation _ _ _ _ _ H) as (Hdyn & _ & _ & _ & Hframe).
  split.
  - reflexivity.
  - apply Hframe. discriminate.
Defined.

(** X2: After any such sequence of calls, the destructor returns and leaves
    the heap exactly as it was when the parameter was constructed: every
    array the parameter allocated has been deleted, and every reference it
    added has been released. *)
Theorem calls_then_destructor_restore_heap (name : option string) (cs : list Client.call)
    (p : MaterialParameter) (w w' : World) :
  (p0 ← MaterialParameter_ctor name; Client.run_all cs p0) w = Done p w' →
  ∃ w'', MaterialParameter_dtor p w' = Done tt w'' ∧ heap w'' = heap w.
Proof.
  intros Hrun. apply constructed_holds in Hrun.
  destruct (holds_clearValue _ _ _ Hrun) as (w'' & Hc & Hh).
  exists w''. split; [|done]. unfold MaterialParameter_dtor.
  by rewrite (bind_Done _ _ _ _ _ Hc).
Qed.

Lemma calls_then_destructor_restore_heap_witness :
  ∃ p w', Life.run Life.to_array = Done p w' ∧ _type p = SAMPLER ∧
          refCount 7%N w' = Some 2%positive ∧
          ∃ w'', MaterialParameter_dtor p w' = Done tt w'' ∧ heap w'' = heap Scene.world.
Proof.
  eexists _, _. split; [vm_compute; reflexivity|].
  split; [reflexivity|]. split; [reflexivity|].
  apply (calls_then_destructor_restore_heap (Some "u_diffuseColor") Life.to_array).
  vm_compute; reflexivity.
Defined.

(** X3: [clearValue] is idempotent: once it has returned, a second call (the
    destructor's, say) returns the same object and leaves the world
    untouched, so nothing is deleted or released twice. *)
Theorem clearValue_twice (p p' : MaterialParameter) (w w' : World) :
  clearValue p w = Done p' w' → clearValue p' w' = Done p' w'.
Proof.
  intros H. apply clearValue_Done in H as ->.
  rewrite clearValue_zeroed by reflexivity. reflexivity.
Qed.

Lemma clearValue_twice_witness :
  clearValue Blend.vector3_param Blend.vector3_world
    = Done (cleared Blend.vector3_param)
        {| heap := heap Scene.world; trace := [EvNewArray 8%N 3; EvDeleteArray 8%N] |} ∧
  clearValue (cleared Blend.vector3_param)
      {| heap := heap Scene.world; trace := [EvNewArray 8%N 3; EvDeleteArray 8%N] |}
    = Done (cleared Blend.vector3_param)
        {| heap := heap Scene.world; trace := [EvNewArray 8%N 3; EvDeleteArray 8%N] |}.
Proof.
  assert (H : clearValue Blend.vector3_param Blend.vector3_world
    = Done (cleared Blend.vector3_param)
        {| heap := heap Scene.world; trace := [EvNewArray 8%N 3; EvDeleteArray 8%N] |})
    by (vm_compute; reflexivity).
  split; [exact H|]. exact (clearValue_twice _ _ _ _ H).
Defined.

(** ** Setting the sampler a parameter already holds *)

(** X4: [setValue] releases the prior value before it takes its reference to
    the new one.  Handed the sampler the parameter already holds, it gives
    the reference back and takes it again, leaving the count as it was, when
    the sampler has another owner; when the parameter is the only owner the
    release destroys the sampler, and the [addRef] that follows is a call on
    a destroyed object. *)
Theorem setValue_Sampler_already_held (sampler : addr) (obj : RefObject) (n : positive)
    (p : MaterialParameter) (w : World) :
  _type p = SAMPLER → _dynamic p = false → _value p = AsPointer sampler →
  sampler ≠ NULL → heap w !! sampler = Some (RefCounted obj n) →
  setValue_Sampler sampler p w
    = if decide (n = 1%positive)
      then Abort UndefinedBehaviour
             {| heap := delete sampler (heap w); trace := trace w ++ [EvRelease sampler] |}
      else Done p {| heap := heap w;
                     trace := trace w ++ [EvRelease sampler; EvAddRef sampler] |}.
Proof.
  intros Ht Hd Hv Hs Hh.
  assert (clearValue p w
          = Done (cleared p)
              {| heap := if decide (n = 1%positive) then delete sampler (heap w)
                         else <[sampler := RefCounted obj (Pos.pred n)]> (heap w);
                 trace := trace w ++ [EvRelease sampler] |}) as Hc.
  { destruct p as [t c d nm u v]. simpl in *. subst.
    unfold clearValue, cleared. cbn [_type _count _dynamic _name _uniform _value].
    unfold samplerValue, pointerValue, release. unfold_M.
    rewrite decide_False by done. cbv beta. by rewrite Hh. }
  unfold setValue_Sampler. rewrite (bind_Done _ _ _ _ _ Hc).
  rewrite decide_True by done. unfold addRef, mbind, M_bind. cbn [heap trace].
  destruct (decide (n = 1%positive)) as [->|Hn].
  - by rewrite lookup_delete_eq.
  - rewrite lookup_insert_eq. unfold mret, M_ret. f_equal.
    + destruct p as [t c d nm u v]. simpl in *. by subst.
    + f_equal.
      * rewrite insert_insert_eq.
        rewrite Pos.add_1_r, Pos.succ_pred by done. by apply insert_id.
      * by rewrite <- app_assoc.
Qed.

Lemma setValue_Sampler_already_held_witness :
  _type Sampled.param = SAMPLER ∧ _dynamic Sampled.param = false ∧
  _value Sampled.param = AsPointer 7%N ∧ 7%N ≠ NULL ∧
  heap Sampled.world !! 7%N = Some (RefCounted SamplerObject 2) ∧
  setValue_Sampler 7%N Sampled.param Sampled.world
    = Done Sampled.param
        {| heap := heap Sampled.world;
           trace := [EvAddRef 7%N; EvRelease 7%N; EvAddRef 7%N] |} ∧
  failure_of Held.set_again = Some UndefinedBehaviour.
Proof.
  assert (H4 : 7%N ≠ NULL) by discriminate.
  assert (H5 : heap Sampled.world !! 7%N = Some (RefCounted SamplerObject 2))
    by reflexivity.
  do 3 (split; [reflexivity|]). split; [exact H4|]. split; [exact H5|]. split.
  - exact (setValue_Sampler_already_held 7%N SamplerObject 2 Sampled.param Sampled.world
             eq_refl eq_refl eq_refl H4 H5).
  - reflexivity.
Defined.

(** ** Setting a matrix twice *)

Lemma setValue_Matrix_clear_fails (v : Matrix.t) (p : MaterialParameter) (w w1 : World)
    (f : failure) :
  (if _dynamic p && (_count p =? 1) && bool_decide (_type p = MATRIX)
   then a ← floatPtrValue (_value p); mret (bool_decide (a ≠ NULL))
   else mret false) = mret false →
  clearValue p w = Abort f w1 →
  setValue_Matrix (temporary v) p w = Abort f w1.
Proof.
  intros Hr Hc. unfold setValue_Matrix. rewrite Hr, ret_bind.
  unfold mbind at 1, M_bind at 1. unfold mbind at 1, M_bind at 1. by rewrite Hc.
Qed.

Lemma setValue_Matrix_new (v : Matrix.t) (p : MaterialParameter) (w w1 : World) :
  (if _dynamic p && (_count p =? 1) && bool_decide (_type p = MATRIX)
   then a ← floatPtrValue (_value p); mret (bool_decide (a ≠ NULL))
   else mret false) = mret false →
  clearValue p w = Done (cleared p) w1 →
  (16 ≤ length (Matrix.m v))%nat →
  setValue_Matrix (temporary v) p w
    = Done (with_value MATRIX 1 true (AsPointer (fresh_addr (heap w1))) (cleared p))
        {| heap := <[fresh_addr (heap w1) := FloatArray NewArray (take 16 (Matrix.m v))]>
                     (heap w1);
           trace := trace w1 ++ [EvNewArray (fresh_addr (heap w1)) 16] |}.
Proof.
  intros Hr Hc Hm. unfold setValue_Matrix, temporary.
  rewrite Hr, !ret_bind.
  unfold mbind at 1, M_bind at 1. unfold mbind at 1, M_bind at 1. rewrite Hc.
  unfold mbind at 1, M_bind at 1. rewrite new_float_array_Done.
  unfold mret at 1, M_ret at 1. cbn [_value with_value].
  unfold floatPtrValue, pointerValue. rewrite !ret_bind.
  unfold read_floats. rewrite decide_True by done.
  rewrite ret_bind. unfold memcpy_floats. unfold mbind, M_bind. cbn [heap].
  rewrite lookup_insert_eq. rewrite length_take_le by done.
  rewrite decide_True by (rewrite length_replicate; lia).
  unfold with_heap. cbn [heap trace]. rewrite insert_insert_eq.
  rewrite drop_ge by (rewrite length_replicate; lia). by rewrite app_nil_r.
Qed.

Lemma setValue_Matrix_no_array (v : Matrix.t) (p : MaterialParameter) (w : World) (a : addr) :
  _dynamic p = true → _count p = 1 → _type p = MATRIX → _value p = AsPointer a → a ≠ NULL →
  (∀ o data, heap w !! a = Some (FloatArray o data) → (length data < 16)%nat) →
  (16 ≤ length (Matrix.m v))%nat →
  setValue_Matrix (temporary v) p w = Abort UndefinedBehaviour w.
Proof.
  intros Hd Hn Ht Hv Ha Hh Hm. unfold setValue_Matrix, temporary.
  rewrite Hd, Hn, Ht, Hv. cbn [andb Z.eqb Pos.eqb]. rewrite bool_decide_eq_true_2 by done.
  unfold floatPtrValue, pointerValue. rewrite !ret_bind.
  rewrite bool_decide_eq_true_2 by done. rewrite !ret_bind.
  rewrite Hv, !ret_bind.
  unfold read_floats. rewrite decide_True by done. rewrite ret_bind.
  unfold memcpy_floats. unfold mbind, M_bind.
  destruct (heap w !! a) as [[o data| |]|] eqn:E; try reflexivity.
  rewrite length_take_le by done.
  rewrite decide_False; [done|]. specialize (Hh o data eq_refl). lia.
Qed.

(** X5: Setting a single matrix is a last-write-wins operation: setting one
    matrix and then another has exactly the outcome, object, heap and trace,
    of setting the second alone.  The second call finds the cell already
    storing a single dynamic matrix and copies over it in place, so any
    number of consecutive calls shares one allocation. *)
Theorem setValue_Matrix_twice (m1 m2 : Matrix.t) (p : MaterialParameter) (w : World) :
  length (Matrix.m m1) = 16%nat → length (Matrix.m m2) = 16%nat →
  (p ← setValue_Matrix (temporary m1) p; setValue_Matrix (temporary m2) p) w
    = setValue_Matrix (temporary m2) p w.
Proof.
  intros H1 H2.
  assert (16 ≤ length (Matrix.m m1))%nat as L1 by lia.
  assert (16 ≤ length (Matrix.m m2))%nat as L2 by lia.
  assert (∀ p1 w1 a data,
            heap w1 !! a = None → a ≠ NULL →
            p1 = with_value MATRIX 1 true (AsPointer a) (cleared p) →
            setValue_Matrix (temporary m2) p1
              {| heap := <[a := FloatArray NewArray (take 16 (Matrix.m m1))]> (heap w1);
                 trace := data |}
            = Done p1 {| heap := <[a := FloatArray NewArray (take 16 (Matrix.m m2))]> (heap w1);
                         trace := data |}) as Hsecond.
  { intros p1 w1 a tr Hfresh Ha ->.
    rewrite (setValue_Matrix_in_place m2 _ _ a NewArray (take 16 (Matrix.m m1)));
      [|done|done|done|done|done|simpl; apply lookup_insert_eq
       |rewrite length_take_le; lia].
    rewrite decide_True by lia. unfold with_heap. cbn [heap trace].
    rewrite insert_insert_eq. rewrite drop_ge by (rewrite length_take_le; lia).
    by rewrite app_nil_r. }
  assert ((if _dynamic p && (_count p =? 1) && bool_decide (_type p = MATRIX)
           then a ← floatPtrValue (_value p); mret (bool_decide (a ≠ NULL))
           else mret false) = mret false →
          (p ← setValue_Matrix (temporary m1) p; setValue_Matrix (temporary m2) p) w
            = setValue_Matrix (temporary m2) p w) as Hnew.
  { intros Hr. destruct (clearValue p w) as [p1 w1|f w1] eqn:Hc.
    - pose proof (clearValue_Done _ _ _ _ Hc) as ->.
      destruct (fresh_addr_spec (heap w1)) as [Hf0 Hf].
      rewrite (bind_Done _ _ _ _ _ (setValue_Matrix_new m1 p w w1 Hr Hc L1)).
      rewrite (setValue_Matrix_new m2 p w w1 Hr Hc L2).
      by apply Hsecond.
    - unfold mbind, M_bind.
      by rewrite !(setValue_Matrix_clear_fails _ p w w1 f Hr Hc). }
  destruct (_dynamic p && (_count p =? 1) && bool_decide (_type p = MATRIX)) eqn:Hr;
    [|by apply Hnew].
  apply andb_prop in Hr as [Hr Ht]. apply andb_prop in Hr as [Hd Hn].
  apply bool_decide_eq_true in Ht. apply Z.eqb_eq in Hn.
  destruct (_value p) as [|f|i|a] eqn:Hv.
  - by apply Hnew.
  - unfold mbind, M_bind, setValue_Matrix. rewrite Hd, Hn, Ht, Hv. reflexivity.
  - unfold mbind, M_bind, setValue_Matrix. rewrite Hd, Hn, Ht, Hv. reflexivity.
  - destruct (decide (a = NULL)) as [->|Ha]; [by apply Hnew|].
    destruct (heap w !! a) as [[o data| |]|] eqn:E.
    + destruct (decide (16 ≤ length data)%nat) as [Hl|Hl].
      * rewrite (bind_Done _ _ _ _ _
                   (eq_trans (setValue_Matrix_in_place m1 p w a o data Hd Hn Ht Hv Ha E Hl)
                             (decide_True _ _ L1))).
        rewrite (setValue_Matrix_in_place m2 p w a o data Hd Hn Ht Hv Ha E Hl).
        rewrite (setValue_Matrix_in_place m2 p _ a o
                   (take 16 (Matrix.m m1) ++ drop 16 data) Hd Hn Ht Hv Ha);
          [|simpl; apply lookup_insert_eq
           |rewrite length_app, length_take_le, length_drop; lia].
        rewrite !decide_True by lia. f_equal.
        unfold with_heap. cbn [heap trace]. rewrite insert_insert_eq.
        rewrite drop_app_length' by (rewrite length_take_le; lia). done.
      * unfold mbind, M_bind.
        rewrite !(setValue_Matrix_no_array _ p w a Hd Hn Ht Hv Ha); try lia; try done;
          intros o' data'; rewrite E; intros [= <- <-]; lia.
    + unfold mbind, M_bind.
      rewrite !(setValue_Matrix_no_array _ p w a Hd Hn Ht Hv Ha); try lia; try done;
        intros o' data'; rewrite E; discriminate.
    + unfold mbind, M_bind.
      rewrite !(setValue_Matrix_no_array _ p w a Hd Hn Ht Hv Ha); try lia; try done;
        intros o' data'; rewrite E; discriminate.
    + unfold mbind, M_bind.
      rewrite !(setValue_Matrix_no_array _ p w a Hd Hn Ht Hv Ha); try lia; try done;
        intros o' data'; rewrite E; discriminate.
Qed.

Lemma setValue_Matrix_twice_witness :
  length (Matrix.m Scenario.identity) = 16%nat ∧
  length (Matrix.m Textured.scaled) = 16%nat ∧
  (p ← setValue_Matrix (temporary Scenario.identity) Blend.vector3_param;
   setValue_Matrix (temporary Textured.scaled) p) Blend.vector3_world
    = setValue_Matrix (temporary Textured.scaled) Blend.vector3_param Blend.vector3_world ∧
  trace (world_of (setValue_Matrix (temporary Textured.scaled) Blend.vector3_param
                     Blend.vector3_world))
    = [EvNewArray 8%N 3; EvDeleteArray 8%N; EvNewArray 8%N 16].
Proof.
  assert (H1 : length (Matrix.m Scenario.identity) = 16%nat) by reflexivity.
  assert (H2 : length (Matrix.m Textured.scaled) = 16%nat) by reflexivity.
  split; [exact H1|]. split; [exact H2|]. split.
  - exact (setValue_Matrix_twice Scenario.identity Textured.scaled Blend.vector3_param
             Blend.vector3_world H1 H2).
  - reflexivity.
Defined.

(** ** Setting a texture by path *)

(** X6: With a null path nothing happens at all: null is returned and the
    prior value stays.  With a path, the prior value is cleared first; the
    sampler the loader returns is stored as it is, with no [addRef], so the
    parameter takes over the loader's reference, and a null result leaves
    the cell with kind [NONE].  When the stored sampler has that one owner,
    destroying the parameter destroys the sampler. *)
Theorem setValue_texturePath_takes_ownership (create : string → bool → M addr)
    (path : string) (generateMipmaps : bool) (p : MaterialParameter) (w w1 w2 : World)
    (sampler : addr) :
  clearValue p w = Done (cleared p) w1 →
  create path generateMipmaps w1 = Done sampler w2 →
  let p' := if decide (sampler = NULL) then cleared p
            else with_value SAMPLER (_count (cleared p)) false (AsPointer sampler)
                   (cleared p) in
  setValue_texturePath create None generateMipmaps p w = Done (NULL, p) w ∧
  setValue_texturePath create (Some path) generateMipmaps p w = Done (sampler, p') w2 ∧
  (sampler ≠ NULL → ∀ obj, heap w2 !! sampler = Some (RefCounted obj 1) →
     MaterialParameter_dtor p' w2
       = Done tt {| heap := delete sampler (heap w2);
                    trace := trace w2 ++ [EvRelease sampler] |}).
Proof.
  intros Hc Hs p'. split; [reflexivity|]. split.
  - unfold setValue_texturePath.
    rewrite (bind_Done _ _ _ _ _ Hc), (bind_Done _ _ _ _ _ Hs).
    unfold p'. by repeat case_decide.
  - intros Hn obj Hobj. unfold p'. rewrite decide_False by done.
    unfold MaterialParameter_dtor, clearValue. cbn [with_value cleared _dynamic _type _value].
    unfold samplerValue, pointerValue, release. unfold_M.
    rewrite decide_False by done. cbv beta. rewrite Hobj. reflexivity.
Qed.

Lemma setValue_texturePath_takes_ownership_witness :
  clearValue Sampled.param Sampled.world
    = Done (cleared Sampled.param)
        {| heap := heap Scene.world; trace := [EvAddRef 7%N; EvRelease 7%N] |} ∧
  Textured.found "res/brick.png" true
      {| heap := heap Scene.world; trace := [EvAddRef 7%N; EvRelease 7%N] |}
    = Done 8%N {| heap := <[8%N := RefCounted SamplerObject 1]> (heap Scene.world);
                  trace := [EvAddRef 7%N; EvRelease 7%N; EvNewRef 8%N] |} ∧
  setValue_texturePath Textured.found (Some "res/brick.png") true Sampled.param Sampled.world
    = Done (8%N, with_value SAMPLER 1 false (AsPointer 8%N) (cleared Sampled.param))
        {| heap := <[8%N := RefCounted SamplerObject 1]> (heap Scene.world);
           trace := [EvAddRef 7%N; EvRelease 7%N; EvNewRef 8%N] |} ∧
  setValue_texturePath Textured.missing (Some "res/none.png") true Sampled.param Sampled.world
    = Done (NULL, cleared Sampled.param)
        {| heap := heap Scene.world; trace := [EvAddRef 7%N; EvRelease 7%N] |}.
Proof.
  assert (H1 : clearValue Sampled.param Sampled.world
    = Done (cleared Sampled.param)
        {| heap := heap Scene.world; trace := [EvAddRef 7%N; EvRelease 7%N] |})
    by (vm_compute; reflexivity).
  assert (H2 : Textured.found "res/brick.png" true
      {| heap := heap Scene.world; trace := [EvAddRef 7%N; EvRelease 7%N] |}
    = Done 8%N {| heap := <[8%N := RefCounted SamplerObject 1]> (heap Scene.world);
                  trace := [EvAddRef 7%N; EvRelease 7%N; EvNewRef 8%N] |})
    by (vm_compute; reflexivity).
  split; [exact H1|]. split; [exact H2|]. split.
  - exact (proj1 (proj2 (setValue_texturePath_takes_ownership Textured.found
                           "res/brick.png" true _ _ _ _ _ H1 H2))).
  - exact (proj1 (proj2 (setValue_texturePath_takes_ownership Textured.missing
                           "res/none.png" true _ _ _ _ NULL H1 eq_refl))).
Defined.

(** ** Null pointers handed to the setters *)




(** ** Binding to an effect *)

(** X8: [bind] writes the cached uniform handle and nothing else: in every
    outcome the heap is untouched and at most one event, the upload or the
    warning, is added to the trace; when it returns, the kind, count,
    ownership flag, name and payload of the cell are what they were, and
    the handle is either the one it had or the one the effect has under the
    parameter's name. *)
Theorem bind_touches_only_the_handle (effect : Effect) (p : MaterialParameter) (w : World) :
  heap (world_of (bind effect p w)) = heap w ∧
  (∃ evs, trace (world_of (bind effect p w)) = trace w ++ evs ∧ (length evs ≤ 1)%nat) ∧
  ∀ p' w', bind effect p w = Done p' w' →
    _type p' = _type p ∧ _count p' = _count p ∧ _dynamic p' = _dynamic p ∧
    _name p' = _name p ∧ _value p' = _value p ∧
    (_uniform p' = _uniform p ∨ _uniform p' = getUniform effect (_name p)).
Proof.
  destruct (bind_world effect p w) as (Hh & Ht & Hp).
  split; [done|]. split; [done|].
  intros p' w' Hb. rewrite Hb in Hp. destruct (Hp p' eq_refl) as [<- Hu].
  by destruct p'.
Qed.

(** The upload [bind] performs does not depend on the world. *)
Lemma bind_upload_event (effect : Effect) (u : Uniform) (p : MaterialParameter)
    (w w' : World) :
  bind_upload effect u p w = Done tt w' →
  ∃ ev, is_upload ev = true ∧ ∀ w0, bind_upload effect u p w0 = Done tt (with_event ev w0).
Proof.
  unfold bind_upload, Effect_setValue, floatValue, intValue, floatPtrValue, intPtrValue,
    samplerValue, method, pointerValue.
  destruct (_type p), (_count p =? 1), (_value p) as [| | |a]; unfold_M;
    try (case_bool_decide; simpl); try discriminate;
    intros _; eexists; (split; [|intros w0; reflexivity]); reflexivity.
Qed.

(** X9: Binding again to the same effect repeats the bind: a [bind] that has
    returned added exactly one event to the trace, and a second [bind] to
    the same effect returns the same object and adds the same event once
    more.  In particular the handle resolved by the first call is the one
    the second call uses. *)
Theorem bind_again (effect : Effect) (p p' : MaterialParameter) (w w' : World) :
  owns_its_uniforms effect →
  bind effect p w = Done p' w' →
  ∃ ev, w' = with_event ev w ∧ bind effect p' w' = Done p' (with_event ev w').
Proof.
  intros Hown. unfold bind.
  set (stale := match _uniform p with
                | Some u => bool_decide (uniform_effect u ≠ effect_addr effect)
                | None => true
                end).
  set (p1 := if stale then with_uniform (getUniform effect (_name p)) p else p).
  assert (_name p1 = _name p) as Hname by (unfold p1; by destruct stale).
  assert (∀ u, _uniform p1 = Some u → uniform_effect u = effect_addr effect) as Hmine.
  { intros u. unfold p1, stale. destruct (_uniform p) as [u0|] eqn:Eu; simpl.
    - case_bool_decide as Hne; simpl.
      + apply Hown.
      + rewrite Eu. intros [= <-]. by destruct (decide (uniform_effect u0 = effect_addr effect)).
    - apply Hown. }
  assert (_uniform p1 = None → getUniform effect (_name p) = None) as Hnone.
  { unfold p1, stale. destruct (_uniform p) as [u0|] eqn:Eu; simpl; [|done].
    case_bool_decide; simpl; [done|congruence]. }
  clearbody p1. clear stale.
  destruct (_uniform p1) as [u|] eqn:Eu.
  - unfold mbind, M_bind.
    destruct (bind_upload effect u p1 w) as [[] w1|f w1] eqn:Eb; [|discriminate].
    intros [= <- <-].
    destruct (bind_upload_event _ _ _ _ _ Eb) as (ev & _ & Hev).
    exists ev. rewrite Hev in Eb. injection Eb as <-. split; [done|].
    rewrite Eu. rewrite bool_decide_eq_false_2 by (intros Hne; by apply Hne, Hmine).
    rewrite Eu. by rewrite Hev.
  - unfold_M. intros [= <- <-]. eexists. split; [reflexivity|].
    rewrite Eu. simpl. rewrite Hname, (Hnone eq_refl). simpl.
    f_equal. by destruct p1; simpl in *; subst.
Qed.

Lemma bind_again_witness :
  owns_its_uniforms Scene.effect ∧
  Bound.after (Client.set_float Float32.one)
    = Done Bound.scalar
        (with_event (EvSetValue 100%N Bound.uniform (UploadFloat Float32.one)) Scene.world) ∧
  trace (world_of (bind Scene.effect Bound.scalar
                     (with_event (EvSetValue 100%N Bound.uniform (UploadFloat Float32.one))
                        Scene.world)))
    = [EvSetValue 100%N Bound.uniform (UploadFloat Float32.one);
       EvSetValue 100%N Bound.uniform (UploadFloat Float32.one)].
Proof.
  assert (H1 : owns_its_uniforms Scene.effect).
  { intros name u. unfold getUniform, Scene.effect. simpl.
    intros [<- <-]%lookup_singleton_Some. reflexivity. }
  assert (H2 : bind Scene.effect
                 (with_value FLOAT 1 false (AsFloat Float32.one)
                    (Scene.fresh "u_diffuseColor")) Scene.world
               = Done Bound.scalar
                   (with_event (EvSetValue 100%N Bound.uniform (UploadFloat Float32.one))
                      Scene.world)) by reflexivity.
  split; [exact H1|]. split; [reflexivity|].
  destruct (bind_again _ _ _ _ _ H1 H2) as (ev & Hev & Hb).
  rewrite Hb. apply (f_equal trace) in Hev. simpl in Hev.
  injection Hev as <-. reflexivity.
Defined.

(** X10: What is set is what is uploaded.  A parameter is constructed under a
    name the effect exposes, one value is set, and the parameter is bound:
    the one upload carries the scalar for the scalar setters, the caller's
    pointer and count for the array setters (for counts other than 1 in the
    case of [float] and [int] arrays), the parameter's own new array with
    count 1 for a single vector, and the sampler, after the [addRef], for a
    sampler.  Binding a parameter on which nothing was set is fatal. *)
Theorem bind_uploads_what_was_set (effect : Effect) (name : string) (u : Uniform)
    (w : World) :
  getUniform effect name = Some u →
  let upload v := EvSetValue (effect_addr effect) u v in
  let events c := trace (world_of (set_and_bind effect name c w)) in
  (∀ value, events (Client.set_float value) = trace w ++ [upload (UploadFloat value)]) ∧
  (∀ value, events (Client.set_int value) = trace w ++ [upload (UploadInt value)]) ∧
  (∀ values count, count ≠ 1 →
     events (Client.set_floats values count)
       = trace w ++ [upload (UploadFloatArray values count)]) ∧
  (∀ values count, count ≠ 1 →
     events (Client.set_ints values count)
       = trace w ++ [upload (UploadIntArray values count)]) ∧
  (∀ values count, values ≠ NULL →
     events (Client.set_Vector2s values count)
       = trace w ++ [upload (UploadVector2Array values count)] ∧
     events (Client.set_Vector3s values count)
       = trace w ++ [upload (UploadVector3Array values count)] ∧
     events (Client.set_Vector4s values count)
       = trace w ++ [upload (UploadVector4Array values count)] ∧
     events (Client.set_Matrices values count)
       = trace w ++ [upload (UploadMatrixArray values count)]) ∧
  (∀ value,
     events (Client.set_Vector3 value)
       = trace w ++ [EvNewArray (fresh_addr (heap w)) 3;
                     upload (UploadVector3Array (fresh_addr (heap w)) 1)] ∧
     heap (world_of (set_and_bind effect name (Client.set_Vector3 value) w))
       !! fresh_addr (heap w) = Some (FloatArray NewArray (Vector3.floats value))) ∧
  (∀ sampler obj n, sampler ≠ NULL → heap w !! sampler = Some (RefCounted obj n) →
     events (Client.set_Sampler sampler)
       = trace w ++ [EvAddRef sampler; upload (UploadSampler sampler)]) ∧
  set_and_bind effect name Client.clear w
    = Abort (FatalError "Unsupported material parameter type (%d).") w.
Proof.
  intros Hu upload events. unfold events, upload, set_and_bind, MaterialParameter_ctor.
  unfold getUniform in Hu.
  cbn [default]. unfold MaterialParameter_new.
  repeat split; intros;
    cbn [Client.run];
    unfold bind, bind_upload, setValue_Sampler, addRef, getUniform, Effect_setValue,
      setValue_float, setValue_int, setValue_floatArray, setValue_intArray,
      setValue_Vector3, setValue_Vector2Array, setValue_Vector3Array,
      setValue_Vector4Array, setValue_MatrixArray, temporary, new_float_array;
    unfold_M;
    rewrite ?bool_decide_eq_true_2 by done; rewrite ?decide_True by done;
    rewrite ?(proj2 (Z.eqb_neq count 1)) by done; simpl;
    repeat match goal with H : heap w !! _ = _ |- _ => rewrite H; simpl end;
    rewrite ?Hu; simpl; rewrite ?(proj2 (Z.eqb_neq count 1)) by done; simpl;
    rewrite <- ?app_assoc; try reflexivity.
  apply lookup_insert_eq.
Qed.

Lemma bind_uploads_what_was_set_witness :
  getUniform Scene.effect "u_diffuseColor" = Some Bound.uniform ∧
  trace (world_of (Bound.after (Client.set_floats 5%N 6)))
    = [EvSetValue 100%N Bound.uniform (UploadFloatArray 5%N 6)] ∧
  trace (world_of (Bound.after (Client.set_Sampler 7%N)))
    = [EvAddRef 7%N; EvSetValue 100%N Bound.uniform (UploadSampler 7%N)] ∧
  failure_of (Bound.after Client.clear)
    = Some (FatalError "Unsupported material parameter type (%d).").
Proof.
  assert (H : getUniform Scene.effect "u_diffuseColor" = Some Bound.uniform) by reflexivity.
  split; [exact H|].
  destruct (bind_uploads_what_was_set Scene.effect "u_diffuseColor" Bound.uniform
              Scene.world H) as (_ & _ & Hfloats & _ & _ & _ & Hsampler & Hnone).
  split; [|split].
  - apply (Hfloats 5%N 6). discriminate.
  - apply (Hsampler 7%N SamplerObject 1%positive); [discriminate|reflexivity].
  - unfold Bound.after. fold (set_and_bind Scene.effect "u_diffuseColor" Client.clear).
    by rewrite Hnone.
Defined.

(** X11: A borrowed [float] or [int] array set with count 1 is later read as a
    scalar: [bind] and the animation entry points all take the [_count == 1]
    path and read the scalar member of the union, which holds the pointer.
    On the model that read is undefined behaviour. *)
Theorem array_of_one_is_read_as_scalar (values : addr) (p : MaterialParameter) (w : World) :
  owns_payload p w = true →
  ∃ w',
    teardown p w w' ∧
    setValue_floatArray values 1 p w
      = Done (with_value FLOAT 1 false (AsPointer values) (cleared p)) w' ∧
    setValue_intArray values 1 p w
      = Done (with_value INT 1 false (AsPointer values) (cleared p)) w' ∧
    ∀ p', p' = with_value FLOAT 1 false (AsPointer values) (cleared p) ∨
          p' = with_value INT 1 false (AsPointer values) (cleared p) →
      (∀ effect u, bind_upload effect u p' w' = Abort UndefinedBehaviour w') ∧
      (∀ value, getAnimationPropertyValue ANIMATE_UNIFORM value p' w'
                  = Abort UndefinedBehaviour w') ∧
      (∀ value blendWeight, weight_ok blendWeight = true →
         setAnimationPropertyValue ANIMATE_UNIFORM value blendWeight p' w'
           = Abort UndefinedBehaviour w').
Proof.
  intros Hp. destruct (clearValue_effect p w Hp) as (w' & Hc & Ht).
  exists w'. split; [done|].
  split; [unfold setValue_floatArray; by rewrite (bind_Done _ _ _ _ _ Hc)|].
  split; [unfold setValue_intArray; by rewrite (bind_Done _ _ _ _ _ Hc)|].
  intros p' [->| ->]; (split; [|split]); intros; try reflexivity;
    unfold setAnimationPropertyValue;
    rewrite (bind_Done _ _ _ _ _ (weight_ok_assert _ _ H)); reflexivity.
Qed.

Lemma array_of_one_is_read_as_scalar_witness :
  owns_payload (Scene.fresh "u_diffuseColor") Scene.world = true ∧
  ∃ p' w',
    setValue_floatArray 5%N 1 (Scene.fresh "u_diffuseColor") Scene.world = Done p' w' ∧
    failure_of (bind_upload Scene.effect Bound.uniform p' w') = Some UndefinedBehaviour ∧
    failure_of (getAnimationPropertyValue ANIMATE_UNIFORM [Float32.zero] p' w')
      = Some UndefinedBehaviour ∧
    failure_of (Bound.after (Client.set_floats 5%N 1)) = Some UndefinedBehaviour ∧
    failure_of (Bound.after (Client.set_floats 5%N 2)) = None.
Proof.
  assert (H : owns_payload (Scene.fresh "u_diffuseColor") Scene.world = true) by reflexivity.
  split; [exact H|].
  destruct (array_of_one_is_read_as_scalar 5%N _ _ H) as (w' & _ & Hset & _ & Hread).
  destruct (Hread _ (or_introl eq_refl)) as (Hbind & Hget & _).
  eexists _, w'. split; [exact Hset|].
  rewrite Hbind, Hget. repeat split.
Defined.

(** ** Cloning *)

Lemma load_floats_Done (a : addr) (n : nat) (o : origin) (data : list float) (w : World) :
  heap w !! a = Some (FloatArray o data) → (n ≤ length data)%nat →
  load_floats a n w = Done (take n data) w.
Proof. intros Ha Hn. unfold load_floats. rewrite Ha. by rewrite decide_True. Qed.

Lemma clearValue_owned_vector (p : MaterialParameter) (w : World) (a : addr)
    (data : list float) :
  _type p ∈ [VECTOR2; VECTOR3; VECTOR4; MATRIX] → _dynamic p = true →
  _value p = AsPointer a → a ≠ NULL → heap w !! a = Some (FloatArray NewArray data) →
  clearValue p w
    = Done (cleared p) {| heap := delete a (heap w); trace := trace w ++ [EvDeleteArray a] |}.
Proof.
  intros Ht Hd Hv Ha Hh. destruct p as [t n d nm u v]; simpl in *; subst.
  unfold clearValue, cleared; simpl.
  unfold SAFE_DELETE_ARRAY_float, floatPtrValue, pointerValue, delete_float_array.
  rewrite !elem_of_cons in Ht.
  destruct Ht as [->|[->|[->|[->|[]%elem_of_nil]]]]; unfold_M;
    rewrite decide_False by done; cbv beta; rewrite Hh; reflexivity.
Qed.

(** X12: Cloning a parameter into itself, when it owns a single vector, reads
    the vector after it has been deleted: [setValue] is handed a reference
    into the parameter's own array, clears the parameter, which deletes the
    array, and then copies from the reference. *)
Theorem cloneInto_itself_reads_deleted_array (p : MaterialParameter) (w : World) (a : addr)
    (data : list float) :
  _type p ∈ [VECTOR2; VECTOR3; VECTOR4] → _count p = 1 → _dynamic p = true →
  _value p = AsPointer a → a ≠ NULL → heap w !! a = Some (FloatArray NewArray data) →
  cloneInto p p w
    = Abort UndefinedBehaviour
        {| heap := delete a (heap w); trace := trace w ++ [EvDeleteArray a] |}.
Proof.
  intros Ht Hn Hd Hv Ha Hh.
  assert (clearValue p w
          = Done (cleared p)
              {| heap := delete a (heap w); trace := trace w ++ [EvDeleteArray a] |}) as Hc.
  { apply (clearValue_owned_vector p w a data); try done.
    rewrite !elem_of_cons in *. tauto. }
  unfold cloneInto.
  replace {| _type := _type p; _count := _count p; _dynamic := _dynamic p;
             _name := _name p; _uniform := _uniform p; _value := _value p |}
    with p by (by destruct p).
  rewrite !elem_of_cons in Ht.
  destruct Ht as [Ht|[Ht|[Ht|[]%elem_of_nil]]]; rewrite Ht; cbv iota;
    rewrite Hv, Hn; unfold floatPtrValue, pointerValue; rewrite ret_bind;
    cbn [Z.eqb Pos.eqb]; rewrite bool_decide_eq_true_2 by done; simpl GP_ASSERT;
    rewrite ret_bind;
    unfold setValue_Vector2, setValue_Vector3, setValue_Vector4;
    rewrite (bind_Done _ _ _ _ _ Hc);
    unfold deref_Vector2, deref_Vector3, deref_Vector4, load_floats;
    unfold mbind, M_bind; cbn [heap]; by rewrite lookup_delete_eq.
Qed.

Lemma cloneInto_itself_reads_deleted_array_witness :
  _type Blend.vector3_param ∈ [VECTOR2; VECTOR3; VECTOR4] ∧
  _count Blend.vector3_param = 1 ∧ _dynamic Blend.vector3_param = true ∧
  _value Blend.vector3_param = AsPointer 8%N ∧ 8%N ≠ NULL ∧
  heap Blend.vector3_world !! 8%N
    = Some (FloatArray NewArray [Scene.f 1; Scene.f 2; Scene.f 3]) ∧
  failure_of (cloneInto Blend.vector3_param Blend.vector3_param Blend.vector3_world)
    = Some UndefinedBehaviour ∧
  trace (world_of (cloneInto Blend.vector3_param Blend.vector3_param Blend.vector3_world))
    = [EvNewArray 8%N 3; EvDeleteArray 8%N].
Proof.
  assert (H1 : _type Blend.vector3_param ∈ [VECTOR2; VECTOR3; VECTOR4])
    by (apply list_elem_of_further, list_elem_of_here).
  assert (H5 : 8%N ≠ NULL) by discriminate.
  split; [exact H1|]. do 3 (split; [reflexivity|]). split; [exact H5|].
  split; [reflexivity|].
  by rewrite (cloneInto_itself_reads_deleted_array Blend.vector3_param Blend.vector3_world
                8%N [Scene.f 1; Scene.f 2; Scene.f 3] H1 eq_refl eq_refl eq_refl H5 eq_refl).
Defined.

(** X13: Cloning a single matrix into a parameter that holds a pointer copies
    the matrix to wherever that pointer points.  [cloneInto] gives the
    target the tags of the source before it calls [setValue], so [setValue]
    finds "a single dynamic matrix" in the target and copies 16 floats over
    the target's old storage: into an array the target had borrowed, which
    the clone now counts as its own, or past the end of anything shorter. *)
Theorem cloneInto_Matrix_writes_through_target (this target : MaterialParameter) (w : World)
    (a b : addr) (o : origin) (data : list float) :
  _type this = MATRIX → _count this = 1 → _dynamic this = true →
  _value this = AsPointer a → a ≠ NULL → heap w !! a = Some (FloatArray o data) →
  (16 ≤ length data)%nat →
  _value target = AsPointer b → b ≠ NULL →
  (∀ o' data', heap w !! b = Some (FloatArray o' data') → (16 ≤ length data')%nat →
     cloneInto this target w
       = Done {| _type := MATRIX; _count := 1; _dynamic := true; _name := _name target;
                 _uniform := _uniform this; _value := AsPointer b |}
           (with_heap (<[b := FloatArray o' (take 16 data ++ drop 16 data')]> (heap w)) w)) ∧
  ((∀ o' data', heap w !! b = Some (FloatArray o' data') → (length data' < 16)%nat) →
     cloneInto this target w = Abort UndefinedBehaviour w).
Proof.
  intros Ht Hn Hd Hv Hnull Ha Hl Hvt Hb.
  assert (cloneInto this target w
          = (memcpy_floats b (take 16 data) ;;
             mret {| _type := MATRIX; _count := 1; _dynamic := true; _name := _name target;
                     _uniform := _uniform this; _value := AsPointer b |}) w) as Hrun.
  { destruct this as [t n d nm u v], target as [t' n' d' nm' u' v']. simpl in *. subst.
    unfold cloneInto. cbn [_type _count _dynamic _name _uniform _value].
    unfold floatPtrValue, pointerValue. rewrite ret_bind. cbn [Z.eqb Pos.eqb].
    rewrite bool_decide_eq_true_2 by done. simpl GP_ASSERT. rewrite ret_bind.
    unfold setValue_Matrix. cbn [_dynamic _count _type _value andb Z.eqb Pos.eqb].
    rewrite bool_decide_eq_true_2 by done.
    unfold floatPtrValue, pointerValue. rewrite !ret_bind.
    rewrite bool_decide_eq_true_2 by done. rewrite !ret_bind.
    cbn [_value]. rewrite ret_bind.
    unfold deref_Matrix.
    unfold mbind at 1, M_bind at 1. unfold mbind at 1, M_bind at 1.
    rewrite (load_floats_Done a 16 o data w Ha Hl).
    unfold mret at 1, M_ret at 1. cbn [Matrix.m].
    unfold read_floats. rewrite decide_True by (rewrite length_take_le; lia).
    rewrite ret_bind. rewrite take_take. rewrite Nat.min_id. reflexivity. }
  rewrite Hrun. unfold memcpy_floats, mbind, M_bind. split.
  - intros o' data' Hh Hl'. rewrite Hh. rewrite length_take_le by done.
    by rewrite decide_True.
  - intros Hshort. destruct (heap w !! b) as [[o' data'| |]|] eqn:E; try reflexivity.
    rewrite length_take_le by done. specialize (Hshort o' data' eq_refl).
    rewrite decide_False; [done|lia].
Qed.

Lemma cloneInto_Matrix_writes_through_target_witness :
  _type Matrices.single = MATRIX ∧ _count Matrices.single = 1 ∧
  _dynamic Matrices.single = true ∧ _value Matrices.single = AsPointer 8%N ∧
  8%N ≠ NULL ∧
  heap Matrices.vector2_world !! 8%N
    = Some (FloatArray NewArray (Matrix.m Scenario.identity)) ∧
  (16 ≤ length (Matrix.m Scenario.identity))%nat ∧
  _value Matrices.borrowed = AsPointer 9%N ∧ 9%N ≠ NULL ∧
  _value Matrices.vector2 = AsPointer 10%N ∧ 10%N ≠ NULL ∧
  heap (world_of (cloneInto Matrices.single Matrices.borrowed Matrices.vector2_world)) !! 9%N
    = Some (FloatArray External
              (Matrix.m Scenario.identity ++ replicate 16 (Scene.f 0))) ∧
  _dynamic <$> result (cloneInto Matrices.single Matrices.borrowed Matrices.vector2_world)
    = Some true ∧
  cloneInto Matrices.single Matrices.vector2 Matrices.vector2_world
    = Abort UndefinedBehaviour Matrices.vector2_world.
Proof.
  assert (H5 : heap Matrices.vector2_world !! 8%N
               = Some (FloatArray NewArray (Matrix.m Scenario.identity))) by reflexivity.
  assert (H6 : (16 ≤ length (Matrix.m Scenario.identity))%nat) by (simpl; lia).
  assert (H4 : 8%N ≠ NULL) by discriminate.
  assert (H8 : 9%N ≠ NULL) by discriminate.
  assert (H10 : 10%N ≠ NULL) by discriminate.
  do 4 (split; [reflexivity|]). split; [exact H4|]. split; [exact H5|]. split; [exact H6|].
  split; [reflexivity|]. split; [exact H8|]. split; [reflexivity|]. split; [exact H10|].
  destruct (cloneInto_Matrix_writes_through_target Matrices.single Matrices.borrowed
              Matrices.vector2_world 8%N 9%N NewArray (Matrix.m Scenario.identity)
              eq_refl eq_refl eq_refl eq_refl H4 H5 H6 eq_refl H8) as [Hover _].
  destruct (cloneInto_Matrix_writes_through_target Matrices.single Matrices.vector2
              Matrices.vector2_world 8%N 10%N NewArray (Matrix.m Scenario.identity)
              eq_refl eq_refl eq_refl eq_refl H4 H5 H6 eq_refl H10) as [_ Hshort].
  rewrite (Hover External (replicate 32 (Scene.f 0)) eq_refl ltac:(simpl; lia)).
  split; [reflexivity|]. split; [reflexivity|].
  apply Hshort. intros o' data'.
  change (heap Matrices.vector2_world !! 10%N)
    with (Some (FloatArray NewArray [Scene.f 1; Scene.f 2])).
  intros [= <- <-]. simpl. lia.
Defined.

(** X14: Cloning into a newly constructed parameter copies single values and
    shares arrays, for every vector kind and for matrices.  With
    [_count == 1] the clone owns a new array holding the 2, 3, 4 or 16
    floats found at the source's pointer, and the source's storage is not
    touched; with any other count nothing is allocated and the clone
    stores the source's pointer, not owning it. *)
Theorem cloneInto_copies_values_shares_arrays (this target : MaterialParameter) (w : World)
    (a : addr) (o : origin) (data : list float) :
  _type this ∈ [VECTOR2; VECTOR3; VECTOR4; MATRIX] →
  _value this = AsPointer a → a ≠ NULL → heap w !! a = Some (FloatArray o data) →
  _value target = AllZero →
  let n := floats_per_value (_type this) in
  let a' := fresh_addr (heap w) in
  (_count this = 1 → (n ≤ length data)%nat →
     a' ≠ a ∧
     cloneInto this target w
       = Done {| _type := _type this; _count := 1; _dynamic := true;
                 _name := _name target; _uniform := _uniform this;
                 _value := AsPointer a' |}
           {| heap := <[a' := FloatArray NewArray (take n data)]> (heap w);
              trace := trace w ++ [EvNewArray a' n] |}) ∧
  (_count this ≠ 1 →
     cloneInto this target w
       = Done {| _type := _type this; _count := _count this; _dynamic := false;
                 _name := _name target; _uniform := _uniform this;
                 _value := AsPointer a |} w).
Proof.
  intros Ht Hv Ha Hh Hz n a'.
  destruct (fresh_addr_spec (heap w)) as [Hf0 Hf]. fold a' in Hf0, Hf.
  assert (a' ≠ a) as Hne by (intros E; rewrite E in Hf; congruence).
  destruct this as [t c d nm u v], target as [t' c' d' nm' u' v']. simpl in *. subst v v'.
  assert (∀ tt cc dd, clearValue {| _type := tt; _count := cc; _dynamic := dd; _name := nm';
                                    _uniform := u; _value := AllZero |} w
                      = Done {| _type := NONE; _count := if dd then 1 else cc;
                                _dynamic := false; _name := nm'; _uniform := u;
                                _value := AllZero |} w) as Hclear.
  { intros. by rewrite clearValue_zeroed. }
  split.
  - intros -> Hlen. split; [exact Hne|]. unfold cloneInto.
    cbn [_type _count _dynamic _name _uniform _value].
    unfold floatPtrValue, pointerValue.
    rewrite !elem_of_cons in Ht.
    destruct Ht as [->|[->|[->|[->|[]%elem_of_nil]]]]; cbv iota; rewrite ret_bind;
      cbn [Z.eqb Pos.eqb]; rewrite bool_decide_eq_true_2 by done; simpl GP_ASSERT;
      rewrite ret_bind; unfold n in *; cbn [floats_per_value _type] in *.
    + unfold setValue_Vector2. rewrite (bind_Done _ _ _ _ _ (Hclear _ _ _)).
      destruct data as [|x [|y rest]]; simpl in Hlen; try lia.
      assert (deref_Vector2 a w = Done {| Vector2.x := x; Vector2.y := y |} w) as Hderef.
      { unfold deref_Vector2, mbind, M_bind.
        rewrite (load_floats_Done a 2 o _ w Hh) by (simpl; lia). reflexivity. }
      rewrite (bind_Done _ _ _ _ _ Hderef). reflexivity.
    + unfold setValue_Vector3. rewrite (bind_Done _ _ _ _ _ (Hclear _ _ _)).
      destruct data as [|x [|y [|z rest]]]; simpl in Hlen; try lia.
      assert (deref_Vector3 a w = Done {| Vector3.x := x; Vector3.y := y; Vector3.z := z |} w) as Hderef.
      { unfold deref_Vector3, mbind, M_bind.
        rewrite (load_floats_Done a 3 o _ w Hh) by (simpl; lia). reflexivity. }
      rewrite (bind_Done _ _ _ _ _ Hderef). reflexivity.
    + unfold setValue_Vector4. rewrite (bind_Done _ _ _ _ _ (Hclear _ _ _)).
      destruct data as [|x [|y [|z [|q rest]]]]; simpl in Hlen; try lia.
      assert (deref_Vector4 a w = Done {| Vector4.x := x; Vector4.y := y; Vector4.z := z; Vector4.w := q |} w) as Hderef.
      { unfold deref_Vector4, mbind, M_bind.
        rewrite (load_floats_Done a 4 o _ w Hh) by (simpl; lia). reflexivity. }
      rewrite (bind_Done _ _ _ _ _ Hderef). reflexivity.
    + unfold setValue_Matrix. cbn [_dynamic _count _type _value].
      assert ((if d && (1 =? 1) && bool_decide (MATRIX = MATRIX)
               then a0 ← floatPtrValue AllZero; mret (bool_decide (a0 ≠ NULL))
               else mret false) = (mret false : M bool)) as -> by (by destruct d).
      rewrite ret_bind.
      unfold mbind at 1, M_bind at 1. unfold mbind at 1, M_bind at 1. rewrite Hclear.
      unfold mbind at 1, M_bind at 1. rewrite new_float_array_Done.
      unfold mret at 1, M_ret at 1. cbn [_value with_value heap trace].
      unfold floatPtrValue, pointerValue. rewrite ret_bind. fold a'.
      unfold deref_Matrix.
      unfold mbind at 1, M_bind at 1. unfold mbind at 1, M_bind at 1.
      rewrite (load_floats_Done a 16 o data)
        by (done || cbn [heap]; by rewrite lookup_insert_ne).
      unfold mret at 1, M_ret at 1. cbn [Matrix.m].
      unfold read_floats. rewrite decide_True by (rewrite length_take_le; lia).
      rewrite ret_bind. rewrite take_take, Nat.min_id.
      unfold memcpy_floats, mbind, M_bind. cbn [heap].
      rewrite lookup_insert_eq. rewrite length_take_le by done.
      rewrite decide_True by (rewrite length_replicate; lia).
      unfold with_heap. cbn [heap trace]. rewrite insert_insert_eq.
      rewrite drop_ge by (rewrite length_replicate; lia). by rewrite app_nil_r.
  - intros Hc. apply Z.eqb_neq in Hc. unfold cloneInto.
    cbn [_type _count _dynamic _name _uniform _value].
    unfold floatPtrValue, pointerValue.
    rewrite !elem_of_cons in Ht.
    destruct Ht as [->|[->|[->|[->|[]%elem_of_nil]]]]; cbv iota; rewrite ret_bind, Hc;
      unfold setValue_Vector2Array, setValue_Vector3Array, setValue_Vector4Array,
        setValue_MatrixArray;
      rewrite bool_decide_eq_true_2 by done; simpl GP_ASSERT; rewrite ret_bind;
      rewrite (bind_Done _ _ _ _ _ (Hclear _ _ _)); reflexivity.
Qed.

Lemma cloneInto_copies_values_shares_arrays_witness :
  _type Matrices.single ∈ [VECTOR2; VECTOR3; VECTOR4; MATRIX] ∧
  _value Matrices.single = AsPointer 8%N ∧ 8%N ≠ NULL ∧
  heap Matrices.world !! 8%N = Some (FloatArray NewArray (Matrix.m Scenario.identity)) ∧
  _value (Scene.fresh "u_viewMatrix") = AllZero ∧
  _count Matrices.single = 1 ∧
  (floats_per_value (_type Matrices.single) ≤ length (Matrix.m Scenario.identity))%nat ∧
  _value <$> result (cloneInto Matrices.single (Scene.fresh "u_viewMatrix") Matrices.world)
    = Some (AsPointer 10%N) ∧
  heap (world_of (cloneInto Matrices.single (Scene.fresh "u_viewMatrix") Matrices.world))
    !! 10%N = Some (FloatArray NewArray (Matrix.m Scenario.identity)).
Proof.
  assert (H1 : _type Matrices.single ∈ [VECTOR2; VECTOR3; VECTOR4; MATRIX])
    by (do 3 apply list_elem_of_further; apply list_elem_of_here).
  assert (H3 : 8%N ≠ NULL) by discriminate.
  assert (H4 : heap Matrices.world !! 8%N
               = Some (FloatArray NewArray (Matrix.m Scenario.identity))) by reflexivity.
  assert (H7 : (floats_per_value (_type Matrices.single)
                ≤ length (Matrix.m Scenario.identity))%nat) by (simpl; lia).
  split; [exact H1|]. split; [reflexivity|]. split; [exact H3|]. split; [exact H4|].
  split; [reflexivity|]. split; [reflexivity|]. split; [exact H7|].
  destruct (cloneInto_copies_values_shares_arrays Matrices.single
              (Scene.fresh "u_viewMatrix") Matrices.world 8%N NewArray
              (Matrix.m Scenario.identity) H1 eq_refl H3 H4 eq_refl) as [Hone _].
  destruct (Hone eq_refl H7) as [_ Hrun]. rewrite Hrun. split; reflexivity.
Defined.

(** X15: Cloning a sampler or a method binding shares the object and adds one
    owner.  The clone stores the source's pointer and the object's count
    goes up by one, by the one [addRef] in the trace; destroying the clone
    gives that reference back and leaves the heap as it was before the
    clone was made.  For a method binding the target's own [setValue] is
    not involved, so this holds whatever the target held. *)
Theorem cloneInto_shares_counted_objects (this target : MaterialParameter) (w : World)
    (a : addr) (obj : RefObject) (n : positive) :
  _value this = AsPointer a → a ≠ NULL → heap w !! a = Some (RefCounted obj n) →
  (_type this = SAMPLER ∧ _dynamic this = false ∧ _value target = AllZero) ∨
  (_type this = METHOD ∧ _dynamic this = true) →
  let clone := {| _type := _type this; _count := _count this; _dynamic := _dynamic this;
                  _name := _name target; _uniform := _uniform this;
                  _value := AsPointer a |} in
  let w' := {| heap := <[a := RefCounted obj (n + 1)%positive]> (heap w);
               trace := trace w ++ [EvAddRef a] |} in
  cloneInto this target w = Done clone w' ∧
  refCount a w' = Some (n + 1)%positive ∧
  MaterialParameter_dtor clone w'
    = Done tt {| heap := heap w; trace := trace w ++ [EvAddRef a; EvRelease a] |}.
Proof.
  intros Hv Ha Hh Hkind clone w'.
  assert (<[a := RefCounted obj (Pos.pred (n + 1))]>
            (<[a := RefCounted obj (n + 1)%positive]> (heap w)) = heap w) as Hback.
  { rewrite insert_insert_eq. replace (Pos.pred (n + 1)) with n by lia. by apply insert_id. }
  destruct this as [t c d nm u v], target as [t' c' d' nm' u' v']. simpl in *. subst v.
  split; [|split].
  - unfold clone, w', cloneInto. cbn [_type _count _dynamic _name _uniform _value].
    destruct Hkind as [(-> & -> & ->)|(-> & ->)]; cbv iota;
      unfold samplerValue, method, pointerValue; rewrite ret_bind.
    + unfold setValue_Sampler.
      erewrite bind_Done by (apply clearValue_zeroed; reflexivity).
      unfold cleared. cbn [_type _count _dynamic _name _uniform _value].
      rewrite decide_True by done.
      unfold addRef, mbind, M_bind. rewrite Hh. reflexivity.
    + rewrite bool_decide_eq_true_2 by done. simpl GP_ASSERT. rewrite ret_bind.
      unfold addRef, mbind, M_bind. rewrite Hh. reflexivity.
  - unfold refCount, w'. cbn [heap]. by rewrite lookup_insert_eq.
  - unfold MaterialParameter_dtor, clone, w', clearValue.
    cbn [_type _count _dynamic _name _uniform _value].
    destruct Hkind as [(-> & -> & ->)|(-> & ->)]; cbv iota;
      unfold SAFE_RELEASE, samplerValue, method, pointerValue, release; unfold_M;
      rewrite decide_False by done; cbv beta; cbn [heap trace];
      rewrite lookup_insert_eq; rewrite decide_False by lia;
      rewrite Hback; by rewrite <- app_assoc.
Qed.

Lemma cloneInto_shares_counted_objects_witness :
  _value Sampled.param = AsPointer 7%N ∧ 7%N ≠ NULL ∧
  heap Sampled.world !! 7%N = Some (RefCounted SamplerObject 2) ∧
  ((_type Sampled.param = SAMPLER ∧ _dynamic Sampled.param = false ∧
    _value (Scene.fresh "u_detailTexture") = AllZero) ∨
   (_type Sampled.param = METHOD ∧ _dynamic Sampled.param = true)) ∧
  refCount 7%N (world_of Shared.clone) = Some 3%positive ∧
  _value <$> result Shared.clone = Some (AsPointer 7%N).
Proof.
  assert (H2 : 7%N ≠ NULL) by discriminate.
  assert (H3 : heap Sampled.world !! 7%N = Some (RefCounted SamplerObject 2)) by reflexivity.
  assert (H4 : (_type Sampled.param = SAMPLER ∧ _dynamic Sampled.param = false ∧
                _value (Scene.fresh "u_detailTexture") = AllZero) ∨
               (_type Sampled.param = METHOD ∧ _dynamic Sampled.param = true))
    by (left; repeat split).
  split; [reflexivity|]. split; [exact H2|]. split; [exact H3|]. split; [exact H4|].
  destruct (cloneInto_shares_counted_objects Sampled.param (Scene.fresh "u_detailTexture")
              Sampled.world 7%N SamplerObject 2 eq_refl H2 H3 H4) as (Hrun & Hcount & _).
  unfold Shared.clone. rewrite Hrun. split; [exact Hcount|reflexivity].
Defined.

(** ** What the animation entry points leave alone *)

Section keeps.
Context (R : World → World → Prop) `{!Reflexive R, !Transitive R}.

Lemma keeps_pure {A : Type} (m : M A) : pure m → keeps R m.
Proof. intros H w. by rewrite <- (H w). Qed.

Lemma keeps_bind {A B : Type} (m : M A) (k : A → M B) :
  keeps R m → (∀ a, keeps R (k a)) → keeps R (m ≫= k).
Proof.
  intros Hm Hk w. unfold mbind, M_bind. specialize (Hm w).
  destruct (m w) as [a w1|f w1]; simpl in *; [|done].
  etrans; [exact Hm|apply Hk].
Qed.

Lemma keeps_for_loop {St : Type} (body : nat → St → M St) (i n : nat) (s : St) :
  (∀ i s, keeps R (body i s)) → keeps R (for_loop body i n s).
Proof.
  intros Hb. revert i s. induction n as [|n IH]; intros i s.
  - intros w. simpl. reflexivity.
  - cbn [for_loop]. apply keeps_bind; [apply Hb|]. intros s'. apply IH.
Qed.

End keeps.

Lemma pure_ret {A : Type} (a : A) : pure (mret a : M A).
Proof. by intros w. Qed.

Lemma pure_abort {A : Type} (f : failure) : pure (abort f : M A).
Proof. by intros w. Qed.

Lemma pure_GP_ASSERT (b : bool) : pure (GP_ASSERT b).
Proof. by destruct b. Qed.

Lemma pure_floatValue (v : ValueUnion) : pure (floatValue v).
Proof. by destruct v. Qed.

Lemma pure_intValue (v : ValueUnion) : pure (intValue v).
Proof. by destruct v. Qed.

Lemma pure_pointerValue (v : ValueUnion) : pure (pointerValue v).
Proof. by destruct v. Qed.

Lemma pure_load_float (a : addr) (i : nat) : pure (load_float a i).
Proof.
  intros w. unfold load_float.
  by destruct (heap w !! a) as [[? d| |]|]; [destruct (d !! i)|..].
Qed.

Lemma pure_load_int (a : addr) (i : nat) : pure (load_int a i).
Proof.
  intros w. unfold load_int.
  by destruct (heap w !! a) as [[|? d|]|]; [|destruct (d !! i)|..].
Qed.

Lemma pure_getFloat (index : Z) (v : AnimationValue.t) : pure (AnimationValue.getFloat index v).
Proof. intros w. unfold AnimationValue.getFloat. by destruct (v !! _). Qed.

Lemma pure_float_to_int (f : float) : pure (float_to_int f).
Proof. intros w. unfold float_to_int. by destruct (Float32.to_int f). Qed.

Lemma pure_setFloat (index : Z) (x : float) (v : AnimationValue.t) :
  pure (AnimationValue.setFloat index x v).
Proof.
  unfold AnimationValue.setFloat. apply keeps_bind; [apply _..|apply pure_GP_ASSERT|].
  intros _. apply pure_ret.
Qed.

Lemma pure_setFloat_array (a : addr) (offset length_ : Z) (v : AnimationValue.t) :
  pure (AnimationValue.setFloat_array a offset length_ v).
Proof.
  unfold AnimationValue.setFloat_array.
  apply keeps_bind; [apply _..|apply pure_GP_ASSERT|]. intros _.
  apply keeps_for_loop; [apply _..|]. intros j s.
  apply keeps_bind; [apply _..|apply pure_load_float|]. intros f. apply pure_setFloat.
Qed.

Lemma post_ret {A : Type} (P : A → Prop) (a : A) : P a → post P (mret a : M A).
Proof. intros H w a' w' [= <- _]. exact H. Qed.

Lemma post_abort {A : Type} (P : A → Prop) (f : failure) : post P (abort f : M A).
Proof. intros w a w'. discriminate. Qed.

Lemma post_bind {A B : Type} (P : A → Prop) (Q : B → Prop) (m : M A) (k : A → M B) :
  post P m → (∀ a, P a → post Q (k a)) → post Q (m ≫= k).
Proof.
  intros Hm Hk w b w'. unfold mbind, M_bind.
  destruct (m w) as [a w1|f w1] eqn:E; [|discriminate].
  intros Hb. exact (Hk a (Hm _ _ _ E) _ _ _ Hb).
Qed.

Lemma post_any {A : Type} (m : M A) : post (λ _, True) m.
Proof. by intros w a w' _. Qed.

Lemma post_then {A B : Type} (Q : B → Prop) (m : M A) (k : A → M B) :
  (∀ a, post Q (k a)) → post Q (m ≫= k).
Proof. intros Hk. apply (post_bind (λ _, True)); [apply post_any|]. intros a _. apply Hk. Qed.

Lemma post_for_loop {St : Type} (P : St → Prop) (body : nat → St → M St) (i n : nat)
    (s : St) :
  (∀ i s, P s → post P (body i s)) → P s → post P (for_loop body i n s).
Proof.
  intros Hb. revert i s. induction n as [|n IH]; intros i s Hs.
  - by apply post_ret.
  - cbn [for_loop]. apply (post_bind P); [by apply Hb|]. intros s'. apply IH.
Qed.

Lemma post_setFloat (n : nat) (index : Z) (x : float) (v : AnimationValue.t) :
  length v = n → post (λ v', length v' = n) (AnimationValue.setFloat index x v).
Proof.
  intros <-. unfold AnimationValue.setFloat. apply post_then. intros _.
  apply post_ret. apply length_insert.
Qed.

Lemma post_setFloat_array (n : nat) (a : addr) (offset length_ : Z) (v : AnimationValue.t) :
  length v = n →
  post (λ v', length v' = n) (AnimationValue.setFloat_array a offset length_ v).
Proof.
  intros Hv. unfold AnimationValue.setFloat_array. apply post_then. intros _.
  apply post_for_loop; [|done]. intros j s Hs. apply post_then. intros f.
  by apply post_setFloat.
Qed.

(** X16: Reading the channels of a parameter is an observation: whatever the
    property id, the buffer and the state of the cell, and whether the read
    returns or stops at an assertion or at undefined behaviour, the world is
    left exactly as it was.  When it returns, the buffer has the length it
    had. *)
Theorem read_changes_nothing (propertyId : Z) (value : AnimationValue.t)
    (p : MaterialParameter) (w : World) :
  world_of (getAnimationPropertyValue propertyId value p w) = w ∧
  ∀ value' w', getAnimationPropertyValue propertyId value p w = Done value' w' →
               length value' = length value.
Proof.
  split.
  - symmetry. revert w.
    change (pure (getAnimationPropertyValue propertyId value p)).
    unfold getAnimationPropertyValue, floatPtrValue, intPtrValue.
    destruct (propertyId =? ANIMATE_UNIFORM); [|apply pure_ret].
    destruct (_type p); try apply pure_ret; try destruct (_count p =? 1);
      repeat first
        [ apply pure_ret | apply pure_GP_ASSERT | apply pure_floatValue | apply pure_intValue
        | apply pure_pointerValue | apply pure_load_float | apply pure_load_int
        | apply pure_setFloat | apply pure_setFloat_array
        | apply keeps_for_loop; [apply _..|intros ??]
        | apply keeps_bind; [apply _..| |intros ?] ].
  - revert w.
    change (post (λ value', length value' = length value)
              (getAnimationPropertyValue propertyId value p)).
    unfold getAnimationPropertyValue.
    destruct (propertyId =? ANIMATE_UNIFORM); [|by apply post_ret].
    destruct (_type p); try (by apply post_ret); try destruct (_count p =? 1);
      repeat first
        [ by apply post_setFloat
        | by apply post_setFloat_array
        | apply post_for_loop; [intros i s Hs|done]
        | apply post_then; intros ? ].
Qed.

Lemma same_shape_refl (b : block) : same_shape b b.
Proof. by destruct b. Qed.

Lemma same_shape_trans (b1 b2 b3 : block) :
  same_shape b1 b2 → same_shape b2 b3 → same_shape b1 b3.
Proof.
  destruct b1, b2, b3; simpl; try done; intros [-> H1] [-> H2]; split; congruence.
Qed.

#[local] Instance written_in_place_refl (a : addr) : Reflexive (written_in_place a).
Proof.
  intros w. split; [done|]. split; [done|].
  destruct (heap w !! a); [apply same_shape_refl|done].
Qed.

#[local] Instance written_in_place_trans (a : addr) : Transitive (written_in_place a).
Proof.
  intros w1 w2 w3 (Ht1 & Hf1 & Hs1) (Ht2 & Hf2 & Hs2).
  split; [congruence|]. split.
  - intros b Hb. rewrite Hf2, Hf1; done.
  - destruct (heap w1 !! a), (heap w2 !! a), (heap w3 !! a); try done.
    by eapply same_shape_trans.
Qed.

Lemma store_float_in_place (a : addr) (i : nat) (f : float) :
  keeps (written_in_place a) (store_float a i f).
Proof.
  intros w. unfold store_float.
  destruct (heap w !! a) as [[o d| |]|] eqn:E; try reflexivity.
  case_decide; [|reflexivity]. simpl.
  split; [done|]. split.
  - intros b Hb. simpl. by rewrite lookup_insert_ne.
  - simpl. rewrite E, lookup_insert_eq. simpl. by rewrite length_insert.
Qed.

Lemma store_int_in_place (a : addr) (i : nat) (z : Z) :
  keeps (written_in_place a) (store_int a i z).
Proof.
  intros w. unfold store_int.
  destruct (heap w !! a) as [[|o d|]|] eqn:E; try reflexivity.
  case_decide; [|reflexivity]. simpl.
  split; [done|]. split.
  - intros b Hb. simpl. by rewrite lookup_insert_ne.
  - simpl. rewrite E, lookup_insert_eq. simpl. by rewrite length_insert.
Qed.

Ltac step_keeps :=
  repeat first
    [ apply keeps_pure; [apply _|];
      first [ apply pure_ret | apply pure_abort | apply pure_GP_ASSERT | apply pure_floatValue
            | apply pure_intValue | apply pure_pointerValue | apply pure_load_float
            | apply pure_load_int | apply pure_getFloat | apply pure_float_to_int ]
    | apply store_float_in_place | apply store_int_in_place
    | apply keeps_for_loop; [apply _..|intros ??]
    | apply keeps_bind; [apply _..| |intros ?] ].

Lemma applyAnimationValue_in_place (value : AnimationValue.t) (blendWeight : float)
    (components : Z) (p : MaterialParameter) (a : addr) :
  _value p = AsPointer a →
  keeps (written_in_place a) (applyAnimationValue value blendWeight components p).
Proof.
  intros Hv. unfold applyAnimationValue, floatPtrValue. rewrite Hv. simpl pointerValue.
  rewrite ret_bind. step_keeps.
Qed.

Lemma applyAnimationValue_no_pointer (value : AnimationValue.t) (blendWeight : float)
    (components : Z) (p : MaterialParameter) :
  (∀ a, _value p ≠ AsPointer a) →
  pure (applyAnimationValue value blendWeight components p).
Proof.
  intros Hv. unfold applyAnimationValue, floatPtrValue.
  destruct (_value p) as [| | |a]; simpl pointerValue;
    [rewrite ret_bind; simpl; apply pure_abort|apply pure_abort..|by destruct (Hv a)].
Qed.

(** A blend that returns has changed neither a tag nor, in a cell that
    holds a pointer, the object itself. *)
Lemma blend_keeps_tags (propertyId : Z) (value : AnimationValue.t) (blendWeight : float)
    (p p' : MaterialParameter) (w w' : World) :
  setAnimationPropertyValue propertyId value blendWeight p w = Done p' w' →
  _type p' = _type p ∧ _count p' = _count p ∧ _dynamic p' = _dynamic p ∧
  _name p' = _name p ∧ _uniform p' = _uniform p ∧
  (∀ a, _value p = AsPointer a → p' = p).
Proof.
  revert w p' w'.
  change (post (λ p', _type p' = _type p ∧ _count p' = _count p ∧
                      _dynamic p' = _dynamic p ∧ _name p' = _name p ∧
                      _uniform p' = _uniform p ∧
                      (∀ a, _value p = AsPointer a → p' = p))
            (setAnimationPropertyValue propertyId value blendWeight p)).
  unfold setAnimationPropertyValue.
  apply post_then. intros _.
  destruct (propertyId =? ANIMATE_UNIFORM); [|by apply post_ret].
  destruct (_type p) eqn:Ht; try (by apply post_ret); try destruct (_count p =? 1);
    try (apply post_then; intros ?; by apply post_ret).
  - unfold floatValue. destruct (_value p) eqn:Hv; try apply post_abort;
      rewrite ret_bind; apply post_then; intros b; apply post_ret; repeat split; done.
  - unfold intValue. destruct (_value p) eqn:Hv; try apply post_abort;
      rewrite ret_bind; apply post_then; intros b; apply post_then; intros r;
      apply post_ret; repeat split; done.
  - do 3 (apply post_then; intros ?). by apply post_ret.
Qed.

(** X17: Blending writes into the cell's own storage and nowhere else.  For
    every property id, buffer, weight and state of the cell, and whether
    the call returns or stops part-way, a cell that holds a pointer ends in
    a world that differs at most in the contents of the array it points to
    (no event, so no allocation, deletion, or change of a reference count;
    the array keeps its origin and length; every other block is untouched),
    and a cell that holds no pointer leaves the world as it was.  When the
    call returns, the kind, count, ownership flag, name and cached uniform
    of the cell are what they were, and a cell that holds a pointer is
    returned unchanged. *)
Theorem blend_writes_in_place (propertyId : Z) (value : AnimationValue.t)
    (blendWeight : float) (p : MaterialParameter) (w : World) :
  match _value p with
  | AsPointer a =>
      written_in_place a w
        (world_of (setAnimationPropertyValue propertyId value blendWeight p w))
  | _ => world_of (setAnimationPropertyValue propertyId value blendWeight p w) = w
  end ∧
  ∀ p' w', setAnimationPropertyValue propertyId value blendWeight p w = Done p' w' →
    _type p' = _type p ∧ _count p' = _count p ∧ _dynamic p' = _dynamic p ∧
    _name p' = _name p ∧ _uniform p' = _uniform p ∧
    (∀ a, _value p = AsPointer a → p' = p).
Proof.
  split.
  - destruct (_value p) as [| | |a] eqn:Hv.
    1-3: symmetry; revert w;
      change (pure (setAnimationPropertyValue propertyId value blendWeight p));
      unfold setAnimationPropertyValue, intPtrValue;
      apply keeps_bind; [apply _..|apply pure_GP_ASSERT|]; intros _;
      destruct (propertyId =? ANIMATE_UNIFORM); [|apply pure_ret];
      destruct (_type p); try apply pure_ret; try destruct (_count p =? 1);
      rewrite ?Hv; simpl pointerValue; rewrite ?ret_bind;
      repeat first
        [ apply pure_ret | apply pure_abort | apply pure_GP_ASSERT | apply pure_floatValue
        | apply pure_intValue | apply pure_getFloat | apply pure_float_to_int
        | apply applyAnimationValue_no_pointer; intros a; rewrite Hv; discriminate
        | apply keeps_bind; [apply _..| |intros ?] ].
    revert w.
    change (keeps (written_in_place a)
              (setAnimationPropertyValue propertyId value blendWeight p)).
    unfold setAnimationPropertyValue, intPtrValue.
    apply keeps_bind; [apply _..|apply keeps_pure; [apply _|apply pure_GP_ASSERT]|].
    intros _. destruct (propertyId =? ANIMATE_UNIFORM); [|step_keeps].
    destruct (_type p); try (by step_keeps); try destruct (_count p =? 1);
      try (apply keeps_bind; [apply _..|by apply applyAnimationValue_in_place|intros ?]);
      rewrite ?Hv; simpl pointerValue; rewrite ?ret_bind; step_keeps.
  - intros p' w'. apply blend_keeps_tags.
Qed.

(** ** The animation entry points, channel by channel *)

(** X18: For every weight in range, blending a cell of a float kind replaces
    each stored channel by the [lerp] of that channel and the input channel
    of the same index: the cell keeps its number of channels, and input
    channels beyond them are not looked at. *)
Theorem blend_is_lerp_per_channel (p : MaterialParameter) (w : World)
    (value : AnimationValue.t) (blendWeight : float) (chans : list float) :
  weight_ok blendWeight = true →
  0 ≤ _count p ≤ UINT_MAX →
  float_channels p w = Some chans →
  (length chans ≤ length value)%nat →
  ∃ p' w' chans',
    setAnimationPropertyValue ANIMATE_UNIFORM value blendWeight p w = Done p' w' ∧
    float_channels p' w' = Some chans' ∧
    length chans' = length chans ∧
    ∀ i a b, chans !! i = Some a → value !! i = Some b →
             chans' !! i = Some (Curve.lerp blendWeight a b).
Proof.
  intros Hw Hc Hch Hval.
  destruct (blend_float_channels p w value blendWeight chans Hw Hc Hch Hval)
    as (p' & w' & Hrun & _ & _ & _ & _ & Hch').
  exists p', w', (zip_with (Curve.lerp blendWeight) chans (take (length chans) value)).
  split; [done|]. split; [done|]. split.
  - rewrite length_zip_with, length_take. lia.
  - intros i a b Ha Hb. rewrite lookup_zip_with, Ha.
    rewrite lookup_take_lt by (by apply lookup_lt_Some in Ha).
    unfold AnimationValue.t in *. csimpl. by rewrite Hb.
Qed.

Lemma blend_is_lerp_per_channel_witness :
  weight_ok Scenario.half = true ∧
  0 ≤ _count Blend.vector3_param ≤ UINT_MAX ∧
  float_channels Blend.vector3_param Blend.vector3_world
    = Some [Scene.f 1; Scene.f 2; Scene.f 3] ∧
  (length [Scene.f 1; Scene.f 2; Scene.f 3] ≤ length [Scene.f 4; Scene.f 5; Scene.f 6])%nat ∧
  ∃ p' w' chans',
    setAnimationPropertyValue ANIMATE_UNIFORM [Scene.f 4; Scene.f 5; Scene.f 6]
        Scenario.half Blend.vector3_param Blend.vector3_world = Done p' w' ∧
    float_channels p' w' = Some chans' ∧
    chans' !! 0%nat = Some Blend.two_and_a_half ∧
    chans' !! 2%nat = Some Scenario.four_and_a_half.
Proof.
  assert (H1 : weight_ok Scenario.half = true) by reflexivity.
  assert (H2 : 0 ≤ _count Blend.vector3_param ≤ UINT_MAX) by (vm_compute; split; congruence).
  assert (H3 : float_channels Blend.vector3_param Blend.vector3_world
               = Some [Scene.f 1; Scene.f 2; Scene.f 3]) by reflexivity.
  assert (H4 : (length [Scene.f 1; Scene.f 2; Scene.f 3]
                ≤ length [Scene.f 4; Scene.f 5; Scene.f 6])%nat) by (simpl; lia).
  split; [exact H1|]. split; [exact H2|]. split; [exact H3|]. split; [exact H4|].
  destruct (blend_is_lerp_per_channel Blend.vector3_param Blend.vector3_world
              [Scene.f 4; Scene.f 5; Scene.f 6] Scenario.half _ H1 H2 H3 H4)
    as (p' & w' & chans' & Hrun & Hch & _ & Hlerp).
  exists p', w', chans'. split; [exact Hrun|]. split; [exact Hch|]. split.
  - rewrite (Hlerp 0%nat (Scene.f 1) (Scene.f 4) eq_refl eq_refl). by vm_compute.
  - rewrite (Hlerp 2%nat (Scene.f 3) (Scene.f 6) eq_refl eq_refl). by vm_compute.
Defined.

(** X19: Reading a cell writes exactly as many channels as the cell reports:
    the stored channels, in index order, land on the first channels of the
    buffer, their number is the component count, and the rest of the buffer
    is left as it was.  The channels of an Int cell arrive converted to
    [float]. *)
Theorem read_copies_the_channels (p : MaterialParameter) (w : World)
    (value : AnimationValue.t) :
  count_in_range p →
  (∀ chans, float_channels p w = Some chans → (length chans ≤ length value)%nat →
     Z.of_nat (length chans) = getAnimationPropertyComponentCount ANIMATE_UNIFORM p ∧
     getAnimationPropertyValue ANIMATE_UNIFORM value p w
       = Done (chans ++ drop (length chans) value) w) ∧
  (∀ chans, int_channels p w = Some chans → (length chans ≤ length value)%nat →
     Z.of_nat (length chans) = getAnimationPropertyComponentCount ANIMATE_UNIFORM p ∧
     getAnimationPropertyValue ANIMATE_UNIFORM value p w
       = Done ((Float32.of_int <$> chans) ++ drop (length chans) value) w).
Proof.
  intros Hr. split; intros chans Hch Hval.
  - split; [|by apply read_float_channels].
    destruct Hr as [Hc0 Hc].
    unfold float_channels in Hch.
    assert (0 ≤ getAnimationPropertyComponentCount ANIMATE_UNIFORM p) as Hpos.
    { unfold getAnimationPropertyComponentCount, uint. rewrite Z.eqb_refl.
      destruct (_type p); try lia; apply Z.mod_pos_bound; lia. }
    destruct (_type p) eqn:Ht; try discriminate Hch.
    + destruct (_count p =? 1) eqn:En.
      * apply Z.eqb_eq in En.
        unfold getAnimationPropertyComponentCount. rewrite Z.eqb_refl, Ht, En.
        destruct (_value p); try discriminate Hch; by injection Hch as <-.
      * destruct (_value p); try discriminate Hch.
        apply float_array_prefix_Some in Hch as (_ & o & data & _ & Hl & ->).
        rewrite length_take_le by done. lia.
    + destruct (_value p); try discriminate Hch.
      apply float_array_prefix_Some in Hch as (_ & o & data & _ & Hl & ->).
      rewrite length_take_le by done. lia.
    + destruct (_value p); try discriminate Hch.
      apply float_array_prefix_Some in Hch as (_ & o & data & _ & Hl & ->).
      rewrite length_take_le by done. lia.
    + destruct (_value p); try discriminate Hch.
      apply float_array_prefix_Some in Hch as (_ & o & data & _ & Hl & ->).
      rewrite length_take_le by done. lia.
  - split; [|by apply read_int_channels].
    destruct Hr as [Hc0 Hc].
    unfold int_channels in Hch.
    destruct (_type p) eqn:Ht; try discriminate Hch.
    destruct (_count p =? 1) eqn:En.
    + apply Z.eqb_eq in En.
      unfold getAnimationPropertyComponentCount. rewrite Z.eqb_refl, Ht, En.
      destruct (_value p); try discriminate Hch; by injection Hch as <-.
    + destruct (_value p); try discriminate Hch.
      apply int_array_prefix_Some in Hch as (_ & o & data & _ & Hl & ->).
      rewrite length_take_le by done.
      unfold getAnimationPropertyComponentCount in *. rewrite Z.eqb_refl, Ht in *. lia.
Qed.

Lemma read_copies_the_channels_witness :
  count_in_range Blend.int_array ∧
  int_channels Blend.int_array Scene.world = Some [10; 20; 30] ∧
  getAnimationPropertyComponentCount ANIMATE_UNIFORM Blend.int_array = 3 ∧
  getAnimationPropertyValue ANIMATE_UNIFORM (replicate 4 Float32.one) Blend.int_array
      Scene.world
    = Done [Scene.f 10; Scene.f 20; Scene.f 30; Float32.one] Scene.world.
Proof.
  assert (H1 : count_in_range Blend.int_array) by (vm_compute; split; congruence).
  assert (H2 : int_channels Blend.int_array Scene.world = Some [10; 20; 30]) by reflexivity.
  split; [exact H1|]. split; [exact H2|].
  destruct (read_copies_the_channels Blend.int_array Scene.world (replicate 4 Float32.one) H1)
    as [_ Hint].
  destruct (Hint [10; 20; 30] H2 ltac:(simpl; lia)) as [Hn Hrun].
  split; [by rewrite <- Hn|exact Hrun].
Defined.

(** ** The weight of a blend *)

Lemma leb_positive_one (m : positive) (e : Z) :
  Float32.leb (S754_finite false m e) Float32.one
    = match e ?= -23 with
      | Lt => true
      | Gt => false
      | Eq => match Pos.compare m 8388608 with Gt => false | _ => true end
      end.
Proof.
  unfold Float32.leb, SFleb, Float32.one, SFcompare, Pos.compare.
  destruct (e ?= -23); [|reflexivity..].
  by destruct (Pos.compare_cont Eq m 8388608).
Qed.

Lemma units_one : Float32.units Float32.one = 2 ^ 23 * 2 ^ 126.
Proof. reflexivity. Qed.

Lemma small_exponent_below_one (m : positive) (e : Z) :
  Float32.valid (S754_finite false m e) = true →
  e < -23 → Z.pos m * 2 ^ (e + 149) ≤ 2 ^ 23 * 2 ^ 126.
Proof.
  intros Hv Hlt.
  pose proof (Rounding.bounded_spec m e Hv) as (Hc & He1 & He2).
  rewrite Rounding.fexp_eq in Hc.
  pose proof (Rounding.digits_bounds m) as [Hd1 Hd2].
  assert (0 < 2 ^ (e + 149)) as Hpos by (apply Z.pow_pos_nonneg; lia).
  assert (Z.pos m < 2 ^ 24).
  { destruct (Z.max_spec (Z.pos (digits2_pos m) + e - 24) (-149)) as [[? E]|[? E]];
      rewrite E in Hc.
    - assert (Z.pos (digits2_pos m) ≤ 24) by lia.
      eapply Z.lt_le_trans; [exact Hd2|]. apply Z.pow_le_mono_r; lia.
    - assert (Z.pos (digits2_pos m) = 24) as E24 by lia. by rewrite E24 in Hd2. }
  assert (2 ^ (e + 149) ≤ 2 ^ 125) by (apply Z.pow_le_mono_r; lia).
  assert (2 ^ 23 * 2 ^ 126 = 2 ^ 24 * 2 ^ 125) as -> by reflexivity.
  apply Z.mul_le_mono_nonneg; lia.
Qed.

Lemma large_exponent_above_one (m : positive) (e : Z) :
  Float32.valid (S754_finite false m e) = true →
  -23 < e → 2 ^ 23 * 2 ^ 126 < Z.pos m * 2 ^ (e + 149).
Proof.
  intros Hv Hlt.
  pose proof (Rounding.bounded_spec m e Hv) as (Hc & He1 & He2).
  rewrite Rounding.fexp_eq in Hc.
  pose proof (Rounding.digits_bounds m) as [Hd1 Hd2].
  assert (0 < 2 ^ 126) as H126 by (by apply Z.pow_pos_nonneg).
  assert (0 < 2 ^ 23) as H23 by (by apply Z.pow_pos_nonneg).
  assert (Z.pos (digits2_pos m) = 24) as Hd by lia.
  rewrite Hd in Hd1. change (24 - 1) with 23 in Hd1.
  assert (2 ^ 127 ≤ 2 ^ (e + 149)) as H127 by (apply Z.pow_le_mono_r; lia).
  assert (2 ^ 127 = 2 * 2 ^ 126) as E127 by reflexivity. rewrite E127 in H127.
  assert (2 ^ 23 * (2 * 2 ^ 126) ≤ Z.pos m * 2 ^ (e + 149))
    by (apply Z.mul_le_mono_nonneg; lia).
  lia.
Qed.

(** X20: The assertion [blendWeight >= 0.0f && blendWeight <= 1.0f] lets
    through exactly the floats whose value lies between 0 and 1: the
    negative zero passes, a NaN and the infinities do not.  A weight that
    does not pass stops the blend at the assertion before anything is read
    or written, for every property id and every kind of cell, those the
    blend would ignore included. *)
Theorem blend_weight_range (blendWeight : float) :
  Float32.valid blendWeight = true →
  (weight_ok blendWeight = true ↔
     Float32.is_finite blendWeight = true ∧
     0 ≤ Float32.units blendWeight ≤ Float32.units Float32.one) ∧
  (weight_ok blendWeight = false →
     ∀ propertyId value p w,
       setAnimationPropertyValue propertyId value blendWeight p w
         = Abort AssertionFailed w).
Proof.
  intros Hv. split.
  - rewrite units_one.
    assert (0 < 2 ^ 126) as H126 by (by apply Z.pow_pos_nonneg).
    assert (0 < 2 ^ 23) as H23 by (by apply Z.pow_pos_nonneg).
    destruct blendWeight as [s|[]| |[] m e].
    + split; [|done]. intros _. split; [done|]. unfold Float32.units. lia.
    + split; [done|]. by intros [? _].
    + split; [done|]. by intros [? _].
    + split; [done|]. by intros [? _].
    + split; [done|]. intros [_ [H _]]. unfold Float32.units, cond_Zopp in H.
      pose proof (Rounding.valid_finite_exponent _ _ _ Hv).
      assert (0 < 2 ^ (e + 149)) by (apply Z.pow_pos_nonneg; lia).
      assert (0 < Z.pos m * 2 ^ (e + 149)) by (apply Z.mul_pos_pos; lia). lia.
    + unfold weight_ok.
      assert (Float32.leb Float32.zero (S754_finite false m e) = true) as -> by reflexivity.
      rewrite leb_positive_one. cbn [andb Float32.is_finite Float32.units cond_Zopp].
      pose proof (Rounding.valid_finite_exponent _ _ _ Hv).
      assert (0 < 2 ^ (e + 149)) as Hpos by (apply Z.pow_pos_nonneg; lia).
      destruct (Z.compare_spec e (-23)) as [->|Hlt|Hgt].
      * pose proof (Rounding.bounded_spec m _ Hv) as (Hc & _ & _).
        rewrite Rounding.fexp_eq in Hc.
        pose proof (Rounding.digits_bounds m) as [Hd1 _].
        assert (Z.pos (digits2_pos m) = 24) as Hd by lia.
        rewrite Hd in Hd1. change (24 - 1) with 23 in Hd1.
        assert (-23 + 149 = 126) as -> by reflexivity.
        destruct (Pos.compare_spec m 8388608) as [E|Hm|Hm].
        -- split; [|done]. intros _. split; [done|]. rewrite E.
           assert (Z.pos 8388608 = 2 ^ 23) as -> by reflexivity. lia.
        -- apply Pos2Z.pos_lt_pos in Hm. clear - Hm Hd1. lia.
        -- apply Pos2Z.pos_lt_pos in Hm. split; [done|]. intros [_ [_ H']].
           assert (Z.pos m ≤ 2 ^ 23)
             by exact (proj2 (Z.mul_le_mono_pos_r (Z.pos m) (2 ^ 23) (2 ^ 126) H126) H').
           clear - Hm H0. lia.
      * split; [|done]. intros _. split; [done|]. split; [lia|].
        by apply small_exponent_below_one.
      * split; [done|]. intros [_ [_ H']].
        pose proof (large_exponent_above_one m e Hv Hgt). lia.
  - intros Hw propertyId value p w. unfold setAnimationPropertyValue.
    fold (weight_ok blendWeight). by rewrite Hw.
Qed.

Lemma blend_weight_range_witness :
  Float32.valid (S754_zero true) = true ∧ weight_ok (S754_zero true) = true ∧
  Float32.valid S754_nan = true ∧ weight_ok S754_nan = false ∧
  setAnimationPropertyValue ANIMATE_UNIFORM [Float32.one] S754_nan Sampled.param Sampled.world
    = Abort AssertionFailed Sampled.world.
Proof.
  assert (H1 : Float32.valid (S754_zero true) = true) by reflexivity.
  assert (H2 : Float32.valid S754_nan = true) by reflexivity.
  split; [exact H1|]. split.
  - apply (proj1 (blend_weight_range _ H1)). split; [reflexivity|].
    rewrite units_one. cbn [Float32.units].
    assert (0 < 2 ^ 126) by (by apply Z.pow_pos_nonneg).
    assert (0 < 2 ^ 23) by (by apply Z.pow_pos_nonneg). lia.
  - split; [exact H2|]. split; [reflexivity|].
    apply (proj2 (blend_weight_range _ H2)). reflexivity.
Defined.

(** ** Unknown property ids and kinds that are not animated *)

(** X21: For a property id other than the uniform-value id, and for a cell of
    kind [NONE], [MATRIX], [SAMPLER] or [METHOD] under any id, the three
    animation entry points agree: the component count is 0, the read
    returns the buffer as it was, and the blend returns the parameter as it
    was, the world untouched.  The blend still asserts its weight. *)
Theorem animation_ignores (propertyId : Z) (value : AnimationValue.t)
    (blendWeight : float) (p : MaterialParameter) (w : World) :
  propertyId ≠ ANIMATE_UNIFORM ∨ animatable (_type p) = false →
  getAnimationPropertyComponentCount propertyId p = 0 ∧
  getAnimationPropertyValue propertyId value p w = Done value w ∧
  setAnimationPropertyValue propertyId value blendWeight p w
    = if weight_ok blendWeight then Done p w else Abort AssertionFailed w.
Proof.
  intros H.
  unfold getAnimationPropertyComponentCount, getAnimationPropertyValue,
    setAnimationPropertyValue. fold (weight_ok blendWeight).
  destruct (weight_ok blendWeight); simpl; unfold_M;
    (destruct H as [H|H];
     [rewrite (proj2 (Z.eqb_neq _ _) H); done
     |destruct (propertyId =? ANIMATE_UNIFORM); [|done];
      destruct (_type p); try discriminate H; done]).
Qed.

Lemma animation_ignores_witness :
  (ANIMATE_UNIFORM ≠ ANIMATE_UNIFORM ∨ animatable (_type Sampled.param) = false) ∧
  getAnimationPropertyComponentCount ANIMATE_UNIFORM Sampled.param = 0 ∧
  getAnimationPropertyValue ANIMATE_UNIFORM [Float32.one] Sampled.param Sampled.world
    = Done [Float32.one] Sampled.world ∧
  setAnimationPropertyValue ANIMATE_UNIFORM [Float32.one] Float32.one Sampled.param
      Sampled.world
    = Done Sampled.param Sampled.world.
Proof.
  assert (H : ANIMATE_UNIFORM ≠ ANIMATE_UNIFORM ∨ animatable (_type Sampled.param) = false)
    by (right; reflexivity).
  split; [exact H|].
  exact (animation_ignores ANIMATE_UNIFORM [Float32.one] Float32.one Sampled.param
           Sampled.world H).
Defined.

(** ** The name *)

Section name.
Variable nm : string.

Lemma named_clearValue (p : MaterialParameter) : named nm p → post (named nm) (clearValue p).
Proof. intros Hp w p' w' H. apply clearValue_Done in H as ->. exact Hp. Qed.

Ltac solve_named :=
  repeat first
    [ apply post_abort
    | apply post_ret; assumption
    | apply post_ret; unfold named in *; simpl; assumption
    | apply (post_bind (named nm)); [by apply named_clearValue|intros ? ?]
    | apply post_then; intros ? ].

Lemma named_setters (c : Client.call) (p : MaterialParameter) :
  named nm p → post (named nm) (Client.run c p).
Proof.
  intros Hp. destruct c; simpl;
    unfold setValue_float, setValue_int, setValue_floatArray, setValue_intArray,
      setValue_Vector2, setValue_Vector3, setValue_Vector4,
      setValue_Vector2Array, setValue_Vector3Array, setValue_Vector4Array,
      setValue_MatrixArray, setValue_Sampler; try by solve_named.
  - by apply named_clearValue.
  - (* set_Matrix *)
    unfold setValue_Matrix. apply post_then. intros reuse.
    apply (post_bind (named nm)).
    + destruct reuse; [by apply post_ret|]. solve_named.
    + intros p1 Hp1. solve_named.
  - (* set_Sampler *)
    apply (post_bind (named nm)); [by apply named_clearValue|]. intros p1 Hp1.
    case_decide; solve_named.
  - (* bind *)
    intros w p' w' Hb. destruct (bind_world effect p w) as (_ & _ & Hw).
    rewrite Hb in Hw. destruct (Hw p' eq_refl) as [E _].
    apply (f_equal _name) in E. simpl in E. unfold named in *. congruence.
Qed.

Lemma named_bindValue (node : addr) (binding : string) (p : MaterialParameter) :
  named nm p → post (named nm) (bindValue node binding p).
Proof.
  intros Hp. unfold bindValue.
  repeat match goal with
         | |- post _ (if ?b then _ else _) => destruct b
         end;
    unfold bindValue_method, GP_ERROR; solve_named.
Qed.

Lemma named_blend (propertyId : Z) (value : AnimationValue.t) (blendWeight : float)
    (p : MaterialParameter) :
  named nm p →
  post (named nm) (setAnimationPropertyValue propertyId value blendWeight p).
Proof.
  intros Hp w p' w' H. apply blend_keeps_tags in H as (_ & _ & _ & Hn & _).
  unfold named. congruence.
Qed.

Lemma named_cloneInto (this p : MaterialParameter) :
  named nm p → post (named nm) (cloneInto this p).
Proof.
  intros Hp. unfold cloneInto.
  set (mp := {| _type := _type this; _count := _count this; _dynamic := _dynamic this;
                _name := _name p; _uniform := _uniform this; _value := _value p |}).
  assert (named nm mp) as Hmp by exact Hp. clearbody mp.
  destruct (_type this).
  - by apply post_ret.
  - apply post_then. intros f. by apply (named_setters (Client.set_float f)).
  - apply post_then. intros i. by apply (named_setters (Client.set_int i)).
  - apply post_then. intros a. destruct (_count this =? 1).
    + apply post_then. intros _. unfold setValue_Vector2. solve_named.
    + by apply (named_setters (Client.set_Vector2s a _)).
  - apply post_then. intros a. destruct (_count this =? 1).
    + apply post_then. intros _. unfold setValue_Vector3. solve_named.
    + by apply (named_setters (Client.set_Vector3s a _)).
  - apply post_then. intros a. destruct (_count this =? 1).
    + apply post_then. intros _. unfold setValue_Vector4. solve_named.
    + by apply (named_setters (Client.set_Vector4s a _)).
  - apply post_then. intros a. destruct (_count this =? 1).
    + apply post_then. intros _.
      unfold setValue_Matrix. apply post_then. intros reuse.
      apply (post_bind (named nm)).
      * destruct reuse; [by apply post_ret|]. solve_named.
      * intros p1 Hp1. solve_named.
    + by apply (named_setters (Client.set_Matrices a _)).
  - apply post_then. intros s. by apply (named_setters (Client.set_Sampler s)).
  - solve_named.
Qed.

Lemma named_members (c : Members.call) (p : MaterialParameter) :
  named nm p → post (named nm) (Members.run c p).
Proof.
  intros Hp. destruct c; simpl.
  - by apply named_setters.
  - by apply named_bindValue.
  - solve_named.
  - by apply named_blend.
  - by apply named_cloneInto.
  - unfold setValue_texturePath. destruct texturePath as [path|].
    + apply (post_bind (λ r, named nm r.2)); [|intros r Hr; by apply post_ret].
      apply (post_bind (named nm)); [by apply named_clearValue|]. intros p1 Hp1.
      apply post_then. intros s. case_decide; solve_named.
    + solve_named.
Qed.

Lemma named_run_all (cs : list Members.call) (p : MaterialParameter) :
  named nm p → post (named nm) (Members.run_all cs p).
Proof.
  revert p. induction cs as [|c cs IH]; intros p Hp; simpl.
  - by apply post_ret.
  - apply (post_bind (named nm)); [by apply named_members|]. intros p1. apply IH.
Qed.

End name.

(** X22: The name of a parameter is fixed at construction: it is the string
    the constructor was given, or the empty string for a null pointer, and
    [getName] returns it after any sequence of calls of the interface, the
    setters, [clearValue], [bind], the node binding, the animation read and
    blend, and being the target of [cloneInto] among them. *)
Theorem getName_is_constant (name : option string) (cs : list Members.call)
    (p : MaterialParameter) (w w' : World) :
  (p0 ← MaterialParameter_ctor name; Members.run_all cs p0) w = Done p w' →
  getName p = default "" name.
Proof.
  unfold MaterialParameter_ctor.
  rewrite (bind_Done _ _ _ _ _ (fresh_is_constructed _ w)).
  apply (named_run_all (default "" name)). reflexivity.
Qed.

Lemma getName_is_constant_witness :
  ∃ p w', (p0 ← MaterialParameter_ctor None; Members.run_all Members.busy p0) Scene.world
            = Done p w' ∧
          _type p = SAMPLER ∧ getName p = "".
Proof.
  eexists _, _. split; [vm_compute; reflexivity|]. split; [reflexivity|].
  eapply (getName_is_constant None Members.busy _ Scene.world). vm_compute; reflexivity.
Defined.
